(** * FSD to UDD converter: the section pipeline, verified

    A shallow embedding of the Python sources under [app/]:
    [section_mapper.py], [section_extractor.py], [rag_loader.py],
    [llm_orchestrator.py], [docx_builder.py] and the generation and
    job functions of [main.py].

    Text.  A Python [str] is modelled as a list of characters, and a
    character as a Rocq [ascii], read as the code point of the same
    number (0..255).  The character tables of the Python runtime
    ([str.isspace], the regex classes [\s] and [\d], case folding, the
    line boundaries of [str.splitlines]) are written out for these code
    points.

    Regular expressions.  The patterns of the sources are terms of a
    small pattern type, run by a backtracking matcher that follows
    CPython's: greedy repetitions, lookahead, anchors, one group, and
    the scan loop that [re.sub], [re.split] and [re.finditer] share,
    with its rule for empty matches.

    Effects.  Dictionaries are finite maps.  A function that can raise
    returns a sum, the exception on the left.  The file system is a
    partial function from paths to contents, and the text generation
    service a state with a call that answers or raises.  Logging calls
    have no effect on any value and are left out. *)

From Stdlib Require Import Ascii String List Arith Bool Lia.
From Stdlib Require Import DecimalString DecimalNat.
From stdpp Require Import gmap strings list.

Local Open Scope char_scope.
Local Open Scope nat_scope.
Local Open Scope list_scope.

Abbreviation str := (list ascii).

(** ** Python string primitives *)

Module Py.

Definition LF : ascii := "010".
Definition CR : ascii := "013".
Definition TAB : ascii := "009".
Definition DQ : ascii := "034".

(** [py "a\nb"] reads a literal the way Python reads it between
    quotes: backslash-n is a line feed, backslash-r a carriage
    return, backslash-t a tab, backslash-q a double quote and a
    doubled backslash one backslash. *)
Fixpoint py (s : string) : str :=
  match s with
  | EmptyString => []
  | String "\" (String "n" t) => LF :: py t
  | String "\" (String "r" t) => CR :: py t
  | String "\" (String "t" t) => TAB :: py t
  | String "\" (String "q" t) => DQ :: py t
  | String "\" (String "\" t) => "\" :: py t
  | String c t => c :: py t
  end.

Definition code (c : ascii) : nat := nat_of_ascii c.

Definition chr_eqb (a b : ascii) : bool := Ascii.eqb a b.

(** [str.isspace] on one character, which is also the regex class
    [\s] for [str] patterns: TAB, LF, VT, FF, CR, FS, GS, RS, US,
    space, NEL and the no-break space. *)
Definition isspace (c : ascii) : bool :=
  let n := code c in
  (((9 <=? n) && (n <=? 13)) || ((28 <=? n) && (n <=? 32))
   || (n =? 133) || (n =? 160))%nat.

(** The regex class [\d]: the decimal digits. *)
Definition isdigit (c : ascii) : bool :=
  let n := code c in ((48 <=? n) && (n <=? 57))%nat.

(** The regex class [[a-zA-Z_]]. *)
Definition isalpha_us (c : ascii) : bool :=
  let n := code c in
  (((97 <=? n) && (n <=? 122)) || ((65 <=? n) && (n <=? 90))
   || (n =? 95))%nat.

(** Simple lower-casing of one code point below 256. *)
Definition lower (c : ascii) : ascii :=
  let n := code c in
  if (((65 <=? n) && (n <=? 90))
      || ((192 <=? n) && (n <=? 222) && negb (n =? 215)))%nat
  then ascii_of_nat (n + 32) else c.

(** The line boundaries of [str.splitlines]. *)
Definition islinebreak (c : ascii) : bool :=
  let n := code c in
  (((10 <=? n) && (n <=? 13)) || ((28 <=? n) && (n <=? 30))
   || (n =? 133))%nat.

Fixpoint take_while (p : ascii -> bool) (s : str) : str :=
  match s with
  | c :: t => if p c then c :: take_while p t else []
  | [] => []
  end.

Fixpoint drop_while (p : ascii -> bool) (s : str) : str :=
  match s with
  | c :: t => if p c then drop_while p t else s
  | [] => []
  end.

Definition lstrip_by (p : ascii -> bool) (s : str) : str := drop_while p s.
Definition rstrip_by (p : ascii -> bool) (s : str) : str :=
  rev (drop_while p (rev s)).
Definition strip_by (p : ascii -> bool) (s : str) : str :=
  rstrip_by p (lstrip_by p s).

(** [s.strip()] *)
Definition strip (s : str) : str := strip_by isspace s.

(** [s.strip(ch)] for a one-character argument *)
Definition strip_chr (ch : ascii) (s : str) : str := strip_by (chr_eqb ch) s.

(** [s.replace(ch, "")] for a one-character [ch] *)
Definition remove_chr (ch : ascii) (s : str) : str :=
  List.filter (fun c => negb (chr_eqb c ch)) s.

(** [s.count(ch)] for a one-character [ch] *)
Definition count (ch : ascii) (s : str) : nat :=
  length (List.filter (chr_eqb ch) s).

(** [s.startswith(prefix)] *)
Fixpoint startswith (prefix s : str) : bool :=
  match prefix, s with
  | [], _ => true
  | p :: ps, c :: t => chr_eqb p c && startswith ps t
  | _ :: _, [] => false
  end.

(** [s.split(sep)] for a one-character separator: always at least
    one piece. *)
Fixpoint split (sep : ascii) (s : str) : list str :=
  match s with
  | [] => [[]]
  | c :: t =>
      if chr_eqb c sep then [] :: split sep t
      else match split sep t with
           | w :: ws => (c :: w) :: ws
           | [] => [[c]]
           end
  end.

(** [s.split(sep, 1)]: cut at the first separator, if there is one. *)
Fixpoint split1 (sep : ascii) (s : str) : list str :=
  match s with
  | [] => [[]]
  | c :: t =>
      if chr_eqb c sep then [[]; t]
      else match split1 sep t with
           | w :: ws => (c :: w) :: ws
           | [] => [[c]]
           end
  end.

(** [s.splitlines()]: a CR LF pair is one boundary, and a final
    boundary opens no empty last line. *)
Fixpoint splitlines (s : str) : list str :=
  match s with
  | [] => []
  | c :: t =>
      if islinebreak c then
        match t with
        | c2 :: t2 =>
            if chr_eqb c CR && chr_eqb c2 LF then [] :: splitlines t2
            else [] :: splitlines t
        | [] => [[]]
        end
      else match splitlines t with
           | l :: ls => (c :: l) :: ls
           | [] => [[c]]
           end
  end.

(** [sep.join(parts)] *)
Fixpoint join (sep : str) (parts : list str) : str :=
  match parts with
  | [] => []
  | [x] => x
  | x :: rest => x ++ sep ++ join sep rest
  end.

(** Truthiness of a string: non-empty. *)
Definition truthy (s : str) : bool :=
  match s with [] => false | _ :: _ => true end.

(** [l[-n:]] *)
Definition last_n {A} (n : nat) (l : list A) : list A :=
  drop (length l - n) l.

End Py.

Import Py.

(** ** The regular expressions of Python's [re], as the program uses them

    A backtracking matcher in the list-of-successes style: [run r st]
    lists the states the pattern can end in from [st], in the order in
    which the backtracking engine of CPython tries them (greedy
    repetitions longest first, alternatives left to right), so the head
    of the list is the match [re] reports. *)

Module Re.

Inductive re : Type :=
| Eps                       (* the empty pattern *)
| Chr (p : ascii -> bool)   (* one character of a class *)
| Seq (a b : re)
| Alt (a b : re)            (* a|b *)
| Star (a : re)             (* a*, greedy *)
| Look (a : re)             (* (?=a) *)
| Bos                       (* ^ without MULTILINE *)
| Bol                       (* ^ with MULTILINE *)
| Eos                       (* $ without MULTILINE *)
| Grp (a : re).             (* group 1 *)

Declare Scope re_scope.
Delimit Scope re_scope with re.
Bind Scope re_scope with re.
Notation "a ;; b" := (Seq a b) (at level 100, b at level 200) : re_scope.
Local Open Scope re_scope.

(** a+ and a{2,} *)
Definition Plus (a : re) : re := a ;; Star a.
Definition AtLeast2 (a : re) : re := a ;; a ;; Star a.

(** A literal, character by character. *)
Fixpoint Lit (s : str) : re :=
  match s with
  | [] => Eps
  | c :: t => Chr (chr_eqb c) ;; Lit t
  end.

(** A literal under IGNORECASE: the subject character is lower-cased
    and compared with the lower-cased pattern character. *)
Fixpoint LitI (s : str) : re :=
  match s with
  | [] => Eps
  | c :: t => Chr (fun x => chr_eqb (lower x) (lower c)) ;; LitI t
  end.

(** [\s], [\d] and [.] *)
Definition ws : re := Chr isspace.
Definition digit : re := Chr isdigit.
Definition dot_any : re := Chr (fun c => negb (chr_eqb c LF)).

(** The matcher's state: the character before the position ([None]
    at the start of the subject), the text from the position on, and
    what group 1 holds. *)
Record mstate : Type :=
  MState { prev : option ascii; rest : str; cap : option str }.

Definition advance (c : ascii) (t : str) (st : mstate) : mstate :=
  {| prev := Some c; rest := t; cap := cap st |}.

Definition capture (st st' : mstate) : mstate :=
  {| prev := prev st'; rest := rest st';
     cap := Some (take (length (rest st) - length (rest st')) (rest st)) |}.

(** One more round of a greedy repetition, then the rounds before
    it; a round that consumes nothing is not repeated. *)
Fixpoint star_loop (step : mstate -> list mstate) (fuel : nat)
    (st : mstate) : list mstate :=
  match fuel with
  | 0 => [st]
  | S f =>
      flat_map (fun st' =>
                  if length (rest st') <? length (rest st)
                  then star_loop step f st' else [])
               (step st)
      ++ [st]
  end.

Fixpoint run (r : re) (st : mstate) : list mstate :=
  match r with
  | Eps => [st]
  | Chr p =>
      match rest st with
      | c :: t => if p c then [advance c t st] else []
      | [] => []
      end
  | Seq a b => flat_map (run b) (run a st)
  | Alt a b => run a st ++ run b st
  | Star a => star_loop (run a) (length (rest st)) st
  | Look a => match run a st with [] => [] | _ :: _ => [st] end
  | Bos => match prev st with None => [st] | Some _ => [] end
  | Bol =>
      match prev st with
      | None => [st]
      | Some c => if chr_eqb c LF then [st] else []
      end
  | Eos =>
      match rest st with
      | [] => [st]
      | [c] => if chr_eqb c LF then [st] else []
      | _ => []
      end
  | Grp a => map (capture st) (run a st)
  end.

Definition consumed (s : str) (st : mstate) : nat :=
  length s - length (rest st).

(** A match that starts exactly here: its length and group 1.  With
    [must_advance] an empty match is refused and the engine
    backtracks into the next alternative. *)
Definition match_here (r : re) (must_advance : bool)
    (pv : option ascii) (s : str) : option (nat * option str) :=
  match List.filter (fun st => negb must_advance || (0 <? consumed s st))
                    (run r {| prev := pv; rest := s; cap := None |}) with
  | st :: _ => Some (consumed s st, cap st)
  | [] => None
  end.

(** [re.match]: a match at the start of the subject. *)
Definition re_match (r : re) (s : str) : option (nat * option str) :=
  match_here r false None s.

(** The leftmost match at or after the position: its start, its end
    and group 1.  [must_advance] only binds the first position. *)
Fixpoint search (r : re) (must_advance : bool) (pv : option ascii)
    (s : str) : option (nat * nat * option str) :=
  match match_here r must_advance pv s with
  | Some (n, g) => Some (0, n, g)
  | None =>
      match s with
      | [] => None
      | c :: t =>
          match search r false (Some c) t with
          | Some (b, e, g) => Some (S b, S e, g)
          | None => None
          end
      end
  end.

(** One match of a scan: the text skipped before it, the text
    matched, and group 1. *)
Record rmatch : Type :=
  RMatch { m_gap : str; m_text : str; m_group : option str }.

Definition prev_after (pv : option ascii) (s : str) (e : nat)
    : option ascii :=
  match last (take e s) with Some c => Some c | None => pv end.

(** The loop shared by [re.sub], [re.split] and [re.finditer]: search
    from where the last match ended; after an empty match the next
    one must advance. *)
Fixpoint scan (fuel : nat) (r : re) (must_advance : bool)
    (pv : option ascii) (s : str) : list rmatch * str :=
  match fuel with
  | 0 => ([], s)
  | S f =>
      match search r must_advance pv s with
      | None => ([], s)
      | Some (b, e, g) =>
          let '(ms, tl) :=
            scan f r (e =? b) (prev_after pv s e) (drop e s) in
          ({| m_gap := take b s;
              m_text := take (e - b) (drop b s);
              m_group := g |} :: ms, tl)
      end
  end.

(** At most one empty and one non-empty match start at a position,
    so twice the length and two is fuel enough. *)
Definition scan_all (r : re) (s : str) : list rmatch * str :=
  scan (2 * length s + 2) r false None s.

(** [re.sub(r, repl, s)] for a replacement without group
    references. *)
Definition sub (r : re) (repl : str) (s : str) : str :=
  let '(ms, tl) := scan_all r s in
  concat (map (fun m => m_gap m ++ repl) ms) ++ tl.

(** [re.split(r, s)] for a pattern without groups. *)
Definition split (r : re) (s : str) : list str :=
  let '(ms, tl) := scan_all r s in
  map m_gap ms ++ [tl].

(** A match object: [m.start()], [m.end()], [m.group(1)]. *)
Record span : Type :=
  Span { m_start : nat; m_end : nat; group1 : option str }.

Fixpoint spans (off : nat) (ms : list rmatch) : list span :=
  match ms with
  | [] => []
  | m :: ms' =>
      let b := off + length (m_gap m) in
      let e := b + length (m_text m) in
      {| m_start := b; m_end := e; group1 := m_group m |} :: spans e ms'
  end.

(** [list(r.finditer(s))] *)
Definition finditer (r : re) (s : str) : list span :=
  spans 0 (fst (scan_all r s)).

End Re.

(** ** section_mapper.py *)

Module SectionMapper.

(** The mapper object after [__init__]: the mapping read from the
    JSON file. *)
Record SectionMapper : Type := { map : gmap str (list str) }.

(** [self.map.get(udd_section, [])] *)
Definition keywords_for (self : SectionMapper) (udd_section : str)
    : list str :=
  default [] (map self !! udd_section).

End SectionMapper.

(** ** section_extractor.py *)

Module SectionExtractor.
Import Re SectionMapper.
Local Open Scope re_scope.

Definition colon_or_dash (c : ascii) : bool :=
  chr_eqb c ":" || chr_eqb c "-".

(** The dotted number: \d+ (?: \. \d+ )* *)
Definition dotted_number : re :=
  Plus digit ;; Star (Chr (chr_eqb ".") ;; Plus digit).

(** ^ \s* SECTION \s* [:\-] \s* ( \d+ (?: \. \d+ )* ) with the flags
    IGNORECASE and MULTILINE *)
Definition SECTION_HEADER_REGEX : re :=
  Bol ;; Star ws ;; LitI (py "SECTION") ;; Star ws ;; Chr colon_or_dash
  ;; Star ws ;; Grp dotted_number.

(** \s* (?= SECTION \s* [:\-] \s* \d+ (?: \. \d+ )* ) without flags:
    the pattern of the first [re.sub] *)
Definition FORCE_NEWLINE_REGEX : re :=
  Star ws ;; Look (Lit (py "SECTION") ;; Star ws ;; Chr colon_or_dash
                   ;; Star ws ;; dotted_number).

(** \n{2,}: the pattern of the second [re.sub] *)
Definition EMPTY_LINES_REGEX : re := AtLeast2 (Chr (chr_eqb LF)).

(** [text[a:b]] for indices inside the text *)
Definition slice (text : str) (a b : nat) : str := take (b - a) (drop a text).

(** The text the header regex is run on. *)
Definition normalize (fsd_text : str) : str :=
  let fsd_text := remove_chr CR fsd_text in
  let fsd_text := sub FORCE_NEWLINE_REGEX (py "\n") fsd_text in
  sub EMPTY_LINES_REGEX (py "\n") fsd_text.

(** The [for idx, m in enumerate(matches)] loop; [ms] is
    [matches[idx:]], so the head of its tail is [matches[idx + 1]]. *)
Fixpoint section_loop (fsd_text : str) (ms : list span)
    (sections : gmap str str) : gmap str str :=
  match ms with
  | [] => sections
  | m :: rest =>
      let number := strip (default [] (group1 m)) in
      let start := m_end m in
      let end_ :=
        match rest with
        | nxt :: _ => m_start nxt
        | [] => length fsd_text
        end in
      let content := strip (slice fsd_text start end_) in
      section_loop fsd_text rest (<[number := content]> sections)
  end.

Definition parse_fsd_sections (fsd_text : str) : gmap str str :=
  let fsd_text := normalize fsd_text in
  let matches := finditer SECTION_HEADER_REGEX fsd_text in
  section_loop fsd_text matches ∅.

(** The [for key in mapped_keys] loop, building [combined]. *)
Fixpoint collect (fs_sections : gmap str str) (mapped_keys : list str)
    : list str :=
  match mapped_keys with
  | [] => []
  | key :: rest =>
      let key := strip key in
      match fs_sections !! key with
      | Some body => body :: collect fs_sections rest
      | None => collect fs_sections rest
      end
  end.

Definition extract_relevant_fsd_slice (fsd_text udd_section : str)
    (mapper : SectionMapper) : str :=
  let fs_sections := parse_fsd_sections fsd_text in
  let mapped_keys := keywords_for mapper udd_section in
  let combined := collect fs_sections mapped_keys in
  match combined with
  | _ :: _ => join (py "\n\n") combined
  | [] => fsd_text
  end.

End SectionExtractor.

(** ** rag_loader.py *)

Module RagLoader.
Import Re.
Local Open Scope re_scope.

Inductive exn : Type :=
| ValueError (msg : str)
| FileNotFoundError (msg : str)
| OtherError (msg : str).

Record RagSection : Type :=
  { name : str;
    type : str;
    description : str;
    prompt : str;
    fields : option (list str) }.

(** ^ [a-zA-Z_]+ : \s* *)
Definition KEY_LINE_REGEX : re :=
  Bos ;; Plus (Chr isalpha_us) ;; Chr (chr_eqb ":") ;; Star ws.

(** ^ \[ ( .* ) \] $ *)
Definition BRACKET_LIST_REGEX : re :=
  Bos ;; Chr (chr_eqb "[") ;; Grp (Star dot_any) ;; Chr (chr_eqb "]") ;; Eos.

(** \n (?= # ) *)
Definition BLOCK_SPLIT_REGEX : re :=
  Chr (chr_eqb LF) ;; Look (Chr (chr_eqb "#")).

(** The variables the closure [flush_key] shares with the loop. *)
Record kv_state : Type :=
  { keyvals : gmap str str;
    current_key : option str;
    current_val_lines : list str }.

Definition flush_key (st : kv_state) : kv_state :=
  match current_key st with
  | Some k =>
      let value := strip (join (py " ") (current_val_lines st)) in
      {| keyvals := <[k := value]> (keyvals st);
         current_key := None;
         current_val_lines := [] |}
  | None => st
  end.

(** The [for ln in lines[1:]] loop.  [k, v = ln.split(":", 1)]
    raises when the split has no second piece. *)
Fixpoint keyval_loop (lines : list str) (st : kv_state)
    : exn + kv_state :=
  match lines with
  | [] => inr st
  | ln :: rest =>
      match re_match KEY_LINE_REGEX ln with
      | Some _ =>
          let st := flush_key st in
          match split1 ":" ln with
          | [k; v] =>
              keyval_loop rest
                {| keyvals := keyvals st;
                   current_key := Some (strip k);
                   current_val_lines := [strip v] |}
          | _ => inl (ValueError (py "not enough values to unpack"))
          end
      | None =>
          keyval_loop rest
            {| keyvals := keyvals st;
               current_key := current_key st;
               current_val_lines := current_val_lines st ++ [strip ln] |}
      end
  end.

(** The value of the "fields" key as a list. *)
Definition parse_fields (raw : str) : list str :=
  match re_match BRACKET_LIST_REGEX raw with
  | Some (_, g) =>
      let parts := List.map strip (Py.split "," (default [] g)) in
      List.filter truthy parts
  | None =>
      List.map strip (List.filter (fun f => truthy (strip f)) (Py.split "," raw))
  end.

(** The stripped non-blank lines of a block. *)
Definition block_lines (block : str) : list str :=
  List.map strip
    (List.filter (fun l => truthy (strip l)) (splitlines (strip block))).

Definition _parse_rag_block (block : str) : exn + RagSection :=
  let lines := block_lines block in
  match lines with
  | [] => inl (ValueError (py "RAG section must start with '#Section Name'"))
  | first :: others =>
      if negb (startswith (py "#") first)
      then inl (ValueError (py "RAG section must start with '#Section Name'"))
      else
        let name := strip (drop 1 first) in
        match keyval_loop others
                {| keyvals := ∅; current_key := None;
                   current_val_lines := [] |} with
        | inl e => inl e
        | inr st =>
            let keyvals := keyvals (flush_key st) in
            let type_ := default (py "text") (keyvals !! py "type") in
            let description := default [] (keyvals !! py "description") in
            let prompt := default [] (keyvals !! py "prompt") in
            let fields := parse_fields <$> (keyvals !! py "fields") in
            inr {| name := name; type := type_;
                   description := description; prompt := prompt;
                   fields := fields |}
        end
  end.

(** The [for idx, block in enumerate(blocks)] loop with its
    [try ... except Exception]. *)
Fixpoint load_blocks (blocks : list str) : list RagSection :=
  match blocks with
  | [] => []
  | block :: rest =>
      if truthy (strip block) then
        match _parse_rag_block block with
        | inr section => section :: load_blocks rest
        | inl _ => load_blocks rest
        end
      else load_blocks rest
  end.

(** The file system is a partial map from paths to contents;
    [DEFAULT_RAG_PATH] comes from the environment ([config.py]). *)
Definition load_rag_sections (fs : str -> option str)
    (DEFAULT_RAG_PATH : str) (rag_path : option str)
    : exn + list RagSection :=
  let path :=
    match rag_path with
    | Some p => if truthy p then p else DEFAULT_RAG_PATH
    | None => DEFAULT_RAG_PATH
    end in
  match fs path with
  | None => inl (FileNotFoundError (py "RAG file not found at: " ++ path))
  | Some text =>
      let blocks := Re.split BLOCK_SPLIT_REGEX (strip text) in
      inr (load_blocks blocks)
  end.

End RagLoader.

(** ** llm_orchestrator.py *)

Module LlmOrchestrator.
Import SectionMapper SectionExtractor RagLoader.

Definition SYSTEM_PROMPT : str :=
  py "You are a senior SAP documentation specialist.\n"
  ++ py "You generate precise, client-ready text for a Unified Design Document (UDD) based on:\n"
  ++ py "1) a Functional Specification (FSD) excerpt,\n"
  ++ py "2) a UDD section definition (RAG).\n\n"
  ++ py "Rules:\n"
  ++ py "- Produce polished, formal, professional language fit for client deliverables.\n"
  ++ py "- Follow the section's 'type' and 'fields' instructions strictly (table vs. text).\n"
  ++ py "- Do not hallucinate. If something is missing, write [To Be Filled].\n"
  ++ py "- Keep each answer self-contained to be pasted directly into the UDD.\n"
  ++ py "- Use concise, well-structured prose. Avoid filler.\n"
  ++ py "- **Do NOT repeat or rewrite the section title in the output. Only generate the body content.**".

Inductive message : Type :=
| SystemMessage (content : str)
| HumanMessage (content : str).

(** What [llm.invoke] hands back: an object with a [content]
    attribute, or anything else, of which only [str(resp)] is used. *)
Inductive response : Type :=
| WithContent (content : str)
| Opaque (as_str : str).

Section Pipeline.
(** The text generation service: a state of its own, and a call
    that returns a response or raises. *)
Context {Llm : Type}.
Variable invoke : Llm -> list message -> (exn + response) * Llm.
(** How Python prints a list of strings inside an f-string. *)
Variable list_repr : list str -> str.

Definition build_user_prompt (section : RagSection) (fs_slice : str)
    : str :=
  let fields_hint :=
    match fields section with
    | Some (f :: fs) => py "\nFields (if table): " ++ list_repr (f :: fs)
    | _ => []
    end in
  py "Target UDD Section: " ++ name section ++ py "\n"
  ++ py "Type: " ++ type section ++ py "\n"
  ++ py "Description: " ++ description section ++ fields_hint ++ py "\n\n"
  ++ py "Authoring Instructions:\n"
  ++ prompt section ++ py "\n\n"
  ++ py "Functional Spec Excerpt (FSD):\n"
  ++ py "\q\q\q" ++ fs_slice ++ py "\q\q\q\n\n"
  ++ py "Now produce only the content for the UDD section above. "
  ++ py "If type is 'table', return a clean markdown table with exactly the columns requested. "
  ++ py "If a field's value is unknown, use [To Be Filled].".

Definition ensure_order (rag_sections : list RagSection)
    : list RagSection := rag_sections.

(** The prompt of one round, from the context gathered so far. *)
Definition user_prompt_for (fsd_text : str) (mapper : SectionMapper)
    (context_snippets : list str) (sec : RagSection) : str :=
  let fs_slice := extract_relevant_fsd_slice fsd_text (name sec) mapper in
  let prior_context := join (py "\n\n") (last_n 3 context_snippets) in
  (if truthy prior_context
   then py "Context (previous sections):\n" ++ prior_context ++ py "\n\n"
   else [])
  ++ build_user_prompt sec fs_slice.

Definition response_content (resp : response) : str :=
  match resp with
  | WithContent c => strip c
  | Opaque s => s
  end.

(** The [for idx, sec in enumerate(ordered, start=1)] loop: an
    exception of [llm.invoke] is logged and raised again. *)
Fixpoint generate_loop (llm : Llm) (fsd_text : str)
    (mapper : SectionMapper) (ordered : list RagSection)
    (results : list (str * str)) (context_snippets : list str)
    : exn + list (str * str) :=
  match ordered with
  | [] => inr results
  | sec :: rest =>
      let user_prompt :=
        user_prompt_for fsd_text mapper context_snippets sec in
      let messages :=
        [SystemMessage SYSTEM_PROMPT; HumanMessage user_prompt] in
      match invoke llm messages with
      | (inl e, _) => inl e
      | (inr resp, llm') =>
          let content := response_content resp in
          generate_loop llm' fsd_text mapper rest
            (results ++ [(name sec, content)])
            (context_snippets
             ++ [py "[" ++ name sec ++ py "] " ++ take 1200 content])
      end
  end.

(** [llm] is what [make_llm()] returned. *)
Definition generate_udd_sections (llm : Llm) (fsd_text : str)
    (rag_sections : list RagSection) (mapper : SectionMapper)
    : exn + list (str * str) :=
  generate_loop llm fsd_text mapper (ensure_order rag_sections) [] [].

End Pipeline.

End LlmOrchestrator.

(** ** docx_builder.py: from a section's text to blocks *)

Module DocxBuilder.
Import Re.
Local Open Scope re_scope.

(** ^ \d+ \. \d+ ( \. | ) \s *)
Definition SUBSECTION_REGEX : re :=
  Bos ;; Plus digit ;; Chr (chr_eqb ".") ;; Plus digit
  ;; Alt (Chr (chr_eqb ".")) Eps ;; ws.

Definition is_subsection_heading (text : str) : bool :=
  match re_match SUBSECTION_REGEX (strip text) with
  | Some _ => true
  | None => false
  end.

Inductive chunk_kind : Type := text_chunk | table_chunk.
Definition chunk : Type := chunk_kind * str.

(** [l.count('|') >= 1] *)
Definition has_bar (l : str) : bool := 1 <=? count "|" l.

Definition next_has_bar (rest : list str) : bool :=
  match rest with
  | l :: _ => has_bar l
  | [] => false
  end.

(** The [while i < len(lines)] loop on [lines[i:]]; the inner loop
    gathers the lines of a table in [buf]. *)
Fixpoint chunk_loop (lines : list str) : list chunk :=
  match lines with
  | [] => []
  | l :: rest =>
      if has_bar l && next_has_bar rest then
        (fix table_loop (buf : list str) (ls : list str) {struct ls}
           : list chunk :=
           match ls with
           | l' :: ls' =>
               if has_bar l' then table_loop (buf ++ [l']) ls'
               else (table_chunk, strip (join (py "\n") buf))
                    :: chunk_loop ls
           | [] => [(table_chunk, strip (join (py "\n") buf))]
           end) [l] rest
      else
        (if truthy (strip l) then [(text_chunk, strip l)] else [])
        ++ chunk_loop rest
  end.

Definition find_all_table_like_chunks (text : str) : list chunk :=
  if negb (truthy text) || negb (truthy (strip text)) then []
  else chunk_loop (splitlines text).

Definition table_cells (l : str) : list str :=
  List.map strip (Py.split "|" (strip_chr "|" l)).

Definition parse_markdown_table (table_md : str)
    : option (list str * list (list str)) :=
  let lines :=
    List.map strip
      (List.filter (fun l => truthy (strip l)) (splitlines table_md)) in
  if length lines <? 2 then None
  else
    match lines with
    | [] => None
    | first :: _ =>
        if negb (startswith (py "|") first) then None
        else
          match List.map table_cells lines with
          | [] => None
          | header :: data_rows =>
              if forallb (fun r => length r =? length header) data_rows
              then Some (header, data_rows)
              else None
          end
    end.

(** What ends up in the document for one chunk. *)
Inductive block : Type :=
| NormalParagraph (text : str)
| BoldParagraph (text : str)
| TableBlock (colnames : list str) (rows : list (list str)).

(** The body of [for typ, value in chunks] in [build_document]. *)
Definition render_chunk (c : chunk) : block :=
  match c with
  | (text_chunk, value) =>
      if is_subsection_heading value then BoldParagraph value
      else NormalParagraph value
  | (table_chunk, value) =>
      match parse_markdown_table value with
      | Some (colnames, rows) =>
          match colnames, rows with
          | _ :: _, _ :: _ => TableBlock colnames rows
          | _, _ => NormalParagraph value
          end
      | None => NormalParagraph value
      end
  end.

(** The blocks of one section's content ([None] when the section has
    none: [sec_content or ""]). *)
Definition section_blocks (sec_content : option str) : list block :=
  List.map render_chunk
    (find_all_table_like_chunks (default [] sec_content)).

End DocxBuilder.

(** ** docx_builder.py: from the sections to the document *)

Module DocxDocument.
Import RagLoader DocxBuilder.

(** [str(n)] for a natural number: its decimal digits. *)
Definition str_of_nat (n : nat) : str :=
  list_ascii_of_string (NilEmpty.string_of_uint (Nat.to_uint n)).

(** [s.lower()] *)
Definition lower_str (s : str) : str := List.map lower s.

(** The [for sec in content_list] loop.  A content entry is a dict;
    the title is what [section.get("title")] gave, so it can be
    [None], on which [.lower()] raises an AttributeError; a matching
    entry without the key "content" raises a KeyError. *)
Fixpoint find_section_content (content_list : list (gmap str str))
    (section_title : option str) : exn + option str :=
  match content_list with
  | [] => inr None
  | sec :: rest =>
      match section_title with
      | None =>
          inl (OtherError (py "'NoneType' object has no attribute 'lower'"))
      | Some title =>
          if decide (strip (lower_str (default [] (sec !! py "section_name")))
                     = strip (lower_str title))
          then match sec !! py "content" with
               | Some content => inr (Some content)
               | None => inl (OtherError (py "'content'"))
               end
          else find_section_content rest section_title
      end
  end.

(** One row of [add_table]: [table.add_row().cells] is a tuple of as
    many empty cells as the table has columns, and [row_cells[i].text]
    is set for every value of the row, which raises an IndexError past
    the last cell. *)
Definition fill_row (ncols : nat) (row_data : list str) : exn + list str :=
  if length row_data <=? ncols
  then inr (row_data ++ replicate (ncols - length row_data) [])
  else inl (OtherError (py "tuple index out of range")).

Fixpoint fill_rows (ncols : nat) (rows : list (list str))
    : exn + list (list str) :=
  match rows with
  | [] => inr []
  | row_data :: rest =>
      match fill_row ncols row_data with
      | inl e => inl e
      | inr cells =>
          match fill_rows ncols rest with
          | inl e => inl e
          | inr more => inr (cells :: more)
          end
      end
  end.

(** The texts of the cells of the table, row by row, the header row
    first. *)
Definition add_table (colnames : list str) (rows : list (list str))
    : exn + list (list str) :=
  match fill_rows (length colnames) rows with
  | inl e => inl e
  | inr cells => inr (colnames :: cells)
  end.

(** What the builder appends to the body of the document.  A heading
    is a paragraph of [doc.add_heading] (level 0 is the title), with
    the bookmark [add_bookmark] wraps it in, if any; an index entry is
    a paragraph with the numbered title, a tab and the page reference
    field of [add_pageref_field]. *)
Inductive element : Type :=
| Heading (text : str) (level : nat) (bookmark : option (str * nat))
| TocParagraph (instr : str)
| IndexEntry (text : str) (pageref_instr : str)
| NormalPara (text : str)
| BoldPara (text : str)
| Table (cells : list (list str))
| Paragraph (text : str).

(** The field instruction of [add_toc]. *)
Definition TOC_INSTR : str := py "TOC \o \q1\q \h \z \u".

(** [f"PAGEREF {bookmark_name} \\h"] *)
Definition pageref (bookmark_name : str) : str :=
  py "PAGEREF " ++ bookmark_name ++ py " \h".

(** [f"sec_{i+1}"] and [f"{i+1}. {title}"]; a title that is [None]
    prints as the word. *)
Definition bookmark_name (i : nat) : str := py "sec_" ++ str_of_nat (i + 1).

Definition numbered (i : nat) (title : option str) : str :=
  str_of_nat (i + 1) ++ py ". " ++ default (py "None") title.

(** The first [for i, section in enumerate(sections)] loop, from
    index [i] on. *)
Fixpoint index_entries (i : nat) (sections : list (gmap str str))
    : list element :=
  match sections with
  | [] => []
  | section :: rest =>
      let title := section !! py "title" in
      IndexEntry (numbered i title) (pageref (bookmark_name i))
      :: index_entries (S i) rest
  end.

(** The body of [for typ, value in chunks], chunk by chunk. *)
Fixpoint add_blocks (blocks : list block) : exn + list element :=
  match blocks with
  | [] => inr []
  | b :: rest =>
      let first :=
        match b with
        | NormalParagraph value => inr (NormalPara value)
        | BoldParagraph value => inr (BoldPara value)
        | TableBlock colnames rows =>
            match add_table colnames rows with
            | inl e => inl e
            | inr cells => inr (Table cells)
            end
        end in
      match first with
      | inl e => inl e
      | inr el =>
          match add_blocks rest with
          | inl e => inl e
          | inr more => inr (el :: more)
          end
      end
  end.

(** The second [for i, section in enumerate(sections)] loop, from
    index [i] on.  [doc.add_heading] returns the paragraph it added,
    an object that is true, so [add_heading] adds nothing else. *)
Fixpoint section_contents (content : list (gmap str str)) (i : nat)
    (sections : list (gmap str str)) : exn + list element :=
  match sections with
  | [] => inr []
  | section :: rest =>
      let title := section !! py "title" in
      match find_section_content content title with
      | inl e => inl e
      | inr sec_content =>
          match add_blocks (section_blocks sec_content) with
          | inl e => inl e
          | inr els =>
              match section_contents content (S i) rest with
              | inl e => inl e
              | inr more =>
                  inr (Heading (numbered i title) 1
                               (Some (bookmark_name i, i + 1))
                       :: els ++ more)
              end
          end
      end
  end.

Definition GENERATED_BY : str :=
  py "\nDocument generated by PWC AI-powered ABAP UDD Spec Assistant.".

(** The body of the document, element by element; the arguments
    [flow_diagram_agent] and [diagram_dir] are not used. *)
Definition build_document (content sections : list (gmap str str))
    : exn + list element :=
  match section_contents content 0 sections with
  | inl e => inl e
  | inr body =>
      inr ([Heading (py "Uniform Design Document") 0 None;
            Heading (py "Index") 1 None;
            TocParagraph TOC_INSTR]
           ++ index_entries 0 sections
           ++ body
           ++ [Paragraph GENERATED_BY])
  end.

End DocxDocument.

(** ** main.py, and the constructor of [SectionMapper] *)

Module Main.
Import SectionMapper SectionExtractor RagLoader LlmOrchestrator.
Import DocxBuilder DocxDocument.

(** [str(e)] *)
Definition exn_str (e : exn) : str :=
  match e with
  | ValueError msg => msg
  | FileNotFoundError msg => msg
  | OtherError msg => msg
  end.

(** The loop of [_pairs_to_builder_structures]: one dict per pair in
    each list. *)
Definition _pairs_to_builder_structures (pairs : list (str * str))
    : list (gmap str str) * list (gmap str str) :=
  (List.map (fun p : str * str =>
               ({[ py "section_name" := p.1; py "content" := p.2 ]}
                : gmap str str)) pairs,
   List.map (fun p : str * str => ({[ py "title" := p.1 ]} : gmap str str))
            pairs).

(** A job of the registry [_JOBS]: a dict with the four keys
    [generate] gives it. *)
Record job : Type :=
  { status : str;
    attempts : nat;
    result_path : option str;
    error : option str }.

(** The registry, and the files under the directory of the jobs. *)
Record world : Type :=
  { jobs : gmap str job;
    disk : gmap str (list Byte.byte) }.

(** The request body, after validation. *)
Record GenerateRequest : Type :=
  { fsd_text : str;
    req_rag_path : option str;
    req_mapping_path : option str;
    document_title : option str }.

(** What an endpoint answers. *)
Inductive reply : Type :=
| NotFound (detail : str)
| FileReply (path filename : str)
| DoneReply (err : option str)
| AcceptedReply (st : str) (att : nat)
| JobIdReply (job_id : str).

(** [x or default] for an optional string *)
Definition or_default (x : option str) (default : str) : str :=
  match x with
  | Some p => if truthy p then p else default
  | None => default
  end.

Section App.
(** The text generation service, as in [LlmOrchestrator]; [llm0] is
    what [make_llm()] returns. *)
Context {Llm : Type}.
Variable invoke : Llm -> list message -> (exn + response) * Llm.
Variable list_repr : list str -> str.
Variable llm0 : Llm.
(** The files the service reads, the parser [json.load] on the text of
    a file (a mapping, or an exception), and the defaults of
    [config.py]. *)
Variable fs : str -> option str.
Variable json_load : str -> exn + gmap str (list str).
Variables DEFAULT_RAG_PATH DEFAULT_MAPPING_PATH : str.
(** [doc.save] into a buffer: the bytes of the document, or an
    exception. *)
Variable save : list element -> exn + list Byte.byte.
(** [str(Path("jobs") / job_id / "UDD.docx")], [str(Path(p))] and
    [Path(p).name], and the key of a KeyError as [str(e)] shows it. *)
Variable job_path : str -> str.
Variable path_str : str -> str.
Variable path_name : str -> str.
Variable key_repr : str -> str.
(** Whether making the directory and writing the file at a path
    raises, and if so what is left at the path: nothing new, or a
    file that was opened and not written to the end. *)
Variable write_raises : str -> option (exn * option (list Byte.byte)).

(** [SectionMapper.__init__] *)
Definition SectionMapper__init__ (path : option str) : exn + SectionMapper :=
  let path := or_default path DEFAULT_MAPPING_PATH in
  match fs path with
  | None => inl (FileNotFoundError (py "Mapping file not found at: " ++ path))
  | Some text =>
      match json_load text with
      | inl e => inl e
      | inr m => inr {| map := m |}
      end
  end.

(** The argument [title] is not used. *)
Definition _generate_docx_bytes (fsd_text rag_path mapping_path title : str)
    : exn + list Byte.byte :=
  match load_rag_sections fs DEFAULT_RAG_PATH (Some rag_path) with
  | inl e => inl e
  | inr rag_sections =>
      match SectionMapper__init__ (Some mapping_path) with
      | inl e => inl e
      | inr mapper =>
          match generate_udd_sections invoke list_repr llm0 fsd_text
                  rag_sections mapper with
          | inl e => inl e
          | inr pairs =>
              let '(content_list, section_list) :=
                _pairs_to_builder_structures pairs in
              match build_document content_list section_list with
              | inl e => inl e
              | inr doc => save doc
              end
          end
      end
  end.

(** [_JOBS[job_id][...] = ...] on the job's dict *)
Definition set_job (job_id : str) (j : job) (w : world) : world :=
  {| jobs := <[job_id := j]> (jobs w); disk := disk w |}.

(** [_run_job]: the first two assignments raise a KeyError for an
    unknown job, outside the [try]; everything after is inside it. *)
Definition _run_job (job_id : str) (req : GenerateRequest) (w : world)
    : exn + world :=
  match jobs w !! job_id with
  | None => inl (OtherError (key_repr job_id))
  | Some j =>
      let j := {| status := py "running"; attempts := 1;
                  result_path := result_path j; error := error j |} in
      let w := set_job job_id j w in
      let rag_path := or_default (req_rag_path req) DEFAULT_RAG_PATH in
      let mapping_path :=
        or_default (req_mapping_path req) DEFAULT_MAPPING_PATH in
      let failed (e : exn) (w : world) : world :=
        set_job job_id
          {| status := py "done"; attempts := attempts j;
             result_path := None; error := Some (exn_str e) |} w in
      match _generate_docx_bytes (fsd_text req) rag_path mapping_path
              (or_default (document_title req)
                          (py "Functional Specification Document")) with
      | inl e => inr (failed e w)
      | inr docx_bytes =>
          let out_path := job_path job_id in
          match write_raises out_path with
          | Some (e, left_over) =>
              let w :=
                match left_over with
                | Some part =>
                    {| jobs := jobs w;
                       disk := <[out_path := part]> (disk w) |}
                | None => w
                end in
              inr (failed e w)
          | None =>
              let w := {| jobs := jobs w;
                          disk := <[out_path := docx_bytes]> (disk w) |} in
              inr (set_job job_id
                     {| status := py "done"; attempts := attempts j;
                        result_path := Some out_path; error := None |} w)
          end
      end
  end.

(** [generate], for the job id [os.urandom(8).hex()] gave: the job is
    registered and its run is queued. *)
Definition generate (job_id : str) (w : world) : reply * world :=
  (JobIdReply job_id,
   set_job job_id
     {| status := py "pending"; attempts := 0;
        result_path := None; error := None |} w).

(** [get_job] *)
Definition get_job (job_id : str) (w : world) : reply :=
  match jobs w !! job_id with
  | None => NotFound (py "job_id not found")
  | Some j =>
      if decide (status j = py "done") then
        match result_path j with
        | Some p =>
            if truthy p && bool_decide (is_Some (disk w !! p))
            then FileReply (path_str p) (path_name p)
            else DoneReply (error j)
        | None => DoneReply (error j)
        end
      else AcceptedReply (status j) (attempts j)
  end.

End App.

End Main.

Import Re SectionMapper SectionExtractor RagLoader LlmOrchestrator DocxBuilder.
Import DocxDocument Main.

(** ** Notions the statements below are phrased with *)

(** The (identifier, body) pairs of the markers of a text, in document
    order: what the loop of [parse_fsd_sections] stores, one pair per
    round. *)
Fixpoint section_entries (fsd_text : str) (ms : list span)
    : list (str * str) :=
  match ms with
  | [] => []
  | m :: rest =>
      (strip (default [] (group1 m)),
       strip (slice fsd_text (m_end m)
                (match rest with
                 | nxt :: _ => m_start nxt
                 | [] => length fsd_text
                 end)))
      :: section_entries fsd_text rest
  end.

Definition fsd_entries (fsd_text : str) : list (str * str) :=
  section_entries (normalize fsd_text)
    (finditer SECTION_HEADER_REGEX (normalize fsd_text)).

(** The body of the last pair that carries the identifier. *)
Definition last_body (id : str) (entries : list (str * str)) : option str :=
  snd <$> last (filter (fun e => e.1 = id) entries).

(** The successful rounds of the generation loop over a list of
    templates: from the service state, the results and the context
    before the first of them to those after the last. *)
Inductive rounds {Llm : Type}
    (invoke : Llm -> list message -> (exn + response) * Llm)
    (list_repr : list str -> str) (fsd_text : str) (mapper : SectionMapper)
    : Llm -> list (str * str) -> list str -> list RagSection ->
      Llm -> list (str * str) -> list str -> Prop :=
| rounds_done llm results context :
    rounds invoke list_repr fsd_text mapper llm results context []
      llm results context
| rounds_next llm results context sec rest resp llm1 llm' results' context' :
    invoke llm
      [SystemMessage SYSTEM_PROMPT;
       HumanMessage (user_prompt_for list_repr fsd_text mapper context sec)]
    = (inr resp, llm1) ->
    rounds invoke list_repr fsd_text mapper llm1
      (results ++ [(name sec, response_content resp)])
      (context ++ [py "[" ++ name sec ++ py "] "
                   ++ take 1200 (response_content resp)])
      rest llm' results' context' ->
    rounds invoke list_repr fsd_text mapper llm results context (sec :: rest)
      llm' results' context'.

(** A service that answers its first call and raises on its second;
    its state counts the calls. *)
Definition flaky_service (calls : nat) (_ : list message)
    : (exn + response) * nat :=
  if calls =? 1 then (inl (OtherError (py "service down")), S calls)
  else (inr (WithContent (py " Generated. ")), S calls).

Definition template (section_name : string) : RagSection :=
  {| name := py section_name; type := py "text"; description := [];
     prompt := py "..."; fields := None |}.

(** The inner loop of [chunk_loop], by name. *)
Definition table_loop : list str -> list str -> list chunk :=
  fix table_loop (buf : list str) (ls : list str) {struct ls} : list chunk :=
    match ls with
    | l' :: ls' =>
        if has_bar l' then table_loop (buf ++ [l']) ls'
        else (table_chunk, strip (join (py "\n") buf)) :: chunk_loop ls
    | [] => [(table_chunk, strip (join (py "\n") buf))]
    end.

(** The lines before a position end without a delimiter: there are
    none, or the last of them has no bar. *)
Definition ends_without_bar (pre : list str) : bool :=
  match last pre with
  | Some l => negb (has_bar l)
  | None => true
  end.

(** The lines of a table chunk as [parse_markdown_table] sees them. *)
Definition table_lines (table_md : str) : list str :=
  List.map strip
    (List.filter (fun l => truthy (strip l)) (splitlines table_md)).

(** Every data row has as many cells as the header. *)
Definition same_width (header : str) (data : list str) : bool :=
  forallb (fun r => length (table_cells r) =? length (table_cells header))
          data.

(** The states a greedy repetition of one character class ends in,
    longest run first, and the state after the longest run. *)
Fixpoint star_states (p : ascii -> bool) (pv : option ascii) (s : str)
    (cp : option str) : list mstate :=
  match s with
  | c :: t =>
      if p c then star_states p (Some c) t cp ++ [MState pv s cp]
      else [MState pv s cp]
  | [] => [MState pv s cp]
  end.

Fixpoint skip_state (p : ascii -> bool) (pv : option ascii) (s : str)
    (cp : option str) : mstate :=
  match s with
  | c :: t => if p c then skip_state p (Some c) t cp else MState pv s cp
  | [] => MState pv s cp
  end.

(** What a block contributes to the loaded templates. *)
Definition parsed_ok (block : str) : option RagSection :=
  match _parse_rag_block block with
  | inr section => Some section
  | inl _ => None
  end.

(** The text between the brackets of a bracket-delimited value, and
    any other value as it is. *)
Definition unbracket (raw : str) : str :=
  match raw with
  | "[" :: t =>
      match last t with
      | Some "]" => take (length t - 1) t
      | _ => raw
      end
  | _ => raw
  end.

(** The entries of a comma list: trimmed, the empty ones dropped. *)
Definition comma_entries (s : str) : list str :=
  List.filter truthy (List.map strip (Py.split "," s)).

(** The key/value pairs [_parse_rag_block] gathers from the lines
    after the first. *)
Definition block_keyvals (block : str) : gmap str str :=
  match keyval_loop (tail (block_lines block))
          {| keyvals := ∅; current_key := None; current_val_lines := [] |} with
  | inr st => keyvals (flush_key st)
  | inl _ => ∅
  end.

(** The end of the bracket pattern: the closing bracket and the end
    of the value. *)
Definition bracket_tail : re := (Chr (chr_eqb "]") ;; Eos)%re.

(** A line as [str.splitlines] yields it holds no line boundary; a
    value without a line feed. *)
Definition no_break (l : str) : Prop :=
  Forall (fun c => islinebreak c = false) l.

Definition lf_free (s : str) : Prop := ~ In LF s.

Definition kv_lf_free (st : kv_state) : Prop :=
  (forall k v, keyvals st !! k = Some v -> lf_free v)
  /\ Forall lf_free (current_val_lines st).

(** ** Markers, as the two marker patterns read them *)

(** A literal whose characters are compared by [f]; [Lit] and [LitI]
    are instances. *)
Fixpoint LitBy (f : ascii -> ascii -> bool) (s : str) : re :=
  match s with
  | [] => Eps
  | c :: t => Seq (Chr (f c)) (LitBy f t)
  end.

Definition same_chr (c x : ascii) : bool := chr_eqb c x.
Definition same_chr_ci (c x : ascii) : bool := chr_eqb (lower x) (lower c).

(** The state after a literal, when the text starts with it. *)
Fixpoint lit_state (f : ascii -> ascii -> bool) (pat : str)
    (pv : option ascii) (s : str) (cp : option str) : option mstate :=
  match pat, s with
  | [], _ => Some (MState pv s cp)
  | p :: ps, c :: t => if f p c then lit_state f ps (Some c) t cp else None
  | _ :: _, [] => None
  end.

(** The text after a literal, when the text starts with it. *)
Fixpoint after_prefix (f : ascii -> ascii -> bool) (pat s : str)
    : option str :=
  match pat, s with
  | [], _ => Some s
  | p :: ps, c :: t => if f p c then after_prefix f ps t else None
  | _ :: _, [] => None
  end.

Definition starts_with_digit (s : str) : bool :=
  match s with d :: _ => isdigit d | [] => false end.

(** A marker starts exactly here: SECTION, blanks, a colon or a dash,
    blanks, a digit. *)
Definition marker_by (f : ascii -> ascii -> bool) (s : str) : bool :=
  match after_prefix f (py "SECTION") s with
  | Some s1 =>
      match drop_while isspace s1 with
      | c :: s2 => colon_or_dash c && starts_with_digit (drop_while isspace s2)
      | [] => false
      end
  | None => false
  end.

(** A marker, in any letter case, starts somewhere in the text. *)
Fixpoint has_marker (s : str) : bool :=
  match s with
  | [] => false
  | _ :: t => marker_by same_chr_ci s || has_marker t
  end.

(** The part both marker patterns share after the leading blanks. *)
Definition marker_core (lit tail : re) : re :=
  (lit ;; Star ws ;; Chr colon_or_dash ;; Star ws ;; tail)%re.

(** A dotted numeric identifier: digit runs separated by single dots.
    The flag says whether a digit has just been read. *)
Fixpoint dotted_ok (in_run : bool) (s : str) : bool :=
  match s with
  | [] => in_run
  | c :: t =>
      if isdigit c then dotted_ok true t
      else in_run && chr_eqb c "." && dotted_ok false t
  end.

Definition is_section_identifier (id : str) : bool := dotted_ok false id.

(** Two line feeds in a row somewhere in the text. *)
Fixpoint has_blank_line (s : str) : bool :=
  match s with
  | c :: t =>
      (chr_eqb c LF && match t with c' :: _ => chr_eqb c' LF | [] => false end)
      || has_blank_line t
  | [] => false
  end.

(** What the second substitution does: a line feed that follows a line
    feed is dropped. *)
Fixpoint squeeze (after_lf : bool) (s : str) : str :=
  match s with
  | [] => []
  | c :: t =>
      if chr_eqb c LF then
        if after_lf then squeeze true t else LF :: squeeze true t
      else c :: squeeze false t
  end.

(** The pattern matches at no position of the text. *)
Fixpoint never_matches (r : re) (pv : option ascii) (s : str) : Prop :=
  match_here r false pv s = None
  /\ match s with
     | c :: t => never_matches r (Some c) t
     | [] => True
     end.

(** One more dotted component: a dot and a digit run. *)
Definition dot_group : re := (Chr (chr_eqb ".") ;; Plus digit)%re.

(** No marker, in any letter case, starts at any position of the text. *)
Definition marker_free (s : str) : Prop :=
  forall a s', s = a ++ s' -> marker_by same_chr_ci s' = false.

(** The ends of a dotted number from inside a digit run: the rest of
    the run, then dotted components. *)
Definition dotted_ends (pv : option ascii) (s : str) (cp : option str)
    : list mstate :=
  flat_map (run (Star dot_group)) (star_states isdigit pv s cp).

(** The text after an identifier ends it: no digit and no dot. *)
Definition ends_number (r : str) : Prop :=
  starts_with_digit r = false /\ forall t, r <> "." :: t.

(** ** Notions for the properties beyond the claims *)

(** A service that always answers, with the same padded text. *)
Definition steady_service (calls : nat) (_ : list message)
    : (exn + response) * nat :=
  (inr (WithContent (py " Generated. ")), S calls).


(** A chunk as [find_all_table_like_chunks] builds it from the lines
    of a text: a text chunk is one trimmed non-blank line, a table
    chunk the trimmed join of two or more lines that hold a bar. *)
Definition chunk_from (lines : list str) (c : chunk) : Prop :=
  match c with
  | (text_chunk, v) => exists l, l ∈ lines /\ strip l <> [] /\ v = strip l
  | (table_chunk, v) =>
      exists run, 2 <= length run
                  /\ Forall (fun l => has_bar l = true /\ l ∈ lines) run
                  /\ v = strip (join (py "\n") run)
  end.

(** A cell of a parsed table: trimmed, and without a bar. *)
Definition cell_ok (c : str) : Prop := strip c = c /\ ~ In "|" c.

(** A non-empty word of letters and underscores. *)
Definition is_word (k : str) : bool := truthy k && forallb isalpha_us k.

(** A line that opens a key: a word, then a colon. *)
Definition key_shape (ln : str) : bool :=
  truthy (take_while isalpha_us ln)
  && match drop_while isalpha_us ln with
     | ":" :: _ => true
     | _ => false
     end.

(** What the key/value loop keeps true of its state: stored keys are
    words and stored values are trimmed. *)
Definition kv_clean (st : kv_state) : Prop :=
  (forall k v, keyvals st !! k = Some v -> is_word k = true /\ strip v = v)
  /\ (forall k, current_key st = Some k -> is_word k = true).

(** A template written out in the format of the template file: the
    name line, then one key line per attribute. *)
Definition template_lines (s : RagSection) : list str :=
  [ "#" :: name s;
    py "type: " ++ type s;
    py "description: " ++ description s;
    py "prompt: " ++ prompt s ]
  ++ match fields s with
     | Some fs => [py "fields: [" ++ join (py ", ") fs ++ py "]"]
     | None => []
     end.

Definition template_text (s : RagSection) : str :=
  join (py "\n") (template_lines s).

(** An attribute that fits on one line of the file as it is. *)
Definition plain_attr (v : str) : Prop := strip v = v /\ no_break v.

Definition plain_field (f : str) : Prop :=
  f <> [] /\ plain_attr f /\ ~ In "," f.

Definition plain_template (s : RagSection) : Prop :=
  plain_attr (name s) /\ plain_attr (type s) /\ plain_attr (description s)
  /\ plain_attr (prompt s)
  /\ match fields s with
     | Some fs => Forall plain_field fs
     | None => True
     end.

(** The key lines of a written template, as pairs of key and value. *)
Definition template_kvs (s : RagSection) : list (str * str) :=
  [ (py "type", type s);
    (py "description", description s);
    (py "prompt", prompt s) ]
  ++ match fields s with
     | Some fs => [(py "fields", py "[" ++ join (py ", ") fs ++ py "]")]
     | None => []
     end.

(** A line feed followed by '#' somewhere in the text. *)
Fixpoint has_hash_line (s : str) : bool :=
  match s with
  | c :: t =>
      (chr_eqb LF c && match t with c2 :: _ => chr_eqb "#" c2 | [] => false end)
      || has_hash_line t
  | [] => false
  end.

(** The start of a subsection heading: a digit run, a dot, a digit
    run, then a blank, or a dot and a blank. *)
Definition heading_shape (s : str) : bool :=
  starts_with_digit s
  && match drop_while isdigit s with
     | "." :: s2 =>
         starts_with_digit s2
         && match drop_while isdigit s2 with
            | c :: r =>
                isspace c
                || (chr_eqb "." c
                    && match r with c2 :: _ => isspace c2 | [] => false end)
            | [] => false
            end
     | _ => false
     end.

(** ** Notions for the document and the jobs *)

(** Titles the builder takes for the same: equal once lower-cased and
    trimmed. *)
Definition title_key (t : str) : str := strip (lower_str t).

(** The text of the first pair whose title is taken for the given
    one. *)
Definition first_text (pairs : list (str * str)) (title : str)
    : option str :=
  snd <$> List.find (fun p : str * str =>
                       bool_decide (title_key p.1 = title_key title)) pairs.



(** The index entries and the bookmarked headings of a document, each
    with its text. *)
Definition index_list (doc : list element) : list (str * str) :=
  omap (fun e => match e with
                 | IndexEntry t r => Some (t, r)
                 | _ => None
                 end) doc.

Definition bookmarked_headings (doc : list element) : list (str * str) :=
  omap (fun e => match e with
                 | Heading t _ (Some (b, _)) => Some (t, b)
                 | _ => None
                 end) doc.

(** A small installation: a template file with one template, an empty
    mapping, a service that always answers, and a registry with one
    submitted job. *)
Definition demo_files (p : str) : option str :=
  if decide (p = py "rag.txt")
  then Some (py "#Scope\nprompt: Describe the scope.")
  else if decide (p = py "map.json") then Some (py "{}") else None.

Definition demo_job_path (job_id : str) : str :=
  py "jobs/" ++ job_id ++ py "/UDD.docx".

Definition demo_world : world :=
  {| jobs := {[ py "00ff" := {| status := py "pending"; attempts := 0;
                                result_path := None; error := None |} ]};
     disk := ∅ |}.

Definition demo_request : GenerateRequest :=
  {| fsd_text := py "SECTION: 1\nScope text.";
     req_rag_path := Some (py "rag.txt");
     req_mapping_path := Some (py "map.json");
     document_title := None |}.

(** ** Notions for a text of several sections *)

(** A marker in its plain spelling with the identifier, followed by
    the raw text up to the next marker; a text made of such pieces. *)
Definition piece (s : str * str) : str := py "SECTION: " ++ s.1 ++ s.2.

Definition fsd_of (secs : list (str * str)) : str := flat_map piece secs.

(** The raw text after an identifier may start neither with a digit
    nor with a dot, which would lengthen the identifier. *)
Definition raw_start_ok (raw : str) : bool :=
  match raw with
  | [] => true
  | c :: _ => negb (isdigit c) && negb (chr_eqb "." c)
  end.

(** What the first substitution makes of a text of pieces, read from
    the start of a marker: a line feed before the marker unless the
    scan has to advance, the piece without its trailing blanks, a
    line feed for the blanks, and so on; the last piece stays whole. *)
Fixpoint forced (must : bool) (secs : list (str * str)) : str :=
  match secs with
  | [] => []
  | s :: rest =>
      (if must then [] else [LF])
      ++ match rest with
         | [] => piece s
         | _ :: _ =>
             rstrip_by isspace (piece s)
             ++ LF :: forced (length (rstrip_by isspace (piece s))
                              =? length (piece s)) rest
         end
  end.

(** A section as the text of pieces needs it: a dotted identifier and
    a raw text without a marker that starts well. *)
Definition section_ok (s : str * str) : bool :=
  is_section_identifier s.1 && negb (has_marker s.2) && raw_start_ok s.2.

(** The normalized text of pieces: a line feed before every marker,
    repeated line feeds squeezed, and the blanks before a marker
    gone. *)
Fixpoint squeezed (secs : list (str * str)) : str :=
  match secs with
  | [] => []
  | s :: rest =>
      LF :: py "SECTION: " ++ s.1
      ++ squeeze false (match rest with
                        | [] => s.2
                        | _ :: _ => rstrip_by isspace s.2
                        end)
      ++ squeezed rest
  end.

(** A text that does not end in a blank. *)
Definition ends_solid (e : str) : Prop :=
  match last e with Some c => isspace c = false | None => True end.

(** What the sectionizer keeps of a raw text: carriage returns
    removed, repeated line feeds squeezed to one, blanks trimmed at
    both ends. *)
Definition tidy (raw : str) : str :=
  strip (squeeze false (remove_chr CR raw)).

(** A piece the statement below covers. *)
Definition piece_ok (s : str * str) : bool :=
  section_ok (s.1, remove_chr CR s.2).

(** * Slice resolution *)

Lemma collect_omap (fs : gmap str str) (keys : list str) :
  collect fs keys = omap (fun k => fs !! strip k) keys.
Proof.
  induction keys as [|k keys IH]; simpl; [done|].
  destruct (fs !! strip k); by rewrite IH.
Qed.

Lemma collect_none (fs : gmap str str) (keys : list str) :
  Forall (fun k => fs !! strip k = None) keys -> collect fs keys = [].
Proof.
  induction 1 as [|k keys Hk _ IH]; simpl; [done|]. by rewrite Hk.
Qed.

Lemma join_nil_iff (sep : str) (parts : list str) :
  sep <> [] -> parts <> [] -> (join sep parts = [] <-> parts = [[]]).
Proof.
  intros Hsep Hparts. destruct parts as [|x [|y rest]]; [done| |].
  - simpl. split; [by intros ->|by intros [= ->]].
  - split; [|done]. intros H.
    destruct x; [|discriminate H].
    destruct sep; [done|discriminate H].
Qed.

(** C1. When no mapped identifier is found in the sectionized FSD --
    the map has no entry for the UDD section, or none of the listed
    identifiers (trimmed, as the lookup trims them) is an identifier of
    the sectionized FSD -- [extract_relevant_fsd_slice] returns the
    original text unchanged. *)
Theorem extract_fallback_is_whole_fsd
    (fsd_text udd_section : str) (mapper : SectionMapper) :
  map mapper !! udd_section = None
  \/ Forall (fun key => parse_fsd_sections fsd_text !! strip key = None)
            (keywords_for mapper udd_section) ->
  extract_relevant_fsd_slice fsd_text udd_section mapper = fsd_text.
Proof.
  intros H. unfold extract_relevant_fsd_slice.
  assert (Hc : collect (parse_fsd_sections fsd_text)
                 (keywords_for mapper udd_section) = []).
  { destruct H as [H|H].
    - unfold keywords_for. by rewrite H.
    - by apply collect_none. }
  by rewrite Hc.
Qed.

Lemma extract_fallback_is_whole_fsd_witness :
  Forall (fun key => parse_fsd_sections (py "SECTION: 1\nScope") !! strip key = None)
         (keywords_for {| map := {[ py "X" := [py "9"] ]} |} (py "X"))
  /\ extract_relevant_fsd_slice (py "SECTION: 1\nScope") (py "X")
       {| map := {[ py "X" := [py "9"] ]} |} = py "SECTION: 1\nScope".
Proof.
  assert (H : Forall (fun key => parse_fsd_sections (py "SECTION: 1\nScope")
                                   !! strip key = None)
                (keywords_for {| map := {[ py "X" := [py "9"] ]} |} (py "X"))).
  { vm_compute. repeat constructor. }
  split; [exact H|].
  apply (extract_fallback_is_whole_fsd (py "SECTION: 1\nScope") (py "X")
           {| map := {[ py "X" := [py "9"] ]} |}).
  right. exact H.
Defined.

(** C2, the claim as worded fails: a marker with nothing after it is
    sectionized with an empty body, and a map that lists just that
    identifier makes the slice empty although the FSD is not. *)
Lemma extract_empty_for_empty_body :
  py "SECTION: 1" <> []
  /\ parse_fsd_sections (py "SECTION: 1") !! py "1" = Some []
  /\ extract_relevant_fsd_slice (py "SECTION: 1") (py "X")
       {| map := {[ py "X" := [py "1"] ]} |} = [].
Proof. split; [done|]. split; vm_compute; reflexivity. Qed.

(** C2, amended.  For a non-empty FSD the slice is empty exactly when
    the bodies gathered for the listed identifiers are one single empty
    body; in every other case (no identifier found, a non-empty body,
    or two or more bodies) the slice is non-empty. *)
Theorem extract_empty_iff_single_empty_body
    (fsd_text udd_section : str) (mapper : SectionMapper) :
  fsd_text <> [] ->
  (extract_relevant_fsd_slice fsd_text udd_section mapper = []
   <-> collect (parse_fsd_sections fsd_text)
         (keywords_for mapper udd_section) = [[]]).
Proof.
  intros Hne. unfold extract_relevant_fsd_slice.
  destruct (collect _ _) as [|b bs] eqn:Hc.
  - split; [by intros ->|done].
  - apply join_nil_iff; done.
Qed.

Lemma extract_empty_iff_single_empty_body_witness :
  py "SECTION: 1\nScope" <> []
  /\ (extract_relevant_fsd_slice (py "SECTION: 1\nScope") (py "X")
        {| map := {[ py "X" := [py "1"] ]} |} = []
      <-> collect (parse_fsd_sections (py "SECTION: 1\nScope"))
            (keywords_for {| map := {[ py "X" := [py "1"] ]} |} (py "X"))
          = [[]]).
Proof.
  split; [discriminate|].
  apply (extract_empty_iff_single_empty_body (py "SECTION: 1\nScope")
           (py "X") {| map := {[ py "X" := [py "1"] ]} |}).
  discriminate.
Defined.

(** C8. When at least one listed identifier is present, the slice is
    the bodies of the present identifiers, in list order, joined by a
    blank line; absent identifiers are skipped.  Identifiers are
    trimmed before the lookup.  The spec's example follows for any FSD
    that sectionizes to the two bodies. *)
Theorem extract_joins_present_bodies :
  (forall (fsd_text udd_section : str) (mapper : SectionMapper)
          (keys : list str),
      map mapper !! udd_section = Some keys ->
      Exists (fun k => is_Some (parse_fsd_sections fsd_text !! strip k)) keys ->
      extract_relevant_fsd_slice fsd_text udd_section mapper
      = join (py "\n\n")
          (omap (fun k => parse_fsd_sections fsd_text !! strip k) keys))
  /\ (forall fsd_text : str,
         parse_fsd_sections fsd_text
         = {[ py "1" := py "Alpha"; py "2" := py "Beta" ]} ->
         extract_relevant_fsd_slice fsd_text (py "X")
           {| map := {[ py "X" := [py "1"; py "2"] ]} |}
         = py "Alpha\n\nBeta").
Proof.
  split.
  - intros fsd_text udd_section mapper keys Hmap Hex.
    unfold extract_relevant_fsd_slice, keywords_for. rewrite Hmap. simpl.
    rewrite collect_omap.
    destruct (omap _ keys) as [|b bs] eqn:Ho; [|done].
    exfalso. apply Exists_exists in Hex as (k & Hk & [b Hb]).
    assert (Hin : b ∈ omap (fun k => parse_fsd_sections fsd_text !! strip k) keys).
    { apply list_elem_of_omap. eauto. }
    rewrite Ho in Hin. by apply not_elem_of_nil in Hin.
  - intros fsd_text Hp. unfold extract_relevant_fsd_slice. rewrite Hp.
    vm_compute. reflexivity.
Qed.

Lemma extract_joins_present_bodies_witness :
  (map {| map := {[ py "X" := [py "1"; py " 7"; py "2 "] ]} |} !! py "X"
   = Some [py "1"; py " 7"; py "2 "]
   /\ extract_relevant_fsd_slice (py "SECTION: 1\nAlpha\nSECTION: 2\nBeta")
        (py "X") {| map := {[ py "X" := [py "1"; py " 7"; py "2 "] ]} |}
      = py "Alpha\n\nBeta")
  /\ parse_fsd_sections (py "SECTION: 1\nAlpha\nSECTION: 2\nBeta")
     = {[ py "1" := py "Alpha"; py "2" := py "Beta" ]}
  /\ extract_relevant_fsd_slice (py "SECTION: 1\nAlpha\nSECTION: 2\nBeta")
       (py "X") {| map := {[ py "X" := [py "1"; py "2"] ]} |}
     = py "Alpha\n\nBeta".
Proof.
  assert (H : parse_fsd_sections (py "SECTION: 1\nAlpha\nSECTION: 2\nBeta")
              = {[ py "1" := py "Alpha"; py "2" := py "Beta" ]}).
  { vm_compute. reflexivity. }
  assert (Hm : map {| map := {[ py "X" := [py "1"; py " 7"; py "2 "] ]} |}
               !! py "X" = Some [py "1"; py " 7"; py "2 "]).
  { vm_compute. reflexivity. }
  split; [split; [exact Hm|]|split; [exact H|]].
  - rewrite (proj1 extract_joins_present_bodies
               (py "SECTION: 1\nAlpha\nSECTION: 2\nBeta") (py "X")
               {| map := {[ py "X" := [py "1"; py " 7"; py "2 "] ]} |}
               [py "1"; py " 7"; py "2 "] Hm).
    + vm_compute. reflexivity.
    + apply Exists_cons_hd. vm_compute. eauto.
  - exact (proj2 extract_joins_present_bodies _ H).
Defined.

(** * The sectionizer *)

Lemma section_loop_entries (fsd_text : str) (ms : list span)
    (sections : gmap str str) :
  section_loop fsd_text ms sections
  = foldl (fun d e => <[e.1 := e.2]> d) sections
      (section_entries fsd_text ms).
Proof.
  revert sections. induction ms as [|m ms IH]; intros sections; [done|].
  simpl. by rewrite IH.
Qed.

Lemma foldl_insert_lookup (entries : list (str * str)) (d : gmap str str)
    (id : str) :
  foldl (fun d e => <[e.1 := e.2]> d) d entries !! id
  = match last_body id entries with
    | Some body => Some body
    | None => d !! id
    end.
Proof.
  induction entries as [|e entries IH] using rev_ind; [done|].
  rewrite foldl_app. simpl. unfold last_body in *.
  rewrite filter_app, filter_cons, filter_nil.
  destruct (decide (e.1 = id)) as [<-|Hne].
  - rewrite last_snoc. simpl. by rewrite lookup_insert_eq.
  - rewrite app_nil_r, lookup_insert_ne by done. exact IH.
Qed.

(** C3. Whatever the text, the sectionized FSD maps an identifier to
    the body stored for the last marker that carries it, so a repeated
    identifier keeps its last body; the spec's example. *)
Theorem parse_last_occurrence_wins :
  (forall fsd_text id : str,
      parse_fsd_sections fsd_text !! id
      = last_body id (fsd_entries fsd_text))
  /\ fsd_entries (py "SECTION: 1\nA\nSECTION: 1\nB")
     = [(py "1", py "A"); (py "1", py "B")]
  /\ parse_fsd_sections (py "SECTION: 1\nA\nSECTION: 1\nB")
     = {[ py "1" := py "B" ]}.
Proof.
  split; [|split; vm_compute; reflexivity].
  intros fsd_text id. unfold parse_fsd_sections, fsd_entries.
  rewrite section_loop_entries, foldl_insert_lookup.
  rewrite lookup_empty. by destruct (last_body _ _).
Qed.


(** * The generation pipeline *)

Section Generation.
Context {Llm : Type}.
Variable invoke : Llm -> list message -> (exn + response) * Llm.
Variable list_repr : list str -> str.
Variables (fsd_text : str) (mapper : SectionMapper).

Lemma generate_loop_after_rounds llm results context pre llm1 results1
    context1 post :
  rounds invoke list_repr fsd_text mapper llm results context pre
    llm1 results1 context1 ->
  generate_loop invoke list_repr llm fsd_text mapper (pre ++ post)
    results context
  = generate_loop invoke list_repr llm1 fsd_text mapper post
      results1 context1.
Proof.
  induction 1 as [|llm results context sec rest resp llm1 llm' results'
                   context' Hcall _ IH]; [done|].
  simpl. rewrite Hcall. exact IH.
Qed.

Lemma generate_loop_names llm ordered results context out :
  generate_loop invoke list_repr llm fsd_text mapper ordered results context
  = inr out ->
  out.*1 = results.*1 ++ List.map name ordered.
Proof.
  revert llm results context.
  induction ordered as [|sec rest IH]; intros llm results context; simpl.
  - intros [= <-]. by rewrite app_nil_r.
  - destruct (invoke llm _) as [[e|resp] llm1]; [done|].
    intros H. apply IH in H. rewrite H, fmap_app. simpl.
    by rewrite <- app_assoc.
Qed.

(** X1. A returned sequence has one entry for every template, in order:
    the pipeline never returns a shorter one. *)
Lemma generate_ok_is_complete llm rag_sections out :
  generate_udd_sections invoke list_repr llm fsd_text rag_sections mapper
  = inr out ->
  out.*1 = List.map name rag_sections.
Proof. intros H. by apply generate_loop_names in H. Qed.

(** C6. If the rounds before a template succeed and the call made for
    that template raises, [generate_udd_sections] ends with that very
    exception: nothing is returned for the templates already done, and
    the templates after it are not reached. *)
Theorem generate_aborts_on_first_failure llm pre sec post llm1 results1
    context1 e llm2 :
  rounds invoke list_repr fsd_text mapper llm [] [] pre
    llm1 results1 context1 ->
  invoke llm1
    [SystemMessage SYSTEM_PROMPT;
     HumanMessage (user_prompt_for list_repr fsd_text mapper context1 sec)]
  = (inl e, llm2) ->
  generate_udd_sections invoke list_repr llm fsd_text (pre ++ sec :: post)
    mapper
  = inl e.
Proof.
  intros Hpre Hcall. unfold generate_udd_sections, ensure_order.
  rewrite (generate_loop_after_rounds _ _ _ _ _ _ _ _ Hpre).
  simpl. by rewrite Hcall.
Qed.

End Generation.

Lemma generate_aborts_on_first_failure_witness :
  generate_udd_sections flaky_service (fun _ => []) 0
    (py "SECTION: 1\nScope text.")
    ([template "Scope"] ++ template "Design" :: [template "Tests"])
    {| map := {[ py "Scope" := [py "1"] ]} |}
  = inl (OtherError (py "service down")).
Proof.
  apply (generate_aborts_on_first_failure flaky_service (fun _ => [])
           (py "SECTION: 1\nScope text.")
           {| map := {[ py "Scope" := [py "1"] ]} |}
           0 [template "Scope"] (template "Design") [template "Tests"]
           1 [(py "Scope", py "Generated.")] [py "[Scope] Generated."]
           (OtherError (py "service down")) 2).
  - eapply rounds_next; [reflexivity|]. apply rounds_done.
  - reflexivity.
Defined.

(** * The document assembler: table detection *)

Lemma chunk_loop_table (l : str) (rest : list str) :
  has_bar l = true -> next_has_bar rest = true ->
  chunk_loop (l :: rest) = table_loop [l] rest.
Proof. intros Hl Hr. simpl. by rewrite Hl, Hr. Qed.

Lemma chunk_loop_text (l : str) (rest : list str) :
  has_bar l && next_has_bar rest = false ->
  chunk_loop (l :: rest)
  = (if truthy (strip l) then [(text_chunk, strip l)] else [])
    ++ chunk_loop rest.
Proof. intros H. simpl. by rewrite H. Qed.

Lemma table_loop_cons (buf : list str) (l : str) (ls : list str) :
  table_loop buf (l :: ls)
  = if has_bar l then table_loop (buf ++ [l]) ls
    else (table_chunk, strip (join (py "\n") buf)) :: chunk_loop (l :: ls).
Proof. reflexivity. Qed.

Lemma table_loop_run (buf run post : list str) :
  Forall (fun l => has_bar l = true) run -> next_has_bar post = false ->
  table_loop buf (run ++ post)
  = (table_chunk, strip (join (py "\n") (buf ++ run))) :: chunk_loop post.
Proof.
  intros Hrun Hpost. revert buf.
  induction Hrun as [|l run Hl _ IH]; intros buf.
  - rewrite app_nil_r. destruct post as [|l' post]; [done|].
    simpl in Hpost. simpl app. by rewrite table_loop_cons, Hpost.
  - rewrite <- app_comm_cons, table_loop_cons, Hl, IH.
    by rewrite <- app_assoc.
Qed.

Lemma bar_run_split (ls : list str) :
  exists run post,
    ls = run ++ post /\ Forall (fun l => has_bar l = true) run
    /\ next_has_bar post = false.
Proof.
  induction ls as [|l ls (run & post & -> & Hrun & Hpost)].
  - exists [], []. by repeat split.
  - destruct (has_bar l) eqn:Hl.
    + exists (l :: run), post. repeat split; [|done]. by constructor.
    + exists [], (l :: run ++ post). by repeat split.
Qed.

Lemma ends_without_bar_app (a b : list str) :
  b <> [] -> ends_without_bar (a ++ b) = ends_without_bar b.
Proof.
  intros Hb. unfold ends_without_bar.
  destruct b as [|x b _] using rev_ind; [done|].
  by rewrite app_assoc, !last_snoc.
Qed.

Lemma ends_without_bar_all_bars (run : list str) :
  Forall (fun l => has_bar l = true) run -> ends_without_bar run = true ->
  run = [].
Proof.
  intros Hrun He. destruct run as [|x run _] using rev_ind; [done|].
  unfold ends_without_bar in He. rewrite last_snoc in He.
  apply Forall_app in Hrun as [_ Hx]. inversion_clear Hx as [|?? Hb _].
  by rewrite Hb in He.
Qed.

(** Scanning restarts afresh after a line without a bar. *)
Lemma chunk_loop_app (pre rest : list str) :
  ends_without_bar pre = true ->
  chunk_loop (pre ++ rest) = chunk_loop pre ++ chunk_loop rest.
Proof.
  remember (length pre) as n eqn:Hn. revert pre Hn.
  induction n as [n IH] using lt_wf_ind. intros pre -> Hend.
  destruct pre as [|l pre]; [done|].
  destruct (bar_run_split pre) as (run & post & -> & Hrun & Hpost).
  destruct (has_bar l) eqn:Hl; cycle 1.
  { rewrite <- app_comm_cons, !chunk_loop_text by (by rewrite Hl).
    rewrite <- (app_assoc _ (chunk_loop _) (chunk_loop _)). f_equal.
    destruct (decide (run ++ post = [])) as [->|Hne]; [done|].
    apply (IH (length (run ++ post)) ltac:(simpl; lia) _ eq_refl).
    change (l :: run ++ post) with ([l] ++ (run ++ post)) in Hend.
    by rewrite ends_without_bar_app in Hend. }
  assert (Hpne : post <> []).
  { intros ->. rewrite app_nil_r in Hend.
    assert (Hall : Forall (fun l => has_bar l = true) (l :: run))
      by by constructor.
    by apply ends_without_bar_all_bars in Hall. }
  assert (Hpost_end : ends_without_bar post = true).
  { change (l :: run ++ post) with ((l :: run) ++ post) in Hend.
    by rewrite ends_without_bar_app in Hend. }
  destruct run as [|r run].
  - rewrite app_nil_l. destruct post as [|p post]; [done|].
    simpl in Hpost. rewrite <- !app_comm_cons.
    rewrite (chunk_loop_text l (p :: post ++ rest)),
      (chunk_loop_text l (p :: post))
      by (simpl; rewrite Hpost; apply andb_false_r).
    rewrite <- (app_assoc _ (chunk_loop _) (chunk_loop _)). f_equal.
    apply (IH (length (p :: post)) ltac:(simpl; lia) _ eq_refl). done.
  - inversion Hrun as [|?? Hr _]; subst.
    assert (E : (l :: (r :: run) ++ post) ++ rest
                = l :: (r :: run) ++ (post ++ rest)).
    { by rewrite <- app_comm_cons, <- app_assoc. }
    rewrite E.
    rewrite (chunk_loop_table l ((r :: run) ++ post ++ rest)),
      (chunk_loop_table l ((r :: run) ++ post)) by done.
    rewrite (table_loop_run [l] (r :: run) (post ++ rest)); [|done|].
    + rewrite (table_loop_run [l] (r :: run) post) by done.
      rewrite <- (app_comm_cons (chunk_loop post) (chunk_loop rest)). f_equal.
      apply (IH (length post) ltac:(simpl; rewrite length_app; lia) _ eq_refl).
      done.
    + destruct post; [done|]. done.
Qed.

(** ** Trimming and line splitting *)

Section DropWhile.
Variable p : ascii -> bool.

Lemma drop_while_nil_iff (s : str) :
  drop_while p s = [] <-> Forall (fun c => p c = true) s.
Proof.
  induction s as [|c s IH]; simpl; [by split|].
  destruct (p c) eqn:Hc.
  - rewrite IH. split; [by constructor|by inversion 1].
  - split; [done|]. inversion 1; congruence.
Qed.

Lemma drop_while_head (s : str) (c : ascii) (t : str) :
  drop_while p s = c :: t -> p c = false.
Proof.
  induction s as [|x s IH]; simpl; [done|].
  destruct (p x) eqn:Hx; [done|]. by intros [= <- _].
Qed.

Lemma drop_while_idem (s : str) :
  drop_while p (drop_while p s) = drop_while p s.
Proof.
  destruct (drop_while p s) as [|c t] eqn:E; [done|].
  apply drop_while_head in E. simpl. by rewrite E.
Qed.

Lemma drop_while_all (a b : str) :
  Forall (fun c => p c = true) a -> drop_while p (a ++ b) = drop_while p b.
Proof. induction 1 as [|c a Hc _ IH]; simpl; [done|]. by rewrite Hc. Qed.

Lemma drop_while_app_keep (a b : str) :
  drop_while p a <> [] -> drop_while p (a ++ b) = drop_while p a ++ b.
Proof.
  induction a as [|c a IH]; simpl; [done|].
  destruct (p c); [exact IH|done].
Qed.

Lemma drop_while_snoc (a : str) (c : ascii) :
  p c = false -> drop_while p (a ++ [c]) = drop_while p a ++ [c].
Proof.
  intros Hc. induction a as [|x a IH]; simpl; [by rewrite Hc|].
  by destruct (p x).
Qed.

Lemma take_drop_while (s : str) : take_while p s ++ drop_while p s = s.
Proof.
  induction s as [|c s IH]; simpl; [done|].
  destruct (p c); simpl; [by rewrite IH|done].
Qed.

Lemma take_while_all (s : str) : Forall (fun c => p c = true) (take_while p s).
Proof.
  induction s as [|c s IH]; simpl; [constructor|].
  destruct (p c) eqn:Hc; by constructor.
Qed.

Lemma rstrip_by_nil_iff (s : str) :
  rstrip_by p s = [] <-> Forall (fun c => p c = true) s.
Proof.
  unfold rstrip_by. split.
  - intros H. apply (f_equal (@rev ascii)) in H.
    rewrite rev_involutive in H. simpl in H.
    apply drop_while_nil_iff in H. apply Forall_rev in H.
    by rewrite rev_involutive in H.
  - intros H. apply Forall_rev in H. apply drop_while_nil_iff in H.
    by rewrite H.
Qed.

Lemma rstrip_by_app_keep (a b : str) :
  rstrip_by p b <> [] -> rstrip_by p (a ++ b) = a ++ rstrip_by p b.
Proof.
  unfold rstrip_by. intros H. rewrite rev_app_distr.
  rewrite drop_while_app_keep, rev_app_distr, rev_involutive; [done|].
  intros E. by rewrite E in H.
Qed.

Lemma rstrip_by_cons_keep (c : ascii) (t : str) :
  p c = false -> rstrip_by p (c :: t) = c :: rstrip_by p t.
Proof.
  intros Hc. unfold rstrip_by. simpl.
  by rewrite drop_while_snoc, rev_app_distr.
Qed.

Lemma rstrip_by_idem (s : str) :
  rstrip_by p (rstrip_by p s) = rstrip_by p s.
Proof.
  unfold rstrip_by. by rewrite rev_involutive, drop_while_idem.
Qed.

Lemma lstrip_rstrip_comm (s : str) :
  lstrip_by p (rstrip_by p s) = rstrip_by p (lstrip_by p s).
Proof.
  unfold lstrip_by.
  destruct (drop_while p s) as [|c t] eqn:E.
  - apply drop_while_nil_iff in E.
    by rewrite (proj2 (rstrip_by_nil_iff s) E).
  - pose proof (drop_while_head _ _ _ E) as Hc.
    rewrite <- (take_drop_while s) at 1. rewrite E.
    assert (Hk : rstrip_by p (c :: t) <> []).
    { by rewrite rstrip_by_cons_keep. }
    rewrite rstrip_by_app_keep by done.
    rewrite drop_while_all by apply take_while_all.
    rewrite rstrip_by_cons_keep by done. simpl. by rewrite Hc.
Qed.

Lemma strip_by_nil_iff (s : str) :
  strip_by p s = [] <-> Forall (fun c => p c = true) s.
Proof.
  unfold strip_by, lstrip_by. rewrite rstrip_by_nil_iff. split.
  - intros H. destruct (drop_while p s) as [|c t] eqn:E.
    + by apply drop_while_nil_iff.
    + apply drop_while_head in E. inversion H; congruence.
  - intros H. by rewrite (proj2 (drop_while_nil_iff s) H).
Qed.

Lemma strip_by_idem (s : str) : strip_by p (strip_by p s) = strip_by p s.
Proof.
  unfold strip_by. rewrite lstrip_rstrip_comm.
  unfold lstrip_by. by rewrite drop_while_idem, rstrip_by_idem.
Qed.

Lemma strip_by_lstrip (s : str) : strip_by p (lstrip_by p s) = strip_by p s.
Proof. unfold strip_by, lstrip_by. by rewrite drop_while_idem. Qed.

Lemma strip_by_rstrip (s : str) : strip_by p (rstrip_by p s) = strip_by p s.
Proof.
  unfold strip_by. by rewrite lstrip_rstrip_comm, rstrip_by_idem.
Qed.

Lemma drop_while_suffix (s : str) : exists a, s = a ++ drop_while p s.
Proof. exists (take_while p s). by rewrite take_drop_while. Qed.

Lemma rstrip_by_prefix (s : str) : exists b, s = rstrip_by p s ++ b.
Proof.
  unfold rstrip_by. destruct (drop_while_suffix (rev s)) as [a Ha].
  exists (rev a). rewrite <- rev_app_distr, <- Ha. by rewrite rev_involutive.
Qed.

End DropWhile.

Lemma splitlines_cons_break (c : ascii) (t : str) :
  islinebreak c = true ->
  exists t', splitlines (c :: t) = [] :: splitlines t'
             /\ length t' <= length t /\ (forall x, x ∈ t' -> x ∈ t).
Proof.
  intros Hc. simpl. rewrite Hc. destruct t as [|c2 t2].
  - exists []. by repeat split.
  - destruct (chr_eqb c CR && chr_eqb c2 LF).
    + exists t2. repeat split; [simpl; lia|]. intros x Hx. by right.
    + exists (c2 :: t2). by repeat split.
Qed.

Lemma splitlines_cons_keep (c : ascii) (t : str) :
  islinebreak c = false ->
  splitlines (c :: t)
  = match splitlines t with l :: ls => (c :: l) :: ls | [] => [[c]] end.
Proof. intros Hc. simpl. by rewrite Hc. Qed.

Lemma splitlines_lines (s : str) :
  Forall (fun l => no_break l /\ forall x, x ∈ l -> x ∈ s) (splitlines s).
Proof.
  remember (length s) as n eqn:Hn. revert s Hn.
  induction n as [n IH] using lt_wf_ind. intros s ->.
  destruct s as [|c t]; [constructor|].
  destruct (islinebreak c) eqn:Hc.
  - destruct (splitlines_cons_break c t Hc) as (t' & -> & Hlen & Hsub).
    constructor; [split; [constructor|by inversion 1]|].
    eapply Forall_impl; [apply (IH (length t') ltac:(simpl; lia) t' eq_refl)|].
    intros l [Hl Hin]. split; [done|]. intros x Hx. right. eauto.
  - rewrite splitlines_cons_keep by done.
    pose proof (IH (length t) ltac:(simpl; lia) t eq_refl) as Ht.
    destruct (splitlines t) as [|l ls].
    + constructor; [|constructor]. split; [by repeat constructor|].
      intros x Hx. apply list_elem_of_singleton in Hx as ->. by left.
    + apply Forall_cons in Ht as [[Hl Hin] Hls]. constructor.
      * split; [by constructor|]. intros x Hx.
        apply elem_of_cons in Hx as [->|Hx]; [by left|right; eauto].
      * eapply Forall_impl; [exact Hls|]. intros l' [Hl' Hin'].
        split; [done|]. intros x Hx. right. eauto.
Qed.

Lemma splitlines_app_lf (x t : str) :
  no_break x -> splitlines (x ++ LF :: t) = x :: splitlines t.
Proof.
  induction 1 as [|c x' Hc _ IH].
  - simpl. by destruct t.
  - rewrite <- app_comm_cons, splitlines_cons_keep by done. by rewrite IH.
Qed.

Lemma splitlines_one (x : str) :
  no_break x -> x <> [] -> splitlines x = [x].
Proof.
  induction 1 as [|c x' Hc Hx IH]; [done|]. intros _.
  rewrite splitlines_cons_keep by done.
  destruct x' as [|c' x'']; [done|]. by rewrite IH.
Qed.

Lemma join_cons2 (sep x y : str) (rest : list str) :
  join sep (x :: y :: rest) = x ++ sep ++ join sep (y :: rest).
Proof. reflexivity. Qed.

Lemma join_snoc_ne (sep : str) (init : list str) (x : str) :
  x <> [] -> join sep (init ++ [x]) <> [].
Proof.
  intros Hx. induction init as [|a init IH]; [done|].
  destruct init as [|b init].
  - simpl. intros H. destruct a; [|done]. destruct sep; done.
  - rewrite <- !app_comm_cons, join_cons2. intros H.
    destruct a; [|done]. destruct sep; [|done]. simpl in H.
    by rewrite <- app_comm_cons in IH.
Qed.

Lemma splitlines_join (init : list str) (x : str) :
  Forall no_break (init ++ [x]) -> x <> [] ->
  splitlines (join [LF] (init ++ [x])) = init ++ [x].
Proof.
  intros Hall Hx. induction init as [|a init IH].
  - simpl. apply splitlines_one; [by inversion Hall|done].
  - inversion_clear Hall as [|?? Ha Hrest].
    destruct init as [|b init].
    + simpl. rewrite splitlines_app_lf by done.
      f_equal. apply splitlines_one; [by inversion Hrest|done].
    + rewrite <- !app_comm_cons, join_cons2. simpl app.
      rewrite splitlines_app_lf by done. f_equal.
      rewrite app_comm_cons. by apply IH.
Qed.

Lemma lstrip_join (x : str) (rest : list str) :
  strip x <> [] ->
  lstrip_by isspace (join [LF] (x :: rest))
  = join [LF] (lstrip_by isspace x :: rest).
Proof.
  intros Hx. destruct rest as [|y rest]; [done|].
  rewrite !join_cons2. unfold lstrip_by.
  rewrite drop_while_app_keep; [done|].
  intros E. apply Hx. unfold strip, strip_by, lstrip_by. by rewrite E.
Qed.

Lemma rstrip_ne (x : str) : strip x <> [] -> rstrip_by isspace x <> [].
Proof.
  intros Hx E. apply Hx. apply strip_by_nil_iff.
  by apply rstrip_by_nil_iff.
Qed.

Lemma rstrip_join (init : list str) (x : str) :
  strip x <> [] ->
  rstrip_by isspace (join [LF] (init ++ [x]))
  = join [LF] (init ++ [rstrip_by isspace x]).
Proof.
  intros Hx. induction init as [|a init IH]; [done|].
  assert (Hj : join [LF] (init ++ [rstrip_by isspace x]) <> []).
  { apply join_snoc_ne. by apply rstrip_ne. }
  assert (E : forall y, join [LF] (a :: init ++ [y])
                        = a ++ [LF] ++ join [LF] (init ++ [y])).
  { intros y. by destruct init. }
  rewrite <- !app_comm_cons, !E.
  assert (Hk : rstrip_by isspace ([LF] ++ join [LF] (init ++ [x])) <> []).
  { rewrite rstrip_by_app_keep by (by rewrite IH). done. }
  rewrite rstrip_by_app_keep by done.
  rewrite rstrip_by_app_keep by (by rewrite IH).
  by rewrite IH.
Qed.

Lemma strip_idem (s : str) : strip (strip s) = strip s.
Proof. apply strip_by_idem. Qed.

Lemma has_bar_not_blank (l : str) : has_bar l = true -> strip l <> [].
Proof.
  intros Hb Hs. apply strip_by_nil_iff in Hs.
  unfold has_bar, count in Hb.
  induction Hs as [|c l Hc _ IH]; [done|].
  change (List.filter (chr_eqb "|") (c :: l))
    with (if chr_eqb "|" c then c :: List.filter (chr_eqb "|") l
          else List.filter (chr_eqb "|") l) in Hb.
  destruct (chr_eqb "|" c) eqn:E; [|by apply IH].
  apply Ascii.eqb_eq in E. by subst c.
Qed.

Lemma no_break_lstrip (x : str) : no_break x -> no_break (lstrip_by isspace x).
Proof.
  intros H. destruct (drop_while_suffix isspace x) as [a Ha].
  unfold no_break in H. rewrite Ha in H. by apply Forall_app in H as [_ H].
Qed.

Lemma no_break_rstrip (x : str) : no_break x -> no_break (rstrip_by isspace x).
Proof.
  intros H. destruct (rstrip_by_prefix isspace x) as [b Hb].
  unfold no_break in H. rewrite Hb in H. by apply Forall_app in H as [H _].
Qed.

Lemma filter_not_blank (ls : list str) :
  Forall (fun l => strip l <> []) ls ->
  List.filter (fun l => truthy (strip l)) ls = ls.
Proof.
  induction 1 as [|l ls Hl _ IH]; [done|]. simpl.
  destruct (strip l); [done|]. simpl. by rewrite IH.
Qed.

Lemma strip_join_run (x1 : str) (mid : list str) (xn : str) :
  strip x1 <> [] -> strip xn <> [] ->
  strip (join [LF] ((x1 :: mid) ++ [xn]))
  = join [LF] ((lstrip_by isspace x1 :: mid) ++ [rstrip_by isspace xn]).
Proof.
  intros H1 Hn. unfold strip at 1. unfold strip_by.
  rewrite <- app_comm_cons, lstrip_join by done.
  by rewrite app_comm_cons, rstrip_join.
Qed.

(** The lines [parse_markdown_table] reads back from a table chunk are
    the trimmed lines the chunk was built from. *)
Lemma table_lines_of_run (run : list str) :
  run <> [] -> Forall no_break run ->
  Forall (fun l => has_bar l = true) run ->
  table_lines (strip (join [LF] run)) = List.map strip run.
Proof.
  intros Hne Hnb Hbar.
  assert (Hnbl : Forall (fun l => strip l <> []) run).
  { eapply Forall_impl; [exact Hbar|]. apply has_bar_not_blank. }
  clear Hbar. unfold table_lines.
  destruct run as [|xn init _] using rev_ind; [done|]. clear Hne.
  apply Forall_app in Hnb as [Hnb_i Hnb_x].
  apply Forall_app in Hnbl as [Hnbl_i Hnbl_x].
  apply Forall_inv in Hnb_x. apply Forall_inv in Hnbl_x.
  assert (Hsx : strip (rstrip_by isspace xn) <> [])
    by (unfold strip; by rewrite strip_by_rstrip).
  destruct init as [|x1 mid].
  - simpl. rewrite splitlines_one.
    + rewrite filter_not_blank; [simpl; by rewrite strip_idem|].
      repeat constructor. by rewrite strip_idem.
    + unfold strip, strip_by. by apply no_break_rstrip, no_break_lstrip.
    + done.
  - apply Forall_cons in Hnb_i as [Hnb_1 Hnb_m].
    apply Forall_cons in Hnbl_i as [Hnbl_1 Hnbl_m].
    rewrite strip_join_run by done.
    rewrite splitlines_join.
    + rewrite filter_not_blank.
      * rewrite !map_app. simpl. unfold strip.
        by rewrite strip_by_lstrip, strip_by_rstrip.
      * apply Forall_app. split; [|by repeat constructor].
        constructor; [|done]. unfold strip. by rewrite strip_by_lstrip.
    + apply Forall_app. split.
      * constructor; [by apply no_break_lstrip|done].
      * repeat constructor. by apply no_break_rstrip.
    + by apply rstrip_ne.
Qed.

Lemma table_cells_ne (l : str) : table_cells l <> [].
Proof.
  unfold table_cells. generalize (strip_chr "|" l). intros s.
  destruct s as [|c s]; [done|]. simpl.
  destruct (chr_eqb c "|"); [done|]. by destruct (Py.split "|" s).
Qed.

Lemma forallb_map_cells (f : list str -> bool) (ls : list str) :
  forallb f (List.map table_cells ls) = forallb (fun l => f (table_cells l)) ls.
Proof. induction ls as [|l ls IH]; simpl; [done|]. by rewrite IH. Qed.

Lemma render_table_chunk (value : str) :
  render_chunk (table_chunk, value)
  = match table_lines value with
    | header :: r :: rs =>
        if startswith (py "|") header && same_width header (r :: rs)
        then TableBlock (table_cells header)
                        (List.map table_cells (r :: rs))
        else NormalParagraph value
    | _ => NormalParagraph value
    end.
Proof.
  unfold render_chunk, parse_markdown_table. fold (table_lines value).
  destruct (table_lines value) as [|header [|r rs]]; [done|done|].
  change (length (header :: r :: rs) <? 2) with false. cbv iota.
  destruct (startswith (py "|") header); [|done]. simpl negb. cbv iota.
  rewrite andb_true_l. unfold same_width.
  change (List.map table_cells (header :: r :: rs))
    with (table_cells header :: List.map table_cells (r :: rs)). cbv iota.
  rewrite forallb_map_cells.
  destruct (forallb _ (r :: rs)); [|done].
  pose proof (table_cells_ne header) as Hh.
  destruct (table_cells header); [done|]. done.
Qed.

Lemma has_bar_elem (l : str) : has_bar l = true -> "|" ∈ l.
Proof.
  unfold has_bar, count. induction l as [|c l IH]; [done|].
  change (List.filter (chr_eqb "|") (c :: l))
    with (if chr_eqb "|" c then c :: List.filter (chr_eqb "|") l
          else List.filter (chr_eqb "|") l).
  destruct (chr_eqb "|" c) eqn:E.
  - apply Ascii.eqb_eq in E. subst c. intros _. by left.
  - intros H. right. by apply IH.
Qed.

Lemma find_all_with_bar (text l : str) :
  l ∈ splitlines text -> has_bar l = true ->
  find_all_table_like_chunks text = chunk_loop (splitlines text).
Proof.
  intros Hl Hb. unfold find_all_table_like_chunks.
  pose proof (splitlines_lines text) as Hall.
  rewrite Forall_forall in Hall. destruct (Hall l Hl) as [_ Hsub].
  pose proof (Hsub _ (has_bar_elem l Hb)) as Hin.
  assert (Hs : strip text <> []).
  { intros E. apply strip_by_nil_iff in E. rewrite Forall_forall in E.
    by specialize (E _ Hin). }
  destruct text; [by apply not_elem_of_nil in Hin|].
  by destruct (strip _).
Qed.

(** C5, the claim as worded fails: two delimiter lines with two cells
    each form a table chunk, every row has the header's column count,
    and yet the chunk is rendered as a plain paragraph, because the
    header line does not begin with the delimiter. *)
Lemma even_rows_without_leading_bar_stay_text :
  find_all_table_like_chunks (py "a|b\nc|d") = [(table_chunk, py "a|b\nc|d")]
  /\ table_lines (py "a|b\nc|d") = [py "a|b"; py "c|d"]
  /\ List.map table_cells [py "a|b"; py "c|d"]
     = [[py "a"; py "b"]; [py "c"; py "d"]]
  /\ same_width (py "a|b") [py "c|d"] = true
  /\ section_blocks (Some (py "a|b\nc|d")) = [NormalParagraph (py "a|b\nc|d")].
Proof. repeat split; vm_compute; reflexivity. Qed.

(** C5, amended.  In the lines of a section body, a maximal run of two
    or more lines that each hold a bar becomes one table chunk, which
    [parse_markdown_table] reads back as the run's trimmed lines, the
    first being the header; a bar line with no bar line next to it
    becomes a text chunk; and a table chunk is rendered as a structured
    table -- cells got by stripping the bars at both ends and splitting
    on the bar -- exactly when its header line begins with a bar and
    every other row has as many cells as the header, and as a plain
    paragraph otherwise. *)
Theorem table_detection_and_promotion :
  (forall (text : str) (pre run post : list str),
      splitlines text = pre ++ run ++ post ->
      2 <= length run -> Forall (fun l => has_bar l = true) run ->
      ends_without_bar pre = true -> next_has_bar post = false ->
      find_all_table_like_chunks text
      = chunk_loop pre ++ [(table_chunk, strip (join (py "\n") run))]
        ++ chunk_loop post
      /\ table_lines (strip (join (py "\n") run)) = List.map strip run)
  /\ (forall (text : str) (pre : list str) (l : str) (post : list str),
         splitlines text = pre ++ l :: post ->
         has_bar l = true ->
         ends_without_bar pre = true -> next_has_bar post = false ->
         find_all_table_like_chunks text
         = chunk_loop pre ++ [(text_chunk, strip l)] ++ chunk_loop post)
  /\ (forall value : str,
         render_chunk (table_chunk, value)
         = match table_lines value with
           | header :: r :: rs =>
               if startswith (py "|") header && same_width header (r :: rs)
               then TableBlock (table_cells header)
                               (List.map table_cells (r :: rs))
               else NormalParagraph value
           | _ => NormalParagraph value
           end).
Proof.
  split; [|split; [|exact render_table_chunk]].
  - intros text pre run post Hlines Hlen Hbar Hpre Hpost.
    destruct run as [|l [|r run]]; [simpl in Hlen; lia..|].
    apply Forall_cons in Hbar as [Hl Hbar].
    pose proof Hbar as Hbar'. apply Forall_cons in Hbar' as [Hr _].
    split.
    + rewrite (find_all_with_bar text l); [|rewrite Hlines|done].
      * rewrite Hlines, chunk_loop_app by done. f_equal.
        rewrite <- app_comm_cons, chunk_loop_table by done.
        by rewrite table_loop_run.
      * apply elem_of_app. right. by left.
    + apply table_lines_of_run; [done| |by constructor].
      pose proof (splitlines_lines text) as Hall. rewrite Hlines in Hall.
      apply Forall_app in Hall as [_ Hall].
      apply Forall_app in Hall as [Hall _].
      eapply Forall_impl; [exact Hall|]. by intros ? [? _].
  - intros text pre l post Hlines Hl Hpre Hpost.
    rewrite (find_all_with_bar text l); [|rewrite Hlines|done].
    + rewrite Hlines, chunk_loop_app by done. f_equal.
      rewrite chunk_loop_text by (rewrite Hpost; apply andb_false_r).
      pose proof (has_bar_not_blank l Hl). by destruct (strip l).
    + apply elem_of_app. right. by left.
Qed.

Lemma table_detection_and_promotion_witness :
  find_all_table_like_chunks (py "intro\n| a | b |\n| 1 | 2 |\nsolo | line")
  = [(text_chunk, py "intro"); (table_chunk, py "| a | b |\n| 1 | 2 |\nsolo | line")]
  /\ find_all_table_like_chunks (py "intro\nsolo | line\n\noutro")
     = [(text_chunk, py "intro"); (text_chunk, py "solo | line");
        (text_chunk, py "outro")]
  /\ render_chunk (table_chunk, py "| a | b |\n| 1 | 2 |")
     = TableBlock [py "a"; py "b"] [[py "1"; py "2"]].
Proof.
  split; [|split].
  - apply (proj1 (proj1 table_detection_and_promotion
             (py "intro\n| a | b |\n| 1 | 2 |\nsolo | line")
             [py "intro"] [py "| a | b |"; py "| 1 | 2 |"; py "solo | line"] []
             eq_refl ltac:(simpl; lia)
             ltac:(repeat constructor) eq_refl eq_refl)).
  - apply (proj1 (proj2 table_detection_and_promotion)
             (py "intro\nsolo | line\n\noutro")
             [py "intro"] (py "solo | line") [[]; py "outro"]
             eq_refl eq_refl eq_refl eq_refl).
  - rewrite (proj2 (proj2 table_detection_and_promotion)). reflexivity.
Defined.

(** * The matcher *)

Lemma flat_map_nil {A B} (f : A -> list B) (l : list A) :
  (forall x, In x l -> f x = []) -> flat_map f l = [].
Proof.
  induction l as [|x l IH]; intros H; simpl; [done|].
  rewrite (H x) by (by left). apply IH. intros y Hy. apply H. by right.
Qed.

Lemma run_seq (a b : re) (st : mstate) :
  run (Seq a b) st = flat_map (run b) (run a st).
Proof. reflexivity. Qed.

Lemma run_chr (p : ascii -> bool) (pv : option ascii) (s : str)
    (cp : option str) :
  run (Chr p) (MState pv s cp)
  = match s with
    | c :: t => if p c then [MState (Some c) t cp] else []
    | [] => []
    end.
Proof. reflexivity. Qed.

(** What a pattern leaves is a suffix of what it was given. *)
Lemma star_loop_suffix (step : mstate -> list mstate) (fuel : nat) :
  (forall st st', In st' (step st) -> exists pre, rest st = pre ++ rest st') ->
  forall st st', In st' (star_loop step fuel st) ->
                 exists pre, rest st = pre ++ rest st'.
Proof.
  intros Hstep. induction fuel as [|f IH]; intros st st' Hin; simpl in Hin.
  - destruct Hin as [<-|[]]. by exists [].
  - apply in_app_or in Hin as [Hin|[<-|[]]]; [|by exists []].
    apply in_flat_map in Hin as (st1 & H1 & Hin).
    destruct (length (rest st1) <? length (rest st)); [|done].
    destruct (Hstep _ _ H1) as [pre1 E1].
    destruct (IH _ _ Hin) as [pre2 E2].
    exists (pre1 ++ pre2). by rewrite E1, E2, app_assoc.
Qed.

Lemma run_suffix (r : re) (st st' : mstate) :
  In st' (run r st) -> exists pre, rest st = pre ++ rest st'.
Proof.
  revert st st'. induction r as [|p|a IHa b IHb|a IHa b IHb|a IHa|a IHa| | | |a IHa];
    intros st st' Hin; simpl in Hin.
  - destruct Hin as [<-|[]]. by exists [].
  - destruct (rest st) as [|c t] eqn:E; [done|].
    destruct (p c); [|done]. destruct Hin as [<-|[]]. by exists [c].
  - apply in_flat_map in Hin as (st1 & H1 & Hin).
    destruct (IHa _ _ H1) as [pre1 E1]. destruct (IHb _ _ Hin) as [pre2 E2].
    exists (pre1 ++ pre2). by rewrite E1, E2, app_assoc.
  - apply in_app_or in Hin as [Hin|Hin]; eauto.
  - eapply star_loop_suffix; [|exact Hin]. exact IHa.
  - destruct (run a st); [done|]. destruct Hin as [<-|[]]. by exists [].
  - destruct (prev st); [done|]. destruct Hin as [<-|[]]. by exists [].
  - destruct (prev st) as [c|].
    + destruct (chr_eqb c LF); [|done]. destruct Hin as [<-|[]]. by exists [].
    + destruct Hin as [<-|[]]. by exists [].
  - destruct (rest st) as [|c [|c' t]] eqn:E.
    + destruct Hin as [<-|[]]. by exists [].
    + destruct (chr_eqb c LF); [|done]. destruct Hin as [<-|[]]. by exists [].
    + done.
  - apply in_map_iff in Hin as (st1 & <- & H1). simpl. eauto.
Qed.

Lemma run_star_chr (p : ascii -> bool) (pv : option ascii) (s : str)
    (cp : option str) :
  run (Star (Chr p)) (MState pv s cp) = star_states p pv s cp.
Proof.
  change (star_loop (run (Chr p)) (length s) (MState pv s cp)
          = star_states p pv s cp).
  revert pv. induction s as [|c t IH]; intros pv; [done|].
  simpl. destruct (p c); [|done]. simpl.
  assert ((length t <? S (length t)) = true) as -> by (apply Nat.ltb_lt; lia).
  rewrite app_nil_r. f_equal. apply IH.
Qed.

Lemma star_states_head (p : ascii -> bool) (pv : option ascii) (s : str)
    (cp : option str) :
  exists others, star_states p pv s cp = skip_state p pv s cp :: others.
Proof.
  revert pv. induction s as [|c t IH]; intros pv; simpl; [by exists []|].
  destruct (p c); [|by exists []].
  destruct (IH (Some c)) as [others ->]. by eexists.
Qed.

(** A greedy class repetition before a pattern that cannot start with
    a character of the class: only the longest run is of use. *)
Lemma star_then_reject (p : ascii -> bool) (x : re) (pv : option ascii)
    (s : str) (cp : option str) :
  (forall pv' c t, p c = true -> run x (MState pv' (c :: t) cp) = []) ->
  flat_map (run x) (star_states p pv s cp) = run x (skip_state p pv s cp).
Proof.
  intros Hrej. revert pv. induction s as [|c t IH]; intros pv; simpl.
  - by rewrite app_nil_r.
  - destruct (p c) eqn:Hc; simpl; [|by rewrite app_nil_r].
    rewrite flat_map_app, IH. simpl. rewrite Hrej by done.
    by rewrite !app_nil_r.
Qed.

Lemma skip_state_rest (p : ascii -> bool) (pv : option ascii) (s : str)
    (cp : option str) :
  rest (skip_state p pv s cp) = drop_while p s
  /\ cap (skip_state p pv s cp) = cp.
Proof.
  revert pv. induction s as [|c t IH]; intros pv; simpl; [done|].
  destruct (p c); [apply IH|done].
Qed.

Lemma run_bos_seq (x : re) (s : str) (cp : option str) :
  run (Seq Bos x) (MState None s cp) = run x (MState None s cp).
Proof. simpl. apply app_nil_r. Qed.

Lemma run_chr_seq (p : ascii -> bool) (x : re) (pv : option ascii)
    (s : str) (cp : option str) :
  run (Seq (Chr p) x) (MState pv s cp)
  = match s with
    | c :: t => if p c then run x (MState (Some c) t cp) else []
    | [] => []
    end.
Proof.
  rewrite run_seq, run_chr. destruct s as [|c t]; [done|].
  destruct (p c); [|done]. simpl. apply app_nil_r.
Qed.

Lemma run_grp (a : re) (st : mstate) :
  run (Grp a) st = List.map (capture st) (run a st).
Proof. reflexivity. Qed.

Lemma match_here_some (r : re) (m : bool) (pv : option ascii) (s : str)
    (x : nat * option str) :
  match_here r m pv s = Some x ->
  exists st', In st' (run r (MState pv s None)).
Proof.
  unfold match_here. intros H.
  destruct (List.filter _ _) as [|st' l] eqn:E; [done|].
  exists st'. eapply (proj1 (filter_In _ _ _)). rewrite E. by left.
Qed.

Lemma search_cons (r : re) (must : bool) (pv : option ascii) (c : ascii)
    (t : str) :
  search r must pv (c :: t)
  = match match_here r must pv (c :: t) with
    | Some (n, g) => Some (0, n, g)
    | None =>
        match search r false (Some c) t with
        | Some (b, e, g) => Some (S b, S e, g)
        | None => None
        end
    end.
Proof. reflexivity. Qed.

(** ** The scan loop has fuel enough *)

Lemma match_here_bounds (r : re) (must : bool) (pv : option ascii) (s : str)
    (n : nat) (g : option str) :
  match_here r must pv s = Some (n, g) ->
  n <= length s /\ (must = true -> 0 < n).
Proof.
  unfold match_here. intros H.
  destruct (List.filter _ _) as [|st l] eqn:E; [done|].
  injection H as <- <-. split; [unfold consumed; lia|]. intros ->.
  assert (Hin : In st (st :: l)) by (by left).
  rewrite <- E in Hin. apply filter_In in Hin as [_ Hin].
  simpl in Hin. by apply Nat.ltb_lt in Hin.
Qed.

Lemma search_bounds (r : re) (must : bool) (pv : option ascii) (s : str)
    (b e : nat) (g : option str) :
  search r must pv s = Some (b, e, g) ->
  b <= e /\ e <= length s /\ (must = true -> b = 0 -> 0 < e).
Proof.
  revert must pv b e. induction s as [|c t IH]; intros must pv b e.
  - cbn [search]. destruct (match_here r must pv []) as [[n g']|] eqn:E;
      [|done].
    intros [= <- <- <-]. apply match_here_bounds in E. simpl in *.
    split; [lia|]. split; [lia|]. intros Hm _. by apply E.
  - rewrite search_cons.
    destruct (match_here r must pv (c :: t)) as [[n g']|] eqn:E.
    + intros [= <- <- <-]. apply match_here_bounds in E.
      split; [lia|]. split; [lia|]. intros Hm _. by apply E.
    + destruct (search r false (Some c) t) as [[[b' e'] g']|] eqn:E'; [|done].
      intros [= <- <- <-]. apply IH in E' as (? & ? & _).
      simpl. split; [lia|]. split; [lia|]. intros _ [=].
Qed.

(** Any fuel above twice the text's length (and one more when an empty
    match is still allowed at the first position) gives the same scan:
    the loop of [scan_all] always ends on a failed search, never on its
    fuel. *)
Lemma scan_fuel (r : re) (f1 f2 : nat) (must : bool) (pv : option ascii)
    (s : str) :
  2 * length s + (if must then 0 else 1) < f1 ->
  2 * length s + (if must then 0 else 1) < f2 ->
  scan f1 r must pv s = scan f2 r must pv s.
Proof.
  revert f2 must pv s. induction f1 as [|f1 IH]; intros f2 must pv s H1 H2;
    [lia|].
  destruct f2 as [|f2]; [lia|]. cbn [scan].
  destruct (search r must pv s) as [[[b e] g]|] eqn:E; [|done].
  apply search_bounds in E as (Hbe & Hle & Hadv).
  rewrite (IH f2 (e =? b) (prev_after pv s e) (drop e s)); [done| |].
  - rewrite length_drop. destruct (e =? b) eqn:Eb.
    + apply Nat.eqb_eq in Eb. subst b. destruct must.
      * destruct e; [specialize (Hadv eq_refl eq_refl); lia|lia].
      * lia.
    + apply Nat.eqb_neq in Eb. destruct must; lia.
  - rewrite length_drop. destruct (e =? b) eqn:Eb.
    + apply Nat.eqb_eq in Eb. subst b. destruct must.
      * destruct e; [specialize (Hadv eq_refl eq_refl); lia|lia].
      * lia.
    + apply Nat.eqb_neq in Eb. destruct must; lia.
Qed.

Lemma scan_all_fuel (r : re) (s : str) (fuel : nat) :
  2 * length s + 2 <= fuel -> scan fuel r false None s = scan_all r s.
Proof. intros H. unfold scan_all. apply scan_fuel; lia. Qed.

(** * The template store *)

Lemma key_line_has_colon (ln : str) (x : nat * option str) :
  re_match KEY_LINE_REGEX ln = Some x -> In ":" ln.
Proof.
  intros H. apply match_here_some in H as [st' Hin].
  unfold KEY_LINE_REGEX in Hin. rewrite run_seq in Hin.
  apply in_flat_map in Hin as (st1 & H1 & Hin).
  simpl in H1. destruct H1 as [<-|[]].
  rewrite run_seq in Hin. apply in_flat_map in Hin as (st2 & H2 & Hin).
  apply run_suffix in H2 as [pre E]. simpl in E.
  rewrite run_seq in Hin. apply in_flat_map in Hin as (st3 & H3 & _).
  destruct st2 as [pv2 r2 cp2]. rewrite run_chr in H3. simpl in E.
  destruct r2 as [|c t]; [done|].
  destruct (chr_eqb ":" c) eqn:Hc; [|done].
  apply Ascii.eqb_eq in Hc. subst c. rewrite E.
  apply in_or_app. right. by left.
Qed.

Lemma split1_at_colon (s : str) :
  In ":" s -> exists k v, split1 ":" s = [k; v].
Proof.
  induction s as [|c t IH]; [done|]. intros Hin. simpl.
  destruct (chr_eqb c ":") eqn:Hc; [by eexists _, _|].
  destruct Hin as [->|Hin]; [by rewrite Ascii.eqb_refl in Hc|].
  destruct (IH Hin) as (k & v & ->). by eexists _, _.
Qed.

Lemma keyval_loop_ok (lines : list str) (st : kv_state) :
  exists st', keyval_loop lines st = inr st'.
Proof.
  revert st. induction lines as [|ln lines IH]; intros st; simpl; [eauto|].
  destruct (re_match KEY_LINE_REGEX ln) as [x|] eqn:E; [|apply IH].
  apply key_line_has_colon, split1_at_colon in E as (k & v & ->). apply IH.
Qed.

Lemma blank_block_fails (block : str) :
  truthy (strip block) = false -> parsed_ok block = None.
Proof.
  intros H. unfold parsed_ok, _parse_rag_block, block_lines.
  by destruct (strip block).
Qed.

Lemma load_blocks_omap (blocks : list str) :
  load_blocks blocks = omap parsed_ok blocks.
Proof.
  induction blocks as [|b blocks IH]; [done|]. simpl.
  destruct (truthy (strip b)) eqn:Hb.
  - unfold parsed_ok at 1. destruct (_parse_rag_block b); by rewrite IH.
  - by rewrite (blank_block_fails b Hb), IH.
Qed.


(** ** The fields list *)

Lemma run_bracket_tail (pv : option ascii) (s : str) (cp : option str) :
  ~ In LF s ->
  run bracket_tail (MState pv s cp)
  = match s with
    | [c] => if chr_eqb "]" c then [MState (Some c) [] cp] else []
    | _ => []
    end.
Proof.
  intros Hlf. unfold bracket_tail. rewrite run_seq, run_chr.
  destruct s as [|c [|c' t]]; [done| |].
  - by destruct (chr_eqb "]" c).
  - destruct (chr_eqb "]" c); [|done]. simpl.
    destruct t; [|done]. destruct (chr_eqb c' LF) eqn:E; [|done].
    apply Ascii.eqb_eq in E. subst c'. exfalso. apply Hlf. right. by left.
Qed.

Lemma bracket_star (pv0 : option ascii) (t0 : str) (cp0 : option str)
    (pre t : str) (pv : option ascii) (cp : option str) :
  t0 = pre ++ t -> ~ In LF t ->
  flat_map (run bracket_tail)
    (List.map (capture (MState pv0 t0 cp0))
              (star_states (fun c => negb (chr_eqb c LF)) pv t cp))
  = match last t with
    | Some "]" => [MState (Some "]") [] (Some (take (length t0 - 1) t0))]
    | _ => []
    end.
Proof.
  revert pre pv. induction t as [|c t IH]; intros pre pv E Hlf.
  - reflexivity.
  - assert (Hc : chr_eqb c LF = false).
    { destruct (chr_eqb c LF) eqn:Hc; [|done]. apply Ascii.eqb_eq in Hc.
      subst c. exfalso. apply Hlf. by left. }
    assert (Hlf' : ~ In LF t) by (intros H; apply Hlf; by right).
    simpl star_states. rewrite Hc. cbn [negb].
    rewrite map_app, flat_map_app.
    rewrite (IH (pre ++ [c]) (Some c)); [|by rewrite <- app_assoc|done].
    cbn [List.map flat_map]. unfold capture at 1. cbn [prev rest].
    rewrite run_bracket_tail by done. rewrite app_nil_r.
    destruct t as [|c' t'].
    + cbn [last]. destruct (chr_eqb "]" c) eqn:Hb.
      * apply Ascii.eqb_eq in Hb. subst c. simpl. reflexivity.
      * simpl. destruct (Ascii.ascii_dec c "]") as [->|Hne];
          [by rewrite Ascii.eqb_refl in Hb|].
        clear -Hne. by repeat (destruct c as [[] [] [] [] [] [] [] []]).
    + rewrite app_nil_r. reflexivity.
Qed.

Lemma re_match_bracket (raw : str) :
  ~ In LF raw ->
  re_match BRACKET_LIST_REGEX raw
  = match raw with
    | "[" :: t =>
        match last t with
        | Some "]" => Some (length raw, Some (take (length t - 1) t))
        | _ => None
        end
    | _ => None
    end.
Proof.
  intros Hlf. unfold re_match, match_here, BRACKET_LIST_REGEX.
  rewrite run_bos_seq, run_chr_seq. destruct raw as [|c t]; [done|].
  destruct (chr_eqb "[" c) eqn:Hc.
  - apply Ascii.eqb_eq in Hc. subst c.
    rewrite run_seq. fold bracket_tail. rewrite run_grp.
    unfold dot_any. rewrite run_star_chr.
    rewrite (bracket_star _ t _ [] t); [|done|intros H; apply Hlf; by right].
    destruct (last t) as [c|]; [|done].
    destruct (Ascii.ascii_dec c "]") as [->|Hne].
    + reflexivity.
    + clear -Hne. by repeat (destruct c as [[] [] [] [] [] [] [] []]).
  - destruct (Ascii.ascii_dec c "[") as [->|Hne]; [done|].
    clear -Hne. by repeat (destruct c as [[] [] [] [] [] [] [] []]).
Qed.

Lemma map_strip_filter (l : list str) :
  List.map strip (List.filter (fun f => truthy (strip f)) l)
  = List.filter truthy (List.map strip l).
Proof.
  induction l as [|x l IH]; [done|]. simpl.
  destruct (truthy (strip x)); simpl; by rewrite IH.
Qed.

Lemma parse_fields_entries (raw : str) :
  ~ In LF raw -> parse_fields raw = comma_entries (unbracket raw).
Proof.
  intros Hlf. unfold parse_fields, comma_entries, unbracket.
  rewrite re_match_bracket by done.
  destruct raw as [|c t]; [apply map_strip_filter|].
  destruct (Ascii.ascii_dec c "[") as [->|Hne].
  - destruct (last t) as [c|]; [|apply map_strip_filter].
    destruct (Ascii.ascii_dec c "]") as [->|Hne]; [done|].
    assert (E : forall (A : Type) (x y : A),
               match c with "]" => x | _ => y end = y).
    { intros A x y. clear -Hne.
      by repeat (destruct c as [[] [] [] [] [] [] [] []]). }
    rewrite !E. apply map_strip_filter.
  - assert (E : forall (A : Type) (x y : A),
               match c with "[" => x | _ => y end = y).
    { intros A x y. clear -Hne.
      by repeat (destruct c as [[] [] [] [] [] [] [] []]). }
    rewrite !E. apply map_strip_filter.
Qed.

Lemma comma_entries_trimmed (s : str) :
  Forall (fun e => e <> [] /\ strip e = e) (comma_entries s).
Proof.
  unfold comma_entries. apply Forall_forall. intros e He.
  apply list_elem_of_In, filter_In in He as [He Ht].
  apply in_map_iff in He as (x & <- & _).
  split; [by destruct (strip x)|apply strip_idem].
Qed.

Lemma parse_fields_trimmed (raw : str) :
  Forall (fun e => e <> [] /\ strip e = e) (parse_fields raw).
Proof.
  unfold parse_fields. destruct (re_match _ raw) as [[n g]|].
  - apply comma_entries_trimmed.
  - rewrite map_strip_filter. apply comma_entries_trimmed.
Qed.

Lemma strip_infix (x : str) : exists a b, x = a ++ strip x ++ b.
Proof.
  unfold strip, strip_by, lstrip_by.
  destruct (drop_while_suffix isspace x) as [a Ha].
  destruct (rstrip_by_prefix isspace (drop_while isspace x)) as [b Hb].
  exists a, b. by rewrite <- Hb.
Qed.

Lemma lf_free_strip (x : str) : lf_free x -> lf_free (strip x).
Proof.
  intros H Hin. destruct (strip_infix x) as (a & b & E). apply H.
  rewrite E. apply in_or_app. right. apply in_or_app. by left.
Qed.

Lemma split1_parts (sep : ascii) (s k v : str) :
  split1 sep s = [k; v] -> s = k ++ sep :: v.
Proof.
  revert k. induction s as [|c t IH]; intros k; simpl; [done|].
  destruct (chr_eqb c sep) eqn:Hc.
  - apply Ascii.eqb_eq in Hc. subst c. by intros [= <- <-].
  - destruct (split1 sep t) as [|w [|w' ws]] eqn:E; [done|done|].
    intros [= <- <- ->]. by rewrite (IH w).
Qed.

Lemma lf_free_join (sep : str) (parts : list str) :
  lf_free sep -> Forall lf_free parts -> lf_free (join sep parts).
Proof.
  intros Hsep. induction 1 as [|x parts Hx Hparts IH]; [by intros []|].
  destruct parts as [|y parts]; [done|]. rewrite join_cons2. intros Hin.
  apply in_app_or in Hin as [Hin|Hin]; [done|].
  apply in_app_or in Hin as [Hin|Hin]; [done|]. by apply IH.
Qed.

Lemma block_lines_lf_free (block : str) : Forall lf_free (block_lines block).
Proof.
  unfold block_lines. apply Forall_forall. intros l Hl.
  apply list_elem_of_In, in_map_iff in Hl as (x & <- & Hx).
  apply filter_In in Hx as [Hx _]. apply lf_free_strip.
  pose proof (splitlines_lines (strip block)) as Hall.
  rewrite Forall_forall in Hall.
  destruct (Hall x) as [Hnb _]; [by apply list_elem_of_In|].
  intros Hin. unfold no_break in Hnb. rewrite Forall_forall in Hnb.
  by specialize (Hnb LF (proj2 (list_elem_of_In _ _) Hin)).
Qed.

Lemma flush_key_lf_free (st : kv_state) :
  kv_lf_free st -> kv_lf_free (flush_key st).
Proof.
  intros [Hkv Hvals]. unfold flush_key.
  destruct (current_key st) as [k|]; [|done]. split; [|constructor].
  simpl. intros k' v Hlook.
  destruct (decide (k = k')) as [<-|Hne].
  - rewrite lookup_insert_eq in Hlook. injection Hlook as <-.
    apply lf_free_strip, lf_free_join; [|done].
    intros [H|[]]. discriminate H.
  - rewrite lookup_insert_ne in Hlook by done. eauto.
Qed.

Lemma keyval_loop_lf_free (lines : list str) (st st' : kv_state) :
  Forall lf_free lines -> kv_lf_free st ->
  keyval_loop lines st = inr st' -> kv_lf_free st'.
Proof.
  intros Hlines. revert st.
  induction Hlines as [|ln lines Hln _ IH]; intros st Hst; simpl.
  - by intros [= <-].
  - destruct (re_match KEY_LINE_REGEX ln).
    + destruct (split1 ":" ln) as [|k [|v [|? ?]]] eqn:E; try done.
      apply IH. pose proof (flush_key_lf_free st Hst) as [Hkv _].
      split; [exact Hkv|]. simpl. repeat constructor.
      apply lf_free_strip. apply split1_parts in E. intros Hin. apply Hln.
      rewrite E. apply in_or_app. right. by right.
    + apply IH. destruct Hst as [Hkv Hvals]. split; [exact Hkv|]. simpl.
      apply Forall_app. split; [done|]. repeat constructor.
      by apply lf_free_strip.
Qed.

(** C9. When a block has a "fields" key, the template's field list is
    the value cut at the commas -- the value itself for a bare list,
    the text between the brackets for a bracket-delimited one -- with
    every entry trimmed and the empty ones dropped; no entry is empty
    or has blanks around it.  The spec's two examples. *)
Theorem fields_value_is_a_trimmed_list :
  (forall (block : str) (section : RagSection),
      _parse_rag_block block = inr section ->
      fields section
      = (fun raw => comma_entries (unbracket raw))
        <$> (block_keyvals block !! py "fields"))
  /\ (forall s : str,
         Forall (fun e => e <> [] /\ strip e = e) (comma_entries s))
  /\ unbracket (py "[Name, Type, Description]") = py "Name, Type, Description"
  /\ fields <$> parsed_ok (py "#T\nfields: [Name, Type, Description]")
     = Some (Some [py "Name"; py "Type"; py "Description"])
  /\ fields <$> parsed_ok (py "#T\nfields: Name, Type")
     = Some (Some [py "Name"; py "Type"]).
Proof.
  split; [|split; [exact comma_entries_trimmed|]];
    [|repeat split; vm_compute; reflexivity].
  intros block section. unfold _parse_rag_block, block_keyvals.
  pose proof (block_lines_lf_free block) as Hlines.
  destruct (block_lines block) as [|first others]; [done|].
  destruct (startswith (py "#") first); [|done]. cbn [negb tail].
  apply Forall_cons in Hlines as [_ Hlines].
  destruct (keyval_loop others _) as [e|st] eqn:E; [done|].
  intros [= <-]. cbv beta iota delta [fields].
  assert (Hinv : kv_lf_free (flush_key st)).
  { apply flush_key_lf_free. eapply keyval_loop_lf_free; [exact Hlines| |exact E].
    split; [|constructor]. intros k v Hk. simpl in Hk.
    by rewrite lookup_empty in Hk. }
  change ["f"; "i"; "e"; "l"; "d"; "s"] with (py "fields").
  destruct (keyvals (flush_key st) !! py "fields") as [raw|] eqn:Hraw; [|done].
  simpl. f_equal. apply parse_fields_entries. by apply (proj1 Hinv _ _ Hraw).
Qed.

(** * The marker patterns *)

Lemma star_loop_fuel (step : mstate -> list mstate) (f1 f2 : nat)
    (st : mstate) :
  length (rest st) <= f1 -> length (rest st) <= f2 ->
  star_loop step f1 st = star_loop step f2 st.
Proof.
  revert f2 st. induction f1 as [|f1 IH]; intros [|f2] st H1 H2; [done| | |].
  - simpl. rewrite flat_map_nil; [done|]. intros st' _.
    assert ((length (rest st') <? length (rest st)) = false) as ->; [|done].
    apply Nat.ltb_ge. lia.
  - simpl. rewrite flat_map_nil; [done|]. intros st' _.
    assert ((length (rest st') <? length (rest st)) = false) as ->; [|done].
    apply Nat.ltb_ge. lia.
  - simpl. f_equal. apply flat_map_ext. intros st'.
    destruct (length (rest st') <? length (rest st)) eqn:E; [|done].
    apply Nat.ltb_lt in E. apply IH; lia.
Qed.

Lemma run_star_unfold (a : re) (st : mstate) :
  run (Star a) st
  = flat_map (fun st' => if length (rest st') <? length (rest st)
                         then run (Star a) st' else [])
             (run a st)
    ++ [st].
Proof.
  change (run (Star a) st) with (star_loop (run a) (length (rest st)) st).
  destruct (length (rest st)) as [|n] eqn:E.
  - simpl. rewrite flat_map_nil; [done|]. intros st' _. done.
  - simpl. rewrite E. f_equal. apply flat_map_ext. intros st'.
    destruct (length (rest st') <? S n) eqn:E'; [|done].
    apply Nat.ltb_lt in E'.
    change (run (Star a) st')
      with (star_loop (run a) (length (rest st')) st').
    apply star_loop_fuel; lia.
Qed.

Lemma run_star_ne (a : re) (st : mstate) : run (Star a) st <> [].
Proof. rewrite run_star_unfold. by destruct (flat_map _ _). Qed.

Lemma run_seq_assoc (a b c : re) (st : mstate) :
  run (Seq (Seq a b) c) st = run (Seq a (Seq b c)) st.
Proof.
  rewrite !run_seq. induction (run a st) as [|x l IH]; [done|].
  simpl. by rewrite flat_map_app, IH.
Qed.

Lemma Lit_by (s : str) : Lit s = LitBy same_chr s.
Proof. induction s as [|c t IH]; [done|]. simpl. by rewrite IH. Qed.

Lemma LitI_by (s : str) : LitI s = LitBy same_chr_ci s.
Proof. induction s as [|c t IH]; [done|]. simpl. by rewrite IH. Qed.

Lemma run_lit_seq (f : ascii -> ascii -> bool) (pat : str) (x : re)
    (pv : option ascii) (s : str) (cp : option str) :
  run (Seq (LitBy f pat) x) (MState pv s cp)
  = match lit_state f pat pv s cp with
    | Some st' => run x st'
    | None => []
    end.
Proof.
  revert pv s. induction pat as [|p ps IH]; intros pv s.
  - simpl. apply app_nil_r.
  - cbn [LitBy]. rewrite run_seq_assoc, run_chr_seq.
    destruct s as [|c t]; [done|]. cbn [lit_state].
    destruct (f p c); [apply IH|done].
Qed.

Lemma lit_state_after (f : ascii -> ascii -> bool) (pat : str)
    (pv : option ascii) (s : str) (cp : option str) :
  match lit_state f pat pv s cp with
  | Some st' => after_prefix f pat s = Some (rest st') /\ cap st' = cp
  | None => after_prefix f pat s = None
  end.
Proof.
  revert pv s. induction pat as [|p ps IH]; intros pv s; [done|].
  destruct s as [|c t]; [done|]. simpl. destruct (f p c); [apply IH|done].
Qed.

Lemma space_not_colon_dash (c : ascii) :
  isspace c = true -> colon_or_dash c = false.
Proof. destruct c as [[] [] [] [] [] [] [] []]; by vm_compute. Qed.

Lemma space_not_digit (c : ascii) : isspace c = true -> isdigit c = false.
Proof. destruct c as [[] [] [] [] [] [] [] []]; by vm_compute. Qed.

Lemma space_not_S (c : ascii) :
  isspace c = true -> same_chr "S" c = false /\ same_chr_ci "S" c = false.
Proof. destruct c as [[] [] [] [] [] [] [] []]; by vm_compute. Qed.

Lemma same_chr_ci_of_same (p c : ascii) :
  same_chr p c = true -> same_chr_ci p c = true.
Proof.
  unfold same_chr, same_chr_ci. intros H. apply Ascii.eqb_eq in H. subst c.
  apply Ascii.eqb_refl.
Qed.

Lemma run_star_ws_seq (x : re) (pv : option ascii) (s : str)
    (cp : option str) :
  (forall pv' c t, isspace c = true -> run x (MState pv' (c :: t) cp) = []) ->
  run (Seq (Star ws) x) (MState pv s cp) = run x (skip_state isspace pv s cp).
Proof.
  intros H. rewrite run_seq. unfold ws. rewrite run_star_chr.
  by apply star_then_reject.
Qed.

Lemma skip_state_eq (pv : option ascii) (s : str) (cp : option str) :
  exists pv', skip_state isspace pv s cp = MState pv' (drop_while isspace s) cp.
Proof.
  destruct (skip_state_rest isspace pv s cp) as [Hr Hc].
  destruct (skip_state isspace pv s cp) as [pv' s' cp']. simpl in *.
  subst. by exists pv'.
Qed.

Section MarkerCore.
Variable f : ascii -> ascii -> bool.
Variable tail : re.
Hypothesis f_space : forall c, isspace c = true -> f "S" c = false.
Hypothesis tail_led : forall pv s cp,
  starts_with_digit s = false -> run tail (MState pv s cp) = [].

Lemma tail_rejects_space (cp : option str) (pv : option ascii) (c : ascii)
    (t : str) :
  isspace c = true -> run tail (MState pv (c :: t) cp) = [].
Proof. intros Hc. apply tail_led. simpl. by apply space_not_digit. Qed.

Lemma colon_rejects_space (cp : option str) (pv : option ascii) (c : ascii)
    (t : str) :
  isspace c = true ->
  run (Seq (Chr colon_or_dash) (Seq (Star ws) tail)) (MState pv (c :: t) cp)
  = [].
Proof. intros Hc. rewrite run_chr_seq. by rewrite space_not_colon_dash. Qed.

Lemma marker_core_nil (pv : option ascii) (s : str) (cp : option str) :
  marker_by f s = false ->
  run (marker_core (LitBy f (py "SECTION")) tail) (MState pv s cp) = [].
Proof.
  unfold marker_by, marker_core. intros H. rewrite run_lit_seq.
  pose proof (lit_state_after f (py "SECTION") pv s cp) as Ha.
  destruct (lit_state f (py "SECTION") pv s cp) as [[pv1 s1 cp1]|]; [|done].
  destruct Ha as [Ha Hc]. cbn [rest cap] in Ha, Hc. subst cp1.
  rewrite Ha in H.
  rewrite run_star_ws_seq by apply colon_rejects_space.
  destruct (skip_state_eq pv1 s1 cp) as [pv2 ->]. rewrite run_chr_seq.
  destruct (drop_while isspace s1) as [|c s2]; [done|].
  destruct (colon_or_dash c); [|done]. rewrite andb_true_l in H.
  rewrite run_star_ws_seq by apply tail_rejects_space.
  destruct (skip_state_eq (Some c) s2 cp) as [pv3 ->]. by apply tail_led.
Qed.

Lemma marker_core_some (pv : option ascii) (s : str) (cp : option str) :
  (forall pv s cp, starts_with_digit s = true ->
                   run tail (MState pv s cp) <> []) ->
  marker_by f s = true ->
  run (marker_core (LitBy f (py "SECTION")) tail) (MState pv s cp) <> [].
Proof.
  unfold marker_by, marker_core. intros Hok H. rewrite run_lit_seq.
  pose proof (lit_state_after f (py "SECTION") pv s cp) as Ha.
  destruct (lit_state f (py "SECTION") pv s cp) as [[pv1 s1 cp1]|];
    [|by rewrite Ha in H].
  destruct Ha as [Ha Hc]. cbn [rest cap] in Ha, Hc. subst cp1.
  rewrite Ha in H.
  rewrite run_star_ws_seq by apply colon_rejects_space.
  destruct (skip_state_eq pv1 s1 cp) as [pv2 ->]. rewrite run_chr_seq.
  destruct (drop_while isspace s1) as [|c s2]; [done|].
  destruct (colon_or_dash c); [|done]. rewrite andb_true_l in H.
  rewrite run_star_ws_seq by apply tail_rejects_space.
  destruct (skip_state_eq (Some c) s2 cp) as [pv3 ->]. by apply Hok.
Qed.

Lemma marker_core_rejects_space (cp : option str) (pv : option ascii)
    (c : ascii) (t : str) :
  isspace c = true ->
  run (marker_core (LitBy f (py "SECTION")) tail) (MState pv (c :: t) cp) = [].
Proof.
  intros Hc. apply marker_core_nil. unfold marker_by. simpl.
  by rewrite f_space.
Qed.

End MarkerCore.

Lemma run_look (a : re) (st : mstate) :
  run (Look a) st = match run a st with [] => [] | _ :: _ => [st] end.
Proof. reflexivity. Qed.

Lemma run_plus_digit_seq (x : re) (pv : option ascii) (s : str)
    (cp : option str) :
  run (Seq (Plus digit) x) (MState pv s cp)
  = match s with
    | c :: t =>
        if isdigit c then flat_map (run x) (star_states isdigit (Some c) t cp)
        else []
    | [] => []
    end.
Proof.
  unfold Plus, digit. rewrite run_seq_assoc, run_chr_seq.
  destruct s as [|c t]; [done|]. destruct (isdigit c); [|done].
  by rewrite run_seq, run_star_chr.
Qed.

Lemma flat_map_ne {A B} (g : A -> list B) (l : list A) :
  l <> [] -> (forall x, g x <> []) -> flat_map g l <> [].
Proof.
  intros Hl Hg. destruct l as [|x l]; [done|]. simpl.
  specialize (Hg x). by destruct (g x).
Qed.

Lemma star_states_ne (p : ascii -> bool) (pv : option ascii) (s : str)
    (cp : option str) : star_states p pv s cp <> [].
Proof. by destruct (star_states_head p pv s cp) as [others ->]. Qed.

Lemma dotted_led (pv : option ascii) (s : str) (cp : option str) :
  starts_with_digit s = false -> run dotted_number (MState pv s cp) = [].
Proof.
  intros H. unfold dotted_number. rewrite run_plus_digit_seq.
  destruct s as [|c t]; [done|]. simpl in H. by rewrite H.
Qed.

Lemma dotted_some (pv : option ascii) (s : str) (cp : option str) :
  starts_with_digit s = true -> run dotted_number (MState pv s cp) <> [].
Proof.
  intros H. unfold dotted_number. rewrite run_plus_digit_seq.
  destruct s as [|c t]; [done|]. simpl in H. rewrite H.
  apply flat_map_ne; [apply star_states_ne|]. intros st. apply run_star_ne.
Qed.

Lemma grp_dotted_led (pv : option ascii) (s : str) (cp : option str) :
  starts_with_digit s = false -> run (Grp dotted_number) (MState pv s cp) = [].
Proof. intros H. by rewrite run_grp, dotted_led. Qed.

(** The first substitution's pattern matches at a position exactly when
    a marker follows the blanks that start there, and then it matches
    those blanks. *)
Lemma run_force (pv : option ascii) (s : str) (cp : option str) :
  run FORCE_NEWLINE_REGEX (MState pv s cp)
  = if marker_by same_chr (drop_while isspace s)
    then [skip_state isspace pv s cp] else [].
Proof.
  change FORCE_NEWLINE_REGEX
    with (Seq (Star ws)
            (Look (marker_core (Lit (py "SECTION")) dotted_number))).
  rewrite Lit_by, run_star_ws_seq.
  - destruct (skip_state_eq pv s cp) as [pv' ->]. rewrite run_look.
    destruct (marker_by same_chr (drop_while isspace s)) eqn:E.
    + pose proof (marker_core_some same_chr dotted_number dotted_led
                    pv' _ cp dotted_some E) as Hne.
      by destruct (run _ _).
    + by rewrite marker_core_nil by (exact dotted_led || done).
  - intros pv' c t Hc. rewrite run_look.
    rewrite marker_core_rejects_space; [done| |exact dotted_led|done].
    intros c' Hc'. by apply space_not_S.
Qed.

Lemma match_here_force (must : bool) (pv : option ascii) (s : str) :
  match_here FORCE_NEWLINE_REGEX must pv s
  = if marker_by same_chr (drop_while isspace s)
    then (if must && (length s - length (drop_while isspace s) =? 0)
          then None
          else Some (length s - length (drop_while isspace s), None))
    else None.
Proof.
  unfold match_here. rewrite run_force.
  destruct (marker_by same_chr (drop_while isspace s)); [|done].
  destruct (skip_state_eq pv s None) as [pv' ->].
  unfold consumed. cbn [List.filter rest cap].
  destruct must; cbn [negb orb andb]; [|done].
  destruct (length s - length (drop_while isspace s)) as [|n] eqn:E; simpl;
    [done|]. by rewrite E.
Qed.

Lemma match_here_header_none (must : bool) (pv : option ascii) (s : str) :
  marker_by same_chr_ci (drop_while isspace s) = false ->
  match_here SECTION_HEADER_REGEX must pv s = None.
Proof.
  intros H. unfold match_here.
  change SECTION_HEADER_REGEX
    with (Seq Bol (Seq (Star ws)
            (marker_core (LitI (py "SECTION")) (Grp dotted_number)))).
  assert (E : run (Seq (Star ws)
                     (marker_core (LitI (py "SECTION")) (Grp dotted_number)))
                (MState pv s None) = []).
  { rewrite LitI_by, run_star_ws_seq.
    - destruct (skip_state_eq pv s None) as [pv' ->].
      by apply marker_core_nil; [exact grp_dotted_led|].
    - intros pv' c t Hc.
      apply marker_core_rejects_space; [|exact grp_dotted_led|done].
      intros c' Hc'. by apply space_not_S. }
  rewrite run_seq. simpl run at 2. cbn [prev].
  destruct pv as [c|]; [destruct (chr_eqb c LF)|]; cbn [flat_map];
    rewrite ?E; reflexivity.
Qed.

Lemma search_never (r : re) (pv : option ascii) (s : str) :
  never_matches r pv s -> search r false pv s = None.
Proof.
  revert pv. induction s as [|c t IH]; intros pv [H Ht]; simpl; rewrite H.
  - done.
  - by rewrite IH.
Qed.

Lemma never_matches_suffixes (r : re) (pv : option ascii) (s : str) :
  (forall pv' a s', s = a ++ s' -> match_here r false pv' s' = None) ->
  never_matches r pv s.
Proof.
  revert pv. induction s as [|c t IH]; intros pv H.
  - split; [|done]. by apply (H pv []).
  - split; [by apply (H pv [])|]. apply IH. intros pv' a s' ->.
    by apply (H pv' (c :: a)).
Qed.

Lemma after_prefix_ci (pat s s1 : str) :
  after_prefix same_chr pat s = Some s1 ->
  after_prefix same_chr_ci pat s = Some s1.
Proof.
  revert s. induction pat as [|p ps IH]; intros s; [done|].
  destruct s as [|c t]; [done|]. simpl.
  destruct (same_chr p c) eqn:E; [|done].
  rewrite (same_chr_ci_of_same _ _ E). apply IH.
Qed.

Lemma marker_cs_free (s : str) :
  marker_by same_chr_ci s = false -> marker_by same_chr s = false.
Proof.
  unfold marker_by. intros H.
  destruct (after_prefix same_chr (py "SECTION") s) as [s1|] eqn:E; [|done].
  by rewrite (after_prefix_ci _ _ _ E) in H.
Qed.

Lemma marker_free_suffix (a s : str) : marker_free (a ++ s) -> marker_free s.
Proof. intros H b s' ->. apply (H (a ++ b)). by rewrite app_assoc. Qed.

Lemma never_force (pv : option ascii) (s : str) :
  marker_free s -> never_matches FORCE_NEWLINE_REGEX pv s.
Proof.
  intros H. apply never_matches_suffixes. intros pv' a s' ->.
  rewrite match_here_force.
  destruct (drop_while_suffix isspace s') as [b Hb].
  rewrite (marker_cs_free (drop_while isspace s')); [done|].
  apply (H (a ++ b)). by rewrite <- app_assoc, <- Hb.
Qed.

Lemma never_header (pv : option ascii) (s : str) :
  marker_free s -> never_matches SECTION_HEADER_REGEX pv s.
Proof.
  intros H. apply never_matches_suffixes. intros pv' a s' ->.
  apply match_here_header_none.
  destruct (drop_while_suffix isspace s') as [b Hb].
  apply (H (a ++ b)). by rewrite <- app_assoc, <- Hb.
Qed.

Lemma has_marker_free (s : str) : has_marker s = false -> marker_free s.
Proof.
  induction s as [|c t IH]; intros H a s' E.
  - symmetry in E. apply app_eq_nil in E as [_ ->]. done.
  - simpl in H. apply orb_false_iff in H as [Hm Ht].
    destruct a as [|x a]; simpl in E.
    + by subst s'.
    + injection E as _ E. by apply (IH Ht a).
Qed.

Lemma marker_free_app (a b : str) :
  Forall (fun c => same_chr_ci "S" c = false) a -> marker_free b ->
  marker_free (a ++ b).
Proof.
  intros Ha Hb. induction Ha as [|c a Hc _ IH]; [done|].
  intros x s' E. destruct x as [|y x]; simpl in E.
  - subst s'. unfold marker_by. simpl. by rewrite Hc.
  - injection E as _ E. by apply (IH x).
Qed.

(** ** The second substitution drops repeated line feeds *)

Lemma length_take_drop_while (p : ascii -> bool) (s : str) :
  length s - length (drop_while p s) = length (take_while p s).
Proof.
  rewrite <- (take_drop_while p s) at 1. rewrite length_app. lia.
Qed.

Lemma match_here_empty_lines (must : bool) (pv : option ascii) (s : str) :
  match_here EMPTY_LINES_REGEX must pv s
  = match s with
    | c1 :: c2 :: t =>
        if chr_eqb LF c1 && chr_eqb LF c2
        then Some (2 + length (take_while (chr_eqb LF) t), None)
        else None
    | _ => None
    end.
Proof.
  unfold match_here, EMPTY_LINES_REGEX, AtLeast2.
  rewrite run_chr_seq. destruct s as [|c1 [|c2 t]]; [done| |].
  - destruct (chr_eqb LF c1); [|done]. by rewrite run_chr_seq.
  - destruct (chr_eqb LF c1); [|done]. rewrite run_chr_seq.
    destruct (chr_eqb LF c2); [|done]. rewrite run_star_chr.
    destruct (star_states_head (chr_eqb LF) (Some c2) t None) as [others ->].
    destruct (skip_state_rest (chr_eqb LF) (Some c2) t None) as [Hr Hc].
    assert (Hn : consumed (c1 :: c2 :: t)
                   (skip_state (chr_eqb LF) (Some c2) t None)
                 = 2 + length (take_while (chr_eqb LF) t)).
    { unfold consumed. rewrite Hr. simpl length.
      rewrite <- (length_take_drop_while (chr_eqb LF) t).
      destruct (drop_while_suffix (chr_eqb LF) t) as [a Ha].
      assert (length (drop_while (chr_eqb LF) t) <= length t).
      { rewrite Ha at 2. rewrite length_app. lia. }
      lia. }
    cbn [List.filter andb]. rewrite Hn.
    replace (0 <? 2 + length (take_while (chr_eqb LF) t)) with true
      by (symmetry; apply Nat.ltb_lt; lia).
    rewrite orb_true_r. by rewrite Hn, Hc.
Qed.

Lemma chr_eqb_sym (a b : ascii) : chr_eqb a b = chr_eqb b a.
Proof. apply Ascii.eqb_sym. Qed.

Lemma squeeze_false_cons (c : ascii) (t : str) :
  squeeze false (c :: t)
  = if chr_eqb c LF then LF :: squeeze true t else c :: squeeze false t.
Proof. reflexivity. Qed.

Lemma squeeze_true_eq (s : str) :
  match s with c :: _ => chr_eqb LF c = false | [] => True end ->
  squeeze true s = squeeze false s.
Proof.
  destruct s as [|c t]; [done|]. intros H. cbn [squeeze].
  by rewrite (chr_eqb_sym c LF), H.
Qed.

Lemma squeeze_true_skip (t : str) :
  squeeze true t = squeeze false (drop_while (chr_eqb LF) t).
Proof.
  induction t as [|c t IH]; [done|]. cbn [squeeze drop_while].
  rewrite (chr_eqb_sym c LF).
  destruct (chr_eqb LF c) eqn:E; [exact IH|].
  cbn [squeeze]. by rewrite (chr_eqb_sym c LF), E.
Qed.

Lemma drop_take_while_len (p : ascii -> bool) (t : str) :
  drop (length (take_while p t)) t = drop_while p t.
Proof.
  induction t as [|c t IH]; [done|]. simpl.
  destruct (p c); [exact IH|done].
Qed.

Lemma search_empty_lines (pv : option ascii) (s : str) :
  match search EMPTY_LINES_REGEX false pv s with
  | None => squeeze false s = s
  | Some (b, e, _) =>
      b < e /\ e <= length s
      /\ squeeze false s = take b s ++ LF :: squeeze false (drop e s)
  end.
Proof.
  revert pv. induction s as [|c t IH]; intros pv.
  - cbn [search]. by rewrite match_here_empty_lines.
  - cbn [search]. rewrite match_here_empty_lines.
    destruct t as [|c2 t'].
    + specialize (IH (Some c)). cbn [search] in IH.
      rewrite match_here_empty_lines in IH. simpl.
      destruct (chr_eqb c LF) eqn:Ec; [|done].
      apply Ascii.eqb_eq in Ec. by subst c.
    + destruct (chr_eqb LF c && chr_eqb LF c2) eqn:E.
      * apply andb_true_iff in E as [E1 E2].
        apply Ascii.eqb_eq in E1, E2. subst c c2.
        split; [lia|]. split.
        { simpl length. pose proof (take_drop_while (chr_eqb LF) t') as Ht.
          apply (f_equal (@length ascii)) in Ht. rewrite length_app in Ht.
          lia. }
        cbn [take app]. change (2 + ?n) with (S (S n)). cbn [drop].
        rewrite drop_take_while_len.
        change (squeeze false (LF :: LF :: t'))
          with (LF :: squeeze true t').
        by rewrite squeeze_true_skip.
      * specialize (IH (Some c)).
        destruct (search EMPTY_LINES_REGEX false (Some c) (c2 :: t'))
          as [[[b e] g]|].
        -- destruct IH as (Hlt & Hle & Hsq). split; [lia|].
           split; [simpl in *; lia|]. cbn [take drop app].
           rewrite <- Hsq. rewrite (squeeze_false_cons c).
           destruct (chr_eqb c LF) eqn:Ec; [|done].
           apply Ascii.eqb_eq in Ec. subst c. f_equal.
           apply squeeze_true_eq. by rewrite Ascii.eqb_refl in E.
        -- rewrite (squeeze_false_cons c).
           destruct (chr_eqb c LF) eqn:Ec; [|by rewrite IH].
           apply Ascii.eqb_eq in Ec. subst c. f_equal.
           rewrite <- IH at 2. apply squeeze_true_eq.
           by rewrite Ascii.eqb_refl in E.
Qed.

Lemma scan_empty_lines (fuel : nat) (pv : option ascii) (s : str) :
  length s < fuel ->
  concat (List.map (fun m => m_gap m ++ [LF])
            (scan fuel EMPTY_LINES_REGEX false pv s).1)
  ++ (scan fuel EMPTY_LINES_REGEX false pv s).2
  = squeeze false s.
Proof.
  revert pv s. induction fuel as [|f IH]; intros pv s Hlen; [lia|].
  cbn [scan]. pose proof (search_empty_lines pv s) as Hs.
  destruct (search EMPTY_LINES_REGEX false pv s) as [[[b e] g]|];
    [|by rewrite Hs].
  destruct Hs as (Hlt & Hle & Hsq).
  assert ((e =? b) = false) as -> by (apply Nat.eqb_neq; lia).
  specialize (IH (prev_after pv s e) (drop e s)).
  destruct (scan f EMPTY_LINES_REGEX false (prev_after pv s e) (drop e s))
    as [ms tl].
  cbn [fst snd List.map concat m_gap] in *.
  rewrite Hsq, <- IH by (rewrite length_drop; lia).
  by rewrite <- !app_assoc.
Qed.

(** Whatever the text, the second substitution is [squeeze]. *)
Lemma sub_empty_lines (s : str) :
  sub EMPTY_LINES_REGEX [LF] s = squeeze false s.
Proof.
  unfold sub, scan_all.
  pose proof (scan_empty_lines (2 * length s + 2) None s ltac:(lia)) as H.
  by destruct (scan _ _ _ _ _) as [ms tl].
Qed.

(** ** The first substitution on a text with one marker, at its start *)

Lemma sub_force_single (c : ascii) (t : str) :
  isspace c = false -> marker_by same_chr (c :: t) = true ->
  marker_free t ->
  sub FORCE_NEWLINE_REGEX [LF] (c :: t) = LF :: c :: t.
Proof.
  intros Hc Hm Hfree. unfold sub, scan_all.
  replace (2 * length (c :: t) + 2) with (S (S (2 * length (c :: t))))
    by lia.
  assert (Hd : drop_while isspace (c :: t) = c :: t) by (simpl; by rewrite Hc).
  cbn [scan]. rewrite search_cons, match_here_force, Hd, Hm, Nat.sub_diag.
  cbn [andb Nat.eqb drop].
  rewrite search_cons, match_here_force, Hd, Hm, Nat.sub_diag.
  cbn [andb Nat.eqb].
  by rewrite (search_never _ _ _ (never_force (Some c) t Hfree)).
Qed.

(** ** The header pattern reads a dotted identifier to its end *)

Lemma flat_map_ext_in {A B} (g h : A -> list B) (l : list A) :
  (forall x, In x l -> g x = h x) -> flat_map g l = flat_map h l.
Proof.
  induction l as [|x l IH]; intros H; [done|]. simpl.
  rewrite (H x) by (by left). f_equal. apply IH. intros y Hy. apply H.
  by right.
Qed.

Lemma star_states_length (p : ascii -> bool) (pv : option ascii) (s : str)
    (cp : option str) (st : mstate) :
  In st (star_states p pv s cp) -> length (rest st) <= length s.
Proof.
  revert pv. induction s as [|c t IH]; intros pv; simpl.
  - intros [<-|[]]. done.
  - destruct (p c).
    + intros H. apply in_app_or in H as [H|[<-|[]]]; [|done].
      apply IH in H. lia.
    + intros [<-|[]]. done.
Qed.

Lemma run_dotted (pv : option ascii) (d : ascii) (t : str)
    (cp : option str) :
  isdigit d = true ->
  run dotted_number (MState pv (d :: t) cp) = dotted_ends (Some d) t cp.
Proof.
  intros Hd. unfold dotted_number. fold dot_group.
  by rewrite run_plus_digit_seq, Hd.
Qed.

Lemma run_star_dot_group (pv : option ascii) (s : str) (cp : option str) :
  run (Star dot_group) (MState pv s cp)
  = match s with
    | c :: d :: t =>
        if chr_eqb "." c && isdigit d
        then dotted_ends (Some d) t cp ++ [MState pv s cp]
        else [MState pv s cp]
    | _ => [MState pv s cp]
    end.
Proof.
  rewrite run_star_unfold. unfold dot_group at 2. rewrite run_chr_seq.
  destruct s as [|c [|d t]]; [done| |].
  - destruct (chr_eqb "." c); [|done]. unfold Plus, digit.
    by rewrite run_chr_seq.
  - destruct (chr_eqb "." c); [|done]. unfold Plus, digit.
    rewrite run_chr_seq. cbn [andb].
    destruct (isdigit d); [|done]. rewrite run_star_chr. f_equal.
    unfold dotted_ends. apply flat_map_ext_in. intros st Hst.
    apply star_states_length in Hst. cbn [rest length].
    assert ((length (rest st) <? S (S (length t))) = true) as ->; [|done].
    apply Nat.ltb_lt. lia.
Qed.

Lemma star_states_stop (p : ascii -> bool) (pv : option ascii) (s : str)
    (cp : option str) :
  match s with c :: _ => p c = false | [] => True end ->
  star_states p pv s cp = [MState pv s cp].
Proof. destruct s as [|c t]; [done|]. simpl. by intros ->. Qed.

Lemma dotted_ends_head (n : nat) (s r : str) (pv : option ascii)
    (cp : option str) :
  length s <= n -> dotted_ok true s = true -> ends_number r ->
  exists pv' others, dotted_ends pv (s ++ r) cp = MState pv' r cp :: others.
Proof.
  revert s pv. induction n as [|n IH]; intros s pv Hlen Hok [Hr1 Hr2].
  - destruct s; [|simpl in Hlen; lia]. unfold dotted_ends.
    rewrite star_states_stop by (by destruct r).
    cbn [flat_map app]. rewrite run_star_dot_group.
    destruct r as [|c [|d t]]; [by eexists _, _..|].
    destruct (chr_eqb "." c) eqn:E; [|by eexists _, _].
    apply Ascii.eqb_eq in E. subst c. by destruct (Hr2 (d :: t)).
  - destruct s as [|c s].
    + apply (IH []); [simpl; lia|done|done].
    + simpl in Hok, Hlen. unfold dotted_ends.
      destruct (isdigit c) eqn:Hc.
      * rewrite <- app_comm_cons. cbn [star_states]. rewrite Hc.
        rewrite flat_map_app.
        destruct (IH s (Some c) ltac:(lia) Hok (conj Hr1 Hr2))
          as (pv' & others & E).
        unfold dotted_ends in E. rewrite E. by eexists _, _.
      * apply andb_true_iff in Hok as [Hdot Hok].
        apply Ascii.eqb_eq in Hdot. subst c.
        destruct s as [|d s]; [done|]. simpl in Hok, Hlen.
        destruct (isdigit d) eqn:Hd; [|done].
        rewrite <- !app_comm_cons.
        rewrite star_states_stop by done.
        cbn [flat_map]. rewrite run_star_dot_group, Hd. cbn [chr_eqb andb].
        rewrite Ascii.eqb_refl. cbn [andb].
        destruct (IH s (Some d) ltac:(lia) Hok (conj Hr1 Hr2))
          as (pv' & others & ->).
        by eexists _, _.
Qed.

Lemma run_dotted_head (id r : str) (pv : option ascii) (cp : option str) :
  is_section_identifier id = true -> ends_number r ->
  exists pv' others,
    run dotted_number (MState pv (id ++ r) cp) = MState pv' r cp :: others.
Proof.
  unfold is_section_identifier. intros Hok Hr.
  destruct id as [|d id]; [done|]. simpl in Hok.
  destruct (isdigit d) eqn:Hd; [|done].
  rewrite <- app_comm_cons, run_dotted by done.
  by apply (dotted_ends_head (length id)).
Qed.

Lemma run_bol_seq (x : re) (s : str) (cp : option str) :
  run (Seq Bol x) (MState None s cp) = run x (MState None s cp).
Proof. simpl. apply app_nil_r. Qed.

Lemma digit_not_space (c : ascii) : isdigit c = true -> isspace c = false.
Proof.
  intros Hd. destruct (isspace c) eqn:E; [|done].
  apply space_not_digit in E. congruence.
Qed.

(** At the start of the normalized text of a one-section FSD the header
    pattern matches the line feed, the marker and the whole identifier. *)
Lemma header_match_first (id r : str) :
  is_section_identifier id = true -> ends_number r ->
  match_here SECTION_HEADER_REGEX false None
    (LF :: py "SECTION: " ++ id ++ r)
  = Some (10 + length id, Some id).
Proof.
  intros Hid Hr. unfold match_here.
  change SECTION_HEADER_REGEX
    with (Seq Bol (Seq (Star ws)
            (marker_core (LitI (py "SECTION")) (Grp dotted_number)))).
  assert (Hsp : forall c, isspace c = true -> same_chr_ci "S" c = false)
    by (intros c Hc; by apply space_not_S).
  rewrite run_bol_seq, LitI_by.
  rewrite run_star_ws_seq
    by (intros; by apply marker_core_rejects_space;
        [exact Hsp|exact grp_dotted_led|]).
  replace (skip_state isspace None (LF :: py "SECTION: " ++ id ++ r) None)
    with (MState (Some LF) (py "SECTION: " ++ id ++ r) None) by reflexivity.
  unfold marker_core. rewrite run_lit_seq.
  replace (lit_state same_chr_ci (py "SECTION") (Some LF)
             (py "SECTION: " ++ id ++ r) None)
    with (Some (MState (Some "N") (py ": " ++ id ++ r) None))
    by reflexivity.
  rewrite run_star_ws_seq by (intros; by apply colon_rejects_space).
  replace (skip_state isspace (Some "N") (py ": " ++ id ++ r) None)
    with (MState (Some "N") (":" :: " " :: id ++ r) None) by reflexivity.
  rewrite run_chr_seq.
  replace (colon_or_dash ":") with true by reflexivity.
  rewrite run_star_ws_seq
    by (intros; by apply (tail_rejects_space _ grp_dotted_led)).
  assert (Hskip : skip_state isspace (Some ":") (" " :: id ++ r) None
                  = MState (Some " ") (id ++ r) None).
  { unfold is_section_identifier in Hid. destruct id as [|d id]; [done|].
    simpl in Hid. destruct (isdigit d) eqn:Hd; [|done].
    rewrite <- app_comm_cons. cbn [skip_state].
    replace (isspace " ") with true by reflexivity.
    by rewrite (digit_not_space d Hd). }
  rewrite Hskip, run_grp.
  destruct (run_dotted_head id r (Some " ") None Hid Hr)
    as (pv' & others & ->).
  cbn [List.map List.filter negb orb]. unfold consumed, capture.
  cbn [rest cap]. f_equal. f_equal.
  - cbn [length]. rewrite !length_app. simpl length. lia.
  - f_equal. rewrite length_app.
    replace (length id + length r - length r) with (length id) by lia.
    apply take_app_length.
Qed.

Lemma finditer_single (s : str) (e : nat) (g : option str) :
  match_here SECTION_HEADER_REGEX false None s = Some (e, g) ->
  0 < e -> e <= length s ->
  never_matches SECTION_HEADER_REGEX (prev_after None s e) (drop e s) ->
  finditer SECTION_HEADER_REGEX s = [Span 0 e g].
Proof.
  intros Hm He Hle Hnever. unfold finditer, scan_all.
  replace (2 * length s + 2) with (S (S (2 * length s))) by lia.
  assert (Hs : search SECTION_HEADER_REGEX false None s = Some (0, e, g)).
  { destruct s; cbn [search]; by rewrite Hm. }
  cbn [scan]. rewrite Hs.
  assert ((e =? 0) = false) as -> by (apply Nat.eqb_neq; lia).
  rewrite (search_never _ _ _ Hnever). cbn [fst spans m_gap m_text m_group].
  rewrite Nat.sub_0_r. change (drop 0 s) with s. rewrite !length_take.
  do 2 f_equal; lia.
Qed.

(** ** One section, from text to mapping *)

Lemma remove_chr_id (ch : ascii) (s : str) :
  ~ In ch s -> remove_chr ch s = s.
Proof.
  unfold remove_chr. induction s as [|c t IH]; intros H; [done|]. simpl.
  destruct (chr_eqb c ch) eqn:E.
  - apply Ascii.eqb_eq in E. subst c. exfalso. apply H. by left.
  - simpl. rewrite IH; [done|]. intros Hin. apply H. by right.
Qed.

Lemma dotted_chars (b : bool) (id : str) :
  dotted_ok b id = true -> Forall (fun c => isdigit c = true \/ c = ".") id.
Proof.
  revert b. induction id as [|c t IH]; intros b H; [constructor|].
  simpl in H. destruct (isdigit c) eqn:Hc.
  - constructor; [by left|]. by apply (IH true).
  - apply andb_true_iff in H as [H Ht]. apply andb_true_iff in H as [_ Hd].
    apply Ascii.eqb_eq in Hd. constructor; [by right|]. by apply (IH false).
Qed.

Lemma id_char_facts (c : ascii) :
  isdigit c = true \/ c = "." ->
  c <> CR /\ c <> LF /\ isspace c = false /\ same_chr_ci "S" c = false.
Proof.
  intros [H| ->]; [|by vm_compute].
  revert H. destruct c as [[] [] [] [] [] [] [] []]; by vm_compute.
Qed.

Lemma squeeze_no_lf (fl : bool) (a b : str) :
  ~ In LF a -> a <> [] -> squeeze fl (a ++ b) = a ++ squeeze false b.
Proof.
  revert fl. induction a as [|c a IH]; intros fl Hlf Hne; [done|].
  assert (Hc : chr_eqb c LF = false).
  { destruct (chr_eqb c LF) eqn:E; [|done]. apply Ascii.eqb_eq in E.
    subst c. exfalso. apply Hlf. by left. }
  rewrite <- !app_comm_cons. cbn [squeeze]. rewrite Hc. f_equal.
  destruct a as [|c' a']; [done|].
  apply IH; [|done]. intros Hin. apply Hlf. by right.
Qed.

Lemma squeeze_false_id (s : str) :
  has_blank_line s = false -> squeeze false s = s.
Proof.
  induction s as [|c t IH]; [done|]. intros H. simpl in H.
  apply orb_false_iff in H as [H1 H2]. rewrite squeeze_false_cons.
  destruct (chr_eqb c LF) eqn:Ec; [|by rewrite IH].
  apply Ascii.eqb_eq in Ec. subst c. f_equal.
  rewrite squeeze_true_eq; [by apply IH|].
  destruct t as [|c' t']; [done|]. simpl in H1. by rewrite chr_eqb_sym.
Qed.

Lemma squeeze_true_no_blank (body : str) :
  has_blank_line body = false ->
  exists a, body = a ++ squeeze true body
            /\ Forall (fun c => isspace c = true) a.
Proof.
  intros H. destruct body as [|c t]; [by exists []|].
  simpl in H. apply orb_false_iff in H as [H1 H2]. cbn [squeeze].
  destruct (chr_eqb c LF) eqn:Ec.
  - apply Ascii.eqb_eq in Ec. subst c. exists [LF]. split; [|by repeat constructor].
    rewrite squeeze_true_eq, squeeze_false_id; [done|done|].
    destruct t as [|c' t']; [done|]. simpl in H1. by rewrite chr_eqb_sym.
  - exists []. split; [|constructor]. by rewrite squeeze_false_id.
Qed.

Lemma strip_app_space (a s : str) :
  Forall (fun c => isspace c = true) a -> strip (a ++ s) = strip s.
Proof.
  intros H. unfold strip, strip_by, lstrip_by. by rewrite drop_while_all.
Qed.

Lemma drop_while_none (p : ascii -> bool) (s : str) :
  Forall (fun c => p c = false) s -> drop_while p s = s.
Proof. destruct 1 as [|c s Hc _]; [done|]. simpl. by rewrite Hc. Qed.

Lemma strip_no_space (s : str) :
  Forall (fun c => isspace c = false) s -> strip s = s.
Proof.
  intros H. unfold strip, strip_by, lstrip_by, rstrip_by.
  rewrite (drop_while_none isspace s H).
  rewrite drop_while_none by (by apply Forall_rev).
  apply rev_involutive.
Qed.

Lemma section_prefix_facts :
  ~ In CR (py "SECTION: ") /\ ~ In LF (py "SECTION: ")
  /\ Forall (fun c => same_chr_ci "S" c = false) (py "ECTION: ").
Proof.
  split; [|split].
  - simpl. intuition discriminate.
  - simpl. intuition discriminate.
  - repeat constructor.
Qed.

Lemma one_section_marker (id rest_text : str) :
  is_section_identifier id = true ->
  marker_by same_chr ("S" :: py "ECTION: " ++ id ++ rest_text) = true.
Proof.
  unfold is_section_identifier. intros Hid.
  destruct id as [|d id]; [done|]. simpl in Hid.
  destruct (isdigit d) eqn:Hd; [|done]. unfold marker_by.
  replace (after_prefix same_chr (py "SECTION")
             ("S" :: py "ECTION: " ++ (d :: id) ++ rest_text))
    with (Some (":" :: " " :: d :: id ++ rest_text)) by reflexivity.
  replace (drop_while isspace (":" :: " " :: d :: id ++ rest_text))
    with (":" :: " " :: d :: id ++ rest_text) by reflexivity.
  replace (colon_or_dash ":") with true by reflexivity.
  replace (drop_while isspace (" " :: d :: id ++ rest_text))
    with (drop_while isspace (d :: id ++ rest_text)) by reflexivity.
  cbn [drop_while]. rewrite (digit_not_space d Hd). simpl. exact Hd.
Qed.

Lemma one_section_normalize (id body : str) :
  is_section_identifier id = true -> ~ In CR body ->
  has_marker body = false ->
  normalize (py "SECTION: " ++ id ++ py "\n" ++ body)
  = LF :: py "SECTION: " ++ id ++ LF :: squeeze true body.
Proof.
  intros Hid Hcr Hmk.
  pose proof (dotted_chars false id Hid) as Hchars.
  destruct section_prefix_facts as (Hp_cr & Hp_lf & Hp_s).
  unfold normalize. rewrite remove_chr_id.
  - change (py "SECTION: " ++ id ++ py "\n" ++ body)
      with ("S" :: py "ECTION: " ++ id ++ LF :: body).
    rewrite sub_force_single; [|done|by apply one_section_marker|].
    + rewrite sub_empty_lines, squeeze_false_cons.
      replace (chr_eqb LF LF) with true by reflexivity. f_equal.
      change ("S" :: py "ECTION: " ++ id ++ LF :: body)
        with (py "SECTION: " ++ id ++ LF :: body).
      rewrite (app_assoc (py "SECTION: ") id), squeeze_no_lf.
      * by rewrite <- app_assoc, squeeze_false_cons.
      * intros Hin. apply in_app_or in Hin as [Hin|Hin]; [done|].
        rewrite Forall_forall in Hchars. apply list_elem_of_In in Hin.
        by destruct (id_char_facts _ (Hchars _ Hin)) as (_ & ? & _).
      * done.
    + apply marker_free_app; [done|]. apply marker_free_app.
      * eapply Forall_impl; [exact Hchars|]. intros c Hc.
        by destruct (id_char_facts c Hc) as (_ & _ & _ & ?).
      * apply (marker_free_app [LF]); [by repeat constructor|].
        by apply has_marker_free.
  - intros Hin. apply in_app_or in Hin as [Hin|Hin]; [done|].
    apply in_app_or in Hin as [Hin|Hin].
    + rewrite Forall_forall in Hchars. apply list_elem_of_In in Hin.
      by destruct (id_char_facts _ (Hchars _ Hin)) as (? & _).
    + destruct Hin as [Hin|Hin]; [discriminate Hin|done].
Qed.

(** C4, the claim as worded fails for a body with a blank line, a
    body with a carriage return and a body that holds a marker of its
    own. *)
Lemma one_section_body_is_normalized :
  parse_fsd_sections (py "SECTION: 1\n" ++ py "a\n\nb")
  = {[ py "1" := py "a\nb" ]}
  /\ strip (py "a\n\nb") = py "a\n\nb"
  /\ parse_fsd_sections (py "SECTION: 1\n" ++ py "a\rb") = {[ py "1" := py "ab" ]}
  /\ strip (py "a\rb") = py "a\rb"
  /\ parse_fsd_sections (py "SECTION: 1\n" ++ py "x SECTION: 2 y")
     = {[ py "1" := py "x"; py "2" := py "y" ]}
  /\ parse_fsd_sections (py "SECTION: 1\n" ++ py "a\n\nb")
     <> {[ py "1" := strip (py "a\n\nb") ]}.
Proof.
  repeat split; try (vm_compute; reflexivity).
  intros H. apply (f_equal (fun m => m !! py "1")) in H.
  vm_compute in H. discriminate H.
Qed.

(** C4, amended.  For a dotted numeric identifier and a body that
    holds no carriage return, no two line feeds in a row and no marker
    (SECTION in any letter case, blanks, a colon or a dash, blanks, a
    digit), sectionizing "SECTION: id\n" + body gives the one-entry
    mapping from the identifier to the trimmed body. *)
Theorem one_section_roundtrip (id body : str) :
  is_section_identifier id = true ->
  ~ In CR body -> has_blank_line body = false -> has_marker body = false ->
  parse_fsd_sections (py "SECTION: " ++ id ++ py "\n" ++ body)
  = {[ id := strip body ]}.
Proof.
  intros Hid Hcr Hbl Hmk. unfold parse_fsd_sections.
  rewrite one_section_normalize by done.
  pose proof (dotted_chars false id Hid) as Hchars.
  destruct (squeeze_true_no_blank body Hbl) as (a & Ha & Hsp).
  set (body' := squeeze true body) in *.
  assert (Hends : ends_number (LF :: body')) by (by split).
  assert (Hlen : length (LF :: py "SECTION: " ++ id) = 10 + length id).
  { simpl. lia. }
  assert (Hsplit : LF :: py "SECTION: " ++ id ++ LF :: body'
                   = (LF :: py "SECTION: " ++ id) ++ LF :: body').
  { by rewrite <- app_comm_cons, <- app_assoc. }
  assert (Hdrop : drop (10 + length id)
                    (LF :: py "SECTION: " ++ id ++ LF :: body')
                  = LF :: body').
  { rewrite Hsplit, <- Hlen. apply drop_app_length. }
  rewrite (finditer_single _ (10 + length id) (Some id)).
  - cbn [section_loop m_end m_start group1 default]. unfold slice.
    rewrite Hdrop, take_ge by (rewrite Hsplit, length_app, Hlen; simpl; lia).
    rewrite insert_empty. f_equal.
    + apply strip_no_space. eapply Forall_impl; [exact Hchars|].
      intros c Hc. by destruct (id_char_facts c Hc) as (_ & _ & ? & _).
    + change (LF :: body') with ([LF] ++ body').
      rewrite (strip_app_space [LF]) by (by repeat constructor).
      rewrite <- (strip_app_space a body') by done. by rewrite <- Ha.
  - by apply header_match_first.
  - lia.
  - rewrite Hsplit, length_app, Hlen. lia.
  - rewrite Hdrop. apply never_header.
    apply (marker_free_app [LF]); [by repeat constructor|].
    apply (marker_free_suffix a). rewrite <- Ha. by apply has_marker_free.
Qed.

Lemma one_section_roundtrip_witness :
  parse_fsd_sections (py "SECTION: " ++ py "6.5" ++ py "\n" ++ py "  Scope of work\nsecond line ")
  = {[ py "6.5" := py "Scope of work\nsecond line" ]}.
Proof.
  apply (one_section_roundtrip (py "6.5") (py "  Scope of work\nsecond line "));
    [reflexivity| |reflexivity|reflexivity].
  simpl. intuition discriminate.
Defined.

(** * Markers inside words *)

(** C10. The first substitution's pattern matches wherever a marker
    starts, whatever the character before it: there is no word
    boundary in it.  So a marker that ends a longer word gets its line
    break, and the header regex then finds it at the start of the new
    line: "SUBSECTION: 2 body" is sectionized as section 2. *)
Theorem marker_found_inside_word :
  (forall (before : option ascii) (s : str),
      marker_by same_chr s = true ->
      match_here FORCE_NEWLINE_REGEX false before s = Some (0, None))
  /\ sub FORCE_NEWLINE_REGEX (py "\n") (py "SUBSECTION: 2 body")
     = py "SUB\nSECTION: 2 body"
  /\ parse_fsd_sections (py "SUBSECTION: 2 body") = {[ py "2" := py "body" ]}.
Proof.
  split; [|split; vm_compute; reflexivity].
  intros before s Hm. rewrite match_here_force.
  assert (Hd : drop_while isspace s = s).
  { destruct s as [|c t]; [done|]. simpl.
    destruct (isspace c) eqn:Hc; [|done].
    unfold marker_by in Hm.
    change (py "SECTION") with ("S" :: py "ECTION") in Hm.
    cbn [after_prefix] in Hm.
    by rewrite (proj1 (space_not_S c Hc)) in Hm. }
  by rewrite Hd, Hm, Nat.sub_diag.
Qed.

Lemma marker_found_inside_word_witness :
  match_here FORCE_NEWLINE_REGEX false (Some "B") (py "SECTION: 2 body")
  = Some (0, None).
Proof.
  apply (proj1 marker_found_inside_word (Some "B") (py "SECTION: 2 body")).
  reflexivity.
Defined.

(** * Template blocks *)

Lemma linebreak_is_space (c : ascii) :
  islinebreak c = true -> isspace c = true.
Proof. destruct c as [[] [] [] [] [] [] [] []]; by vm_compute. Qed.

Lemma strip_cons_keep (c : ascii) (t : str) :
  isspace c = false -> strip (c :: t) = c :: rstrip_by isspace t.
Proof.
  intros Hc. unfold strip, strip_by, lstrip_by. simpl. rewrite Hc.
  by apply rstrip_by_cons_keep.
Qed.

(** A block that begins with a non-blank character has that character
    at the start of its first line. *)
Lemma block_lines_head (c : ascii) (t : str) :
  isspace c = false ->
  exists l ls, block_lines (c :: t) = (c :: l) :: ls.
Proof.
  intros Hc. unfold block_lines. rewrite strip_cons_keep by done.
  assert (Hb : islinebreak c = false).
  { destruct (islinebreak c) eqn:E; [|done].
    apply linebreak_is_space in E. congruence. }
  rewrite splitlines_cons_keep by done.
  assert (E : forall l ls,
             List.map strip
               (List.filter (fun l => truthy (strip l)) ((c :: l) :: ls))
             = (c :: rstrip_by isspace l)
               :: List.map strip
                    (List.filter (fun l => truthy (strip l)) ls)).
  { intros l ls. cbn [List.filter]. rewrite strip_cons_keep by done.
    cbn [truthy List.map]. by rewrite strip_cons_keep. }
  destruct (splitlines (rstrip_by isspace t)) as [|l ls]; rewrite E;
    by eexists _, _.
Qed.

(** C7. Parsing one block fails exactly when its lines (the stripped
    non-blank lines the parser works on) do not begin with a line that
    starts with '#'; for a block that begins with a non-blank
    character this is exactly when that character is not '#'.  And
    loading a template file that exists never fails on a block: it
    returns, in order, the template of every block that parses, and
    leaves out the blocks that do not. *)
Theorem template_blocks_fail_alone :
  (forall block : str,
      (exists e, _parse_rag_block block = inl e)
      <-> (forall first, head (block_lines block) = Some first ->
                         startswith (py "#") first = false))
  /\ (forall (c : ascii) (t : str),
         isspace c = false ->
         ((exists e, _parse_rag_block (c :: t) = inl e) <-> c <> "#"))
  /\ (forall (fs : str -> option str) (DEFAULT_RAG_PATH : str)
             (rag_path : option str),
         (exists path, fs path = None
                       /\ load_rag_sections fs DEFAULT_RAG_PATH rag_path
                          = inl (FileNotFoundError
                                   (py "RAG file not found at: " ++ path)))
         \/ (exists path text, fs path = Some text
                /\ load_rag_sections fs DEFAULT_RAG_PATH rag_path
                   = inr (omap parsed_ok
                            (Re.split BLOCK_SPLIT_REGEX (strip text))))).
Proof.
  assert (Hfirst : forall block : str,
      (exists e, _parse_rag_block block = inl e)
      <-> (forall first, head (block_lines block) = Some first ->
                         startswith (py "#") first = false)).
  { intros block. unfold _parse_rag_block.
    destruct (block_lines block) as [|first others].
    + split; [by intros _ first [=]|]. intros _. eauto.
    + change (head (first :: others)) with (Some first).
      destruct (startswith (py "#") first) eqn:Hs; cbn [negb].
      * destruct (keyval_loop_ok others
                    {| keyvals := ∅; current_key := None;
                       current_val_lines := [] |}) as [st' ->].
        split; [by intros [e ?]|]. intros H.
        specialize (H _ eq_refl). congruence.
      * split; [by intros _ ? [= <-]|]. intros _. eauto. }
  split; [exact Hfirst|split].
  - intros c t Hc. rewrite Hfirst.
    destruct (block_lines_head c t Hc) as (l & ls & ->).
    change (head ((c :: l) :: ls)) with (Some (c :: l)).
    assert (Hs : startswith (py "#") (c :: l) = chr_eqb "#" c)
      by apply andb_true_r.
    split.
    + intros H ->. by specialize (H _ eq_refl).
    + intros Hne first [= <-]. rewrite Hs.
      destruct (chr_eqb "#" c) eqn:E; [|done].
      apply Ascii.eqb_eq in E. congruence.
  - intros fs D rag_path. unfold load_rag_sections.
    match goal with |- context [fs ?p] => destruct (fs p) as [text|] eqn:E end.
    + right. eexists _, text. split; [exact E|]. by rewrite load_blocks_omap.
    + left. eexists. split; [exact E|done].
Qed.

Lemma template_blocks_fail_alone_witness :
  (exists e, _parse_rag_block (py "Scope\ntype: text") = inl e)
  /\ (exists e, _parse_rag_block ("S" :: py "cope") = inl e)
  /\ load_rag_sections (fun _ => Some (py "junk\n#A\ntype: table\n#B\n"))
       (py "rag.txt") None
     = inr [ {| name := py "A"; type := py "table"; description := [];
                prompt := []; fields := None |};
             {| name := py "B"; type := py "text"; description := [];
                prompt := []; fields := None |} ].
Proof.
  split; [|split].
  - apply (proj2 (proj1 template_blocks_fail_alone (py "Scope\ntype: text"))).
    intros first [= <-]. reflexivity.
  - apply (proj2 (proj1 (proj2 template_blocks_fail_alone) "S" (py "cope")
                    eq_refl)).
    discriminate.
  - destruct (proj2 (proj2 template_blocks_fail_alone)
                (fun _ => Some (py "junk\n#A\ntype: table\n#B\n"))
                (py "rag.txt") None)
      as [(path & Hnone & _)|(path & text & Hsome & ->)]; [done|].
    injection Hsome as <-. reflexivity.
Defined.

(** * Beyond the claims: the generation loop *)

Lemma generate_ok_is_complete_witness :
  (generate_udd_sections steady_service (fun _ => []) 0
     (py "SECTION: 1\nScope text.") [template "Scope"; template "Design"]
     {| map := {[ py "Scope" := [py "1"] ]} |}
   = inr [(py "Scope", py "Generated."); (py "Design", py "Generated.")])
  /\ [(py "Scope", py "Generated."); (py "Design", py "Generated.")].*1
     = List.map name [template "Scope"; template "Design"].
Proof.
  assert (H : generate_udd_sections steady_service (fun _ => []) 0
                (py "SECTION: 1\nScope text.")
                [template "Scope"; template "Design"]
                {| map := {[ py "Scope" := [py "1"] ]} |}
              = inr [(py "Scope", py "Generated.");
                     (py "Design", py "Generated.")]) by reflexivity.
  split; [exact H|].
  exact (generate_ok_is_complete steady_service (fun _ => []) _ _ 0 _ _ H).
Defined.



Section GenerationContext.
Context {Llm : Type}.
Variable invoke : Llm -> list message -> (exn + response) * Llm.
Variable list_repr : list str -> str.
Variables (fsd_text : str) (mapper : SectionMapper).



End GenerationContext.


(** * Beyond the claims: chunks and tables *)

Lemma no_break_strip (l : str) : no_break l -> no_break (strip l).
Proof.
  intros H. destruct (strip_infix l) as (a & b & E). unfold no_break in *.
  rewrite E in H. apply Forall_app in H as [_ H].
  by apply Forall_app in H as [H _].
Qed.

Lemma truthy_not_nil (s : str) : s <> [] -> truthy s = true.
Proof. by destruct s. Qed.

Lemma table_lines_one (v : str) :
  no_break v -> strip v = v -> v <> [] -> table_lines v = [v].
Proof.
  intros Hnb Hs Hne. unfold table_lines. rewrite splitlines_one by done.
  cbn [List.filter]. rewrite Hs, (truthy_not_nil v Hne).
  cbn [List.map]. by rewrite Hs.
Qed.

Lemma filter_keep_all {A} (f : A -> bool) (l : list A) :
  Forall (fun x => f x = true) l -> List.filter f l = l.
Proof. induction 1 as [|x l Hx _ IH]; [done|]. simpl. by rewrite Hx, IH. Qed.

(** The trimmed non-blank lines of the chunks of a list of lines are
    the trimmed non-blank lines of the list. *)
Lemma chunk_loop_lines (lines : list str) :
  Forall no_break lines ->
  flat_map (fun c : chunk => table_lines c.2) (chunk_loop lines)
  = List.map strip (List.filter (fun l => truthy (strip l)) lines).
Proof.
  remember (length lines) as n eqn:Hn. revert lines Hn.
  induction n as [n IH] using lt_wf_ind. intros lines -> Hnb.
  destruct lines as [|l rest]; [done|].
  apply Forall_cons in Hnb as [Hl Hrest].
  destruct (has_bar l && next_has_bar rest) eqn:E.
  - apply andb_prop in E as [Hb Hnext].
    destruct (bar_run_split rest) as (run & post & -> & Hrun & Hpost).
    apply Forall_app in Hrest as [Hnbrun Hnbpost].
    rewrite chunk_loop_table, table_loop_run by done.
    cbn [flat_map snd].
    rewrite table_lines_of_run; [|done|by constructor|by constructor].
    rewrite (IH (length post));
      [|cbn [length]; rewrite length_app; lia|done|done].
    change (l :: run ++ post) with (([l] ++ run) ++ post).
    rewrite List.filter_app, (filter_keep_all _ ([l] ++ run));
      [by rewrite !List.map_app|].
    apply Forall_cons. split.
    + by apply truthy_not_nil, has_bar_not_blank.
    + eapply Forall_impl; [exact Hrun|]. intros x Hx.
      by apply truthy_not_nil, has_bar_not_blank.
  - rewrite chunk_loop_text by done. rewrite flat_map_app.
    rewrite (IH (length rest)); [|simpl; lia|done|done].
    cbn [List.filter]. destruct (truthy (strip l)) eqn:Ht; [|done].
    cbn [flat_map snd]. rewrite app_nil_r.
    rewrite table_lines_one; [done|by apply no_break_strip|apply strip_idem|].
    by destruct (strip l).
Qed.

(** X3. Chunking loses no line and keeps the order: the trimmed
    non-blank lines of the chunks of a text, one chunk after the
    other, are the trimmed non-blank lines of the text. *)
Theorem chunks_keep_every_line (text : str) :
  flat_map (fun c : chunk => table_lines c.2)
           (find_all_table_like_chunks text)
  = table_lines text.
Proof.
  unfold find_all_table_like_chunks.
  destruct (negb (truthy text) || negb (truthy (strip text))) eqn:E.
  - assert (Hs : strip text = []).
    { destruct text; [done|]. simpl in E. by destruct (strip (a :: text)). }
    apply strip_by_nil_iff in Hs. unfold table_lines.
    symmetry. cbn [flat_map].
    pose proof (splitlines_lines text) as Hall.
    induction Hall as [|l ls [_ Hsub] _ IH]; [done|].
    cbn [List.filter].
    assert (Hl : strip l = []).
    { apply strip_by_nil_iff, Forall_forall. intros x Hx.
      rewrite Forall_forall in Hs. by apply Hs, Hsub. }
    by rewrite Hl.
  - unfold table_lines. apply chunk_loop_lines.
    eapply Forall_impl; [apply splitlines_lines|]. by intros l [H _].
Qed.

Lemma chunk_loop_from (lines : list str) (c : chunk) :
  c ∈ chunk_loop lines -> chunk_from lines c.
Proof.
  remember (length lines) as n eqn:Hn. revert lines Hn.
  induction n as [n IH] using lt_wf_ind. intros lines -> Hc.
  destruct lines as [|l rest]; [by apply elem_of_nil in Hc|].
  assert (Hmono : forall sub, (forall x, x ∈ sub -> x ∈ l :: rest) ->
                              chunk_from sub c -> chunk_from (l :: rest) c).
  { intros sub Hsub. destruct c as [[] v]; simpl.
    - intros (x & Hx & H). exists x. split; [by apply Hsub|done].
    - intros (run & Hlen & Hrun & ->). exists run. repeat split; [done|].
      eapply Forall_impl; [exact Hrun|]. intros x [Hb Hx].
      split; [done|by apply Hsub]. }
  destruct (has_bar l && next_has_bar rest) eqn:E.
  - apply andb_prop in E as [Hb Hnext].
    destruct (bar_run_split rest) as (run & post & -> & Hrun & Hpost).
    rewrite chunk_loop_table, table_loop_run in Hc by done.
    apply elem_of_cons in Hc as [->|Hc].
    + exists ([l] ++ run). split; [|split; [|done]].
      * destruct run; [|simpl; lia].
        change (next_has_bar post = true) in Hnext. congruence.
      * apply Forall_cons. split; [split; [done|by left]|].
        rewrite Forall_forall in Hrun. apply Forall_forall. intros x Hx.
        split; [by apply Hrun|]. right. apply elem_of_app. by left.
    + apply (Hmono post).
      * intros x Hx. right. apply elem_of_app. by right.
      * apply (IH (length post)); [|done|done].
        cbn [length]. rewrite length_app. lia.
  - rewrite chunk_loop_text in Hc by done.
    apply elem_of_app in Hc as [Hc|Hc].
    + destruct (truthy (strip l)) eqn:Ht; [|by apply elem_of_nil in Hc].
      apply list_elem_of_singleton in Hc as ->.
      exists l. split; [by left|]. split; [by destruct (strip l)|done].
    + apply (Hmono rest); [intros x Hx; by right|].
      apply (IH (length rest)); [simpl; lia|done|done].
Qed.

Lemma count_drop_while_space (l : str) :
  count "|" (drop_while isspace l) = count "|" l.
Proof.
  induction l as [|c l IH]; [done|]. simpl drop_while.
  destruct (isspace c) eqn:Hc; [|done]. rewrite IH. unfold count.
  cbn [List.filter]. destruct (chr_eqb "|" c) eqn:E; [|done].
  apply Ascii.eqb_eq in E. by subst c.
Qed.

Lemma count_rev (ch : ascii) (l : str) : count ch (rev l) = count ch l.
Proof.
  unfold count. induction l as [|c l IH]; [done|]. simpl rev.
  rewrite List.filter_app, length_app, IH. cbn [List.filter].
  destruct (chr_eqb ch c); simpl; lia.
Qed.

Lemma has_bar_strip (l : str) : has_bar (strip l) = has_bar l.
Proof.
  unfold has_bar, strip, strip_by, lstrip_by, rstrip_by.
  by rewrite count_rev, count_drop_while_space, count_rev,
     count_drop_while_space.
Qed.

(** X4. What a chunk looks like.  No chunk is empty and every chunk is
    trimmed; a text chunk is a single line; a table chunk has at
    least two lines, each with a bar, so that the test for fewer than
    two lines in [parse_markdown_table] never fires on a chunk. *)
Theorem chunk_shapes (text : str) (c : chunk) :
  c ∈ find_all_table_like_chunks text ->
  c.2 <> [] /\ strip c.2 = c.2
  /\ match c.1 with
     | text_chunk => table_lines c.2 = [c.2]
     | table_chunk =>
         2 <= length (table_lines c.2)
         /\ Forall (fun l => has_bar l = true) (table_lines c.2)
     end.
Proof.
  unfold find_all_table_like_chunks.
  destruct (negb (truthy text) || negb (truthy (strip text)));
    [by intros H; apply elem_of_nil in H|].
  intros Hc. apply chunk_loop_from in Hc.
  pose proof (splitlines_lines text) as Hall. rewrite Forall_forall in Hall.
  destruct c as [[] v]; cbn [fst snd]; simpl in Hc.
  - destruct Hc as (l & Hl & Hne & ->). destruct (Hall l Hl) as [Hnb _].
    split; [done|]. split; [apply strip_idem|].
    apply table_lines_one; [by apply no_break_strip|apply strip_idem|done].
  - destruct Hc as (run & Hlen & Hrun & ->).
    assert (Hne : run <> []) by (destruct run; [simpl in Hlen; lia|done]).
    assert (Hnb : Forall no_break run).
    { eapply Forall_impl; [exact Hrun|]. intros x [_ Hx].
      by destruct (Hall x Hx). }
    assert (Hbar : Forall (fun l => has_bar l = true) run).
    { eapply Forall_impl; [exact Hrun|]. by intros x [Hx _]. }
    pose proof (table_lines_of_run run Hne Hnb Hbar) as Etl.
    split; [|split; [apply strip_idem|]].
    + intros E. rewrite E in Etl. destruct run; [done|discriminate Etl].
    + rewrite Etl, length_map. split; [done|].
      apply Forall_map. eapply Forall_impl; [exact Hbar|].
      intros x Hx. simpl. by rewrite has_bar_strip.
Qed.

Lemma chunk_shapes_witness :
  (table_chunk, py "| a | b |\n| 1 | 2 |")
    ∈ find_all_table_like_chunks (py "Intro\n| a | b |\n| 1 | 2 |\n")
  /\ 2 <= length (table_lines (py "| a | b |\n| 1 | 2 |")).
Proof.
  assert (H : (table_chunk, py "| a | b |\n| 1 | 2 |")
              ∈ find_all_table_like_chunks
                  (py "Intro\n| a | b |\n| 1 | 2 |\n")).
  { assert (E : find_all_table_like_chunks
                  (py "Intro\n| a | b |\n| 1 | 2 |\n")
                = [(text_chunk, py "Intro");
                   (table_chunk, py "| a | b |\n| 1 | 2 |")])
      by (vm_compute; reflexivity).
    rewrite E. right. left. }
  split; [exact H|].
  exact (proj1 (proj2 (proj2 (chunk_shapes _ _ H)))).
Defined.

Lemma split_no_sep (sep : ascii) (s : str) :
  Forall (fun w => ~ In sep w) (Py.split sep s).
Proof.
  induction s as [|c s IH].
  { apply Forall_cons. split; [by intros []|constructor]. }
  simpl.
  destruct (chr_eqb c sep) eqn:E.
  { apply Forall_cons. split; [by intros []|done]. }
  assert (Hc : c <> sep).
  { intros ->. unfold chr_eqb in E. by rewrite Ascii.eqb_refl in E. }
  destruct (Py.split sep s) as [|w ws].
  { apply Forall_cons. split; [by intros [|[]]|constructor]. }
  apply Forall_cons in IH as [Hw Hws]. apply Forall_cons.
  split; [|done]. by intros [|].
Qed.

Lemma split_not_nil (sep : ascii) (s : str) : Py.split sep s <> [].
Proof.
  destruct s as [|c s]; [done|]. simpl.
  destruct (chr_eqb c sep); [done|]. by destruct (Py.split sep s).
Qed.

Lemma table_cells_ok (l : str) :
  table_cells l <> [] /\ Forall cell_ok (table_cells l).
Proof.
  unfold table_cells. split.
  - pose proof (split_not_nil "|" (strip_chr "|" l)) as H.
    by destruct (Py.split "|" (strip_chr "|" l)).
  - apply Forall_map. eapply Forall_impl; [apply split_no_sep|].
    intros w Hw. split; [apply strip_idem|].
    intros Hin. apply Hw. destruct (strip_infix w) as (a & b & E).
    rewrite E. apply in_or_app. right. apply in_or_app. by left.
Qed.


(** X5. A parsed table is rectangular and clean: there is at least one
    column and one data row, every data row has exactly as many cells
    as the header, and every cell is trimmed and holds no bar.  So
    [add_table], which makes one column per header cell and writes
    [row_cells[i]] for every cell of a row, never indexes past a row,
    and the guard [colnames and rows] of [build_document] never turns
    a parsed table down. *)
Theorem parsed_table_is_rectangular (table_md : str) colnames rows :
  parse_markdown_table table_md = Some (colnames, rows) ->
  colnames <> [] /\ rows <> []
  /\ Forall (fun r => length r = length colnames) rows
  /\ Forall (Forall cell_ok) (colnames :: rows)
  /\ render_chunk (table_chunk, table_md) = TableBlock colnames rows.
Proof.
  intros H. assert (Hr := H). unfold parse_markdown_table in H.
  fold (table_lines table_md) in H.
  destruct (length (table_lines table_md) <? 2) eqn:Hlen; [done|].
  apply Nat.ltb_ge in Hlen.
  destruct (table_lines table_md) as [|first [|second more]] eqn:El;
    [done|simpl in Hlen; lia|].
  destruct (negb (startswith (py "|") first)); [done|].
  cbn [List.map] in H.
  destruct (forallb _ _) eqn:Hall in H; [|done].
  injection H as <- <-.
  assert (Hcells : Forall (Forall cell_ok)
                     (table_cells first :: table_cells second
                      :: List.map table_cells more)).
  { change (Forall (Forall cell_ok)
              (List.map table_cells (first :: second :: more))).
    apply Forall_map, Forall_forall. intros l _. apply table_cells_ok. }
  destruct (table_cells_ok first) as [Hne _].
  repeat split; [done|done| |done|].
  - pose proof (proj1 (List.forallb_forall _ _) Hall) as Hall'.
    apply List.Forall_forall.
    intros r Hr'. by apply Nat.eqb_eq, Hall'.
  - unfold render_chunk. rewrite Hr.
    by destruct (table_cells first).
Qed.

Lemma parsed_table_is_rectangular_witness :
  parse_markdown_table (py "| a | b |\n| 1 | 2 |")
  = Some ([py "a"; py "b"], [[py "1"; py "2"]])
  /\ Forall (fun r => length r = 2) [[py "1"; py "2"]].
Proof.
  assert (H : parse_markdown_table (py "| a | b |\n| 1 | 2 |")
              = Some ([py "a"; py "b"], [[py "1"; py "2"]]))
    by reflexivity.
  split; [exact H|].
  exact (proj1 (proj2 (proj2 (parsed_table_is_rectangular _ _ _ H)))).
Defined.

(** * Beyond the claims: what the sectionizer stores *)

Lemma star_states_in (p : ascii -> bool) (pv : option ascii) (s : str)
    (cp : option str) (st : mstate) :
  In st (star_states p pv s cp) ->
  exists d, s = d ++ rest st /\ Forall (fun c => p c = true) d.
Proof.
  revert pv. induction s as [|c t IH]; intros pv H.
  - destruct H as [<-|[]]. by exists [].
  - simpl in H. destruct (p c) eqn:Hc.
    + apply in_app_or in H as [H|[<-|[]]].
      * destruct (IH _ H) as (d & E & Hd). exists (c :: d).
        split; [simpl; by f_equal|by constructor].
      * by exists [].
    + destruct H as [<-|[]]. by exists [].
Qed.

Lemma dotted_ok_digits (d x : str) :
  Forall (fun c => isdigit c = true) d ->
  dotted_ok true (d ++ x) = dotted_ok true x.
Proof. induction 1 as [|c d Hc _ IH]; [done|]. simpl. by rewrite Hc. Qed.

Lemma dotted_ends_ok (n : nat) (s : str) (pv : option ascii)
    (cp : option str) (st : mstate) :
  length s <= n -> In st (dotted_ends pv s cp) ->
  exists a, s = a ++ rest st /\ dotted_ok true a = true.
Proof.
  revert s pv cp st. induction n as [n IH] using lt_wf_ind.
  intros s pv cp st Hlen Hin.
  unfold dotted_ends in Hin. apply in_flat_map in Hin as (st1 & H1 & H2).
  destruct (star_states_in _ _ _ _ _ H1) as (d & E & Hd).
  destruct st1 as [pv1 s1 cp1]. rewrite run_star_dot_group in H2.
  cbn [rest] in E.
  assert (Hself : st = MState pv1 s1 cp1 ->
                  exists a, s = a ++ rest st /\ dotted_ok true a = true).
  { intros ->. exists d. split; [done|].
    by rewrite <- (app_nil_r d), dotted_ok_digits. }
  destruct s1 as [|c [|d' t]].
  1,2: destruct H2 as [<-|[]]; by apply Hself.
  destruct (chr_eqb "." c && isdigit d') eqn:Hcd; cycle 1.
  { destruct H2 as [<-|[]]. by apply Hself. }
  apply in_app_or in H2 as [H2|[<-|[]]]; [|by apply Hself].
  apply andb_prop in Hcd as [Hc Hd'].
  apply Ascii.eqb_eq in Hc. subst c.
  assert (Hlt : length t < n).
  { subst s. rewrite length_app in Hlen. simpl in Hlen. lia. }
  destruct (IH (length t) Hlt t (Some d') _ st (le_n _) H2) as (a & Ea & Ha).
  exists (d ++ "." :: d' :: a). split.
  - subst s. rewrite <- app_assoc. simpl. by rewrite <- Ea.
  - rewrite dotted_ok_digits by done. simpl. by rewrite Hd'.
Qed.

Lemma run_dotted_ok (pv : option ascii) (s : str) (cp : option str)
    (st : mstate) :
  In st (run dotted_number (MState pv s cp)) ->
  exists a, s = a ++ rest st /\ is_section_identifier a = true.
Proof.
  intros H. destruct (starts_with_digit s) eqn:Hs.
  - destruct s as [|d t]; [done|]. simpl in Hs.
    rewrite run_dotted in H by done.
    destruct (dotted_ends_ok (length t) t _ _ _ (le_n _) H) as (a & E & Ha).
    exists (d :: a). split; [simpl; by f_equal|].
    unfold is_section_identifier. simpl. by rewrite Hs.
  - by rewrite dotted_led in H.
Qed.

Lemma in_run_seq (a b : re) (st0 st : mstate) :
  In st (run (Seq a b) st0) ->
  exists st1, In st1 (run a st0) /\ In st (run b st1).
Proof. rewrite run_seq. apply in_flat_map. Qed.

Lemma header_group_ok (must : bool) (pv : option ascii) (s : str)
    (n : nat) (g : option str) :
  match_here SECTION_HEADER_REGEX must pv s = Some (n, g) ->
  exists a, g = Some a /\ is_section_identifier a = true.
Proof.
  unfold match_here. intros H.
  destruct (List.filter _ _) as [|st sts] eqn:E; [done|].
  injection H as _ <-.
  assert (Hin : In st (run SECTION_HEADER_REGEX (MState pv s None))).
  { eapply proj1. apply List.filter_In. rewrite E. by left. }
  unfold SECTION_HEADER_REGEX in Hin.
  apply in_run_seq in Hin as (st1 & _ & Hin).
  apply in_run_seq in Hin as (st2 & _ & Hin).
  apply in_run_seq in Hin as (st3 & _ & Hin).
  apply in_run_seq in Hin as (st4 & _ & Hin).
  apply in_run_seq in Hin as (st5 & _ & Hin).
  apply in_run_seq in Hin as (st6 & _ & Hin).
  rewrite run_grp in Hin. apply in_map_iff in Hin as (st' & <- & Hin).
  destruct st6 as [pv6 s6 cp6].
  destruct (run_dotted_ok _ _ _ _ Hin) as (a & Ea & Ha).
  exists a. split; [|done]. unfold capture. cbn [cap rest].
  rewrite Ea at 2. rewrite Ea at 1. rewrite length_app.
  replace (length a + length (rest st') - length (rest st'))
    with (length a) by lia.
  by rewrite take_app_length.
Qed.

Lemma spans_groups (P : option str -> Prop) (off : nat) (ms : list rmatch) :
  Forall (fun m => P (m_group m)) ms ->
  Forall (fun m => P (group1 m)) (spans off ms).
Proof.
  intros H. revert off.
  induction H as [|m ms Hm _ IH]; intros off; [constructor|].
  simpl. constructor; [done|apply IH].
Qed.

(** What holds of group 1 of every match at a position holds of
    group 1 of every match the scan loop finds. *)
Lemma finditer_groups (r : re) (P : option str -> Prop) (s : str) :
  (forall must pv s' n g, match_here r must pv s' = Some (n, g) -> P g) ->
  Forall (fun m => P (group1 m)) (finditer r s).
Proof.
  intros HP.
  assert (Hsearch : forall s' must pv b e g,
             search r must pv s' = Some (b, e, g) -> P g).
  { induction s' as [|c t IH]; intros must pv b e g H; simpl in H.
    - destruct (match_here r must pv []) as [[n g']|] eqn:E; [|done].
      injection H as _ _ <-. by eapply HP.
    - destruct (match_here r must pv (c :: t)) as [[n g']|] eqn:E.
      + injection H as _ _ <-. by eapply HP.
      + destruct (search r false (Some c) t) as [[[b' e'] g']|] eqn:E';
          [|done].
        injection H as _ _ <-. by eapply IH. }
  assert (Hscan : forall fuel must pv s',
             Forall (fun m => P (m_group m)) (scan fuel r must pv s').1).
  { induction fuel as [|f IH]; intros must pv s'; [constructor|].
    simpl. destruct (search r must pv s') as [[[b e] g]|] eqn:E;
      [|constructor].
    specialize (IH (e =? b) (prev_after pv s' e) (drop e s')).
    destruct (scan f r (e =? b) (prev_after pv s' e) (drop e s'))
      as [ms tl].
    constructor; [by eapply Hsearch|done]. }
  unfold finditer, scan_all. apply spans_groups, Hscan.
Qed.

Lemma dotted_id_trimmed (id : str) :
  is_section_identifier id = true -> strip id = id.
Proof.
  intros H. apply strip_no_space. apply dotted_chars in H.
  eapply Forall_impl; [exact H|]. intros c Hc.
  by destruct (id_char_facts c Hc) as (_ & _ & Hs & _).
Qed.

Lemma last_body_in (id body : str) (entries : list (str * str)) :
  last_body id entries = Some body -> (id, body) ∈ entries.
Proof.
  unfold last_body. intros H.
  destruct (last (filter (fun e : str * str => e.1 = id) entries))
    as [[k v]|] eqn:E; [|done].
  injection H as ->. apply last_Some_elem_of in E.
  apply list_elem_of_filter in E as [Hk Hin]. simpl in Hk. by subst k.
Qed.

Lemma section_entries_ok (text : str) (ms : list span) :
  Forall (fun m => exists a, group1 m = Some a
                             /\ is_section_identifier a = true) ms ->
  Forall (fun e : str * str =>
            is_section_identifier e.1 = true /\ strip e.2 = e.2)
         (section_entries text ms).
Proof.
  induction 1 as [|m ms (a & Ea & Ha) _ IH]; [constructor|].
  cbn [section_entries]. constructor; [|done]. cbn [fst snd].
  rewrite Ea. change (default [] (Some a)) with a.
  rewrite (dotted_id_trimmed a Ha).
  split; [done|apply strip_idem].
Qed.

(** X6. Whatever the text, every identifier of the sectionized FSD is a
    dotted number (digit runs separated by single dots, so never
    empty, never padded, with no other character) and every body is
    trimmed. *)
Theorem sections_are_dotted_and_trimmed (fsd_text id body : str) :
  parse_fsd_sections fsd_text !! id = Some body ->
  is_section_identifier id = true /\ strip body = body.
Proof.
  unfold parse_fsd_sections.
  rewrite section_loop_entries, foldl_insert_lookup, lookup_empty.
  intros H.
  assert (H' : last_body id (fsd_entries fsd_text) = Some body).
  { unfold fsd_entries. by destruct (last_body _ _). }
  apply last_body_in in H'. unfold fsd_entries in H'.
  pose proof (section_entries_ok (normalize fsd_text) _
                (finditer_groups SECTION_HEADER_REGEX _
                   (normalize fsd_text) header_group_ok)) as Hall.
  rewrite Forall_forall in Hall. exact (Hall _ H').
Qed.

Lemma sections_are_dotted_and_trimmed_witness :
  parse_fsd_sections (py "Intro\nsection - 2.10 \n  Scope of work  \n")
    !! py "2.10" = Some (py "Scope of work")
  /\ is_section_identifier (py "2.10") = true
  /\ strip (py "Scope of work") = py "Scope of work".
Proof.
  assert (H : parse_fsd_sections
                (py "Intro\nsection - 2.10 \n  Scope of work  \n")
                !! py "2.10" = Some (py "Scope of work"))
    by (vm_compute; reflexivity).
  split; [exact H|].
  exact (sections_are_dotted_and_trimmed _ _ _ H).
Defined.

(** * Beyond the claims: a text without markers *)

Lemma sub_never (r : re) (repl s : str) :
  never_matches r None s -> sub r repl s = s.
Proof.
  intros H. unfold sub, scan_all.
  replace (2 * length s + 2) with (S (2 * length s + 1)) by lia.
  cbn [scan]. by rewrite (search_never r None s H).
Qed.

Lemma finditer_never (r : re) (s : str) :
  never_matches r None s -> finditer r s = [].
Proof.
  intros H. unfold finditer, scan_all.
  replace (2 * length s + 2) with (S (2 * length s + 1)) by lia.
  cbn [scan]. by rewrite (search_never r None s H).
Qed.

Lemma after_prefix_squeeze (f : ascii -> ascii -> bool) (pat s : str) :
  Forall (fun p => f p LF = false) pat ->
  after_prefix f pat (squeeze false s)
  = squeeze false <$> after_prefix f pat s.
Proof.
  intros Hpat. revert s. induction Hpat as [|p ps Hp _ IH]; intros s; [done|].
  destruct s as [|c t]; [done|]. rewrite squeeze_false_cons.
  destruct (chr_eqb c LF) eqn:Hc.
  - apply Ascii.eqb_eq in Hc. subst c. cbn [after_prefix]. by rewrite Hp.
  - cbn [after_prefix]. destruct (f p c); [apply IH|done].
Qed.

Lemma drop_while_space_squeeze (fl : bool) (r : str) :
  drop_while isspace (squeeze fl r)
  = match drop_while isspace r with
    | [] => []
    | c :: r' => c :: squeeze false r'
    end.
Proof.
  revert fl. induction r as [|c t IH]; intros fl; [done|].
  cbn [squeeze]. destruct (chr_eqb c LF) eqn:Hc.
  - apply Ascii.eqb_eq in Hc. subst c.
    change (drop_while isspace (LF :: t)) with (drop_while isspace t).
    destruct fl; [apply IH|].
    change (drop_while isspace (LF :: squeeze true t))
      with (drop_while isspace (squeeze true t)). apply IH.
  - cbn [drop_while]. destruct (isspace c); [apply IH|done].
Qed.

Lemma marker_by_squeeze (f : ascii -> ascii -> bool) (s : str) :
  Forall (fun p => f p LF = false) (py "SECTION") ->
  marker_by f (squeeze false s) = marker_by f s.
Proof.
  intros Hpat. unfold marker_by. rewrite after_prefix_squeeze by done.
  destruct (after_prefix f (py "SECTION") s) as [s1|]; [|done].
  cbn [fmap option_fmap option_map]. rewrite drop_while_space_squeeze.
  destruct (drop_while isspace s1) as [|c s2]; [done|].
  rewrite drop_while_space_squeeze.
  by destruct (drop_while isspace s2).
Qed.

Lemma section_ci_not_lf :
  Forall (fun p => same_chr_ci p LF = false) (py "SECTION").
Proof. repeat constructor. Qed.

(** Dropping repeated line feeds brings no marker into a text. *)
Lemma marker_free_squeeze (fl : bool) (s : str) :
  marker_free s -> marker_free (squeeze fl s).
Proof.
  intros Hfree a s' E.
  destruct (marker_by same_chr_ci s') eqn:Hm; [exfalso|done].
  revert fl a Hfree E. induction s as [|c t IH]; intros fl a Hfree E.
  - simpl in E. destruct a; [|done]. simpl in E. by subst s'.
  - assert (Hfree' : marker_free t).
    { apply (marker_free_suffix [c]). exact Hfree. }
    assert (Hkeep : forall fl', squeeze fl (c :: t) = c :: squeeze fl' t ->
                                False).
    { intros fl' Esq. rewrite Esq in E. destruct a as [|c' a'].
      - simpl in E. subst s'.
        assert (Esq' : c :: squeeze fl' t = squeeze false (c :: t)).
        { rewrite <- Esq. destruct fl; [|done].
          apply squeeze_true_eq. rewrite chr_eqb_sym.
          cbn [squeeze] in Esq. destruct (chr_eqb c LF) eqn:Hc; [|done].
          exfalso. apply Ascii.eqb_eq in Hc. subst c.
          unfold marker_by in Hm. by destruct (squeeze fl' t). }
        rewrite Esq', marker_by_squeeze in Hm by apply section_ci_not_lf.
        by rewrite (Hfree [] (c :: t) eq_refl) in Hm.
      - injection E as _ E. by apply (IH fl' a'). }
    cbn [squeeze] in Hkeep, E. destruct (chr_eqb c LF) eqn:Hc.
    + apply Ascii.eqb_eq in Hc. subst c.
      destruct fl; [by apply (IH true a)|by apply (Hkeep true)].
    + by apply (Hkeep false).
Qed.

(** X7. A text in which, once the carriage returns are removed, no marker
    starts at any position in any letter case has an empty sectionized
    form, and every UDD section then receives the whole text, whatever
    the mapping says. *)
Theorem no_marker_no_sections (fsd_text : str) :
  has_marker (remove_chr CR fsd_text) = false ->
  parse_fsd_sections fsd_text = ∅
  /\ forall udd_section mapper,
       extract_relevant_fsd_slice fsd_text udd_section mapper = fsd_text.
Proof.
  intros H. apply has_marker_free in H.
  assert (E : parse_fsd_sections fsd_text = ∅).
  { unfold parse_fsd_sections, normalize.
    rewrite (sub_never FORCE_NEWLINE_REGEX) by by apply never_force.
    rewrite sub_empty_lines.
    rewrite finditer_never; [done|].
    by apply never_header, marker_free_squeeze. }
  split; [done|]. intros udd mapper. unfold extract_relevant_fsd_slice.
  rewrite E, collect_none; [done|].
  apply Forall_forall. intros k _. apply lookup_empty.
Qed.

Lemma no_marker_no_sections_witness :
  parse_fsd_sections (py "Section one: scope.\r\n\r\nSECTION A: none.") = ∅.
Proof.
  apply (no_marker_no_sections
           (py "Section one: scope.\r\n\r\nSECTION A: none.")).
  reflexivity.
Defined.

(** * Beyond the claims: the blocks of a template file *)

Lemma match_here_block (must : bool) (pv : option ascii) (s : str) :
  match_here BLOCK_SPLIT_REGEX must pv s
  = match s with
    | c :: c2 :: _ =>
        if chr_eqb LF c && chr_eqb "#" c2 then Some (1, None) else None
    | _ => None
    end.
Proof.
  unfold match_here, BLOCK_SPLIT_REGEX. rewrite run_chr_seq.
  destruct s as [|c [|c2 t]]; [done| |].
  - destruct (chr_eqb LF c); [|done]. by rewrite run_look, run_chr.
  - destruct (chr_eqb LF c); [|done]. rewrite run_look, run_chr.
    destruct (chr_eqb "#" c2); [|done].
    cbn [List.filter]. unfold consumed. cbn [rest length].
    replace (S (S (length t)) - S (length t)) with 1 by lia.
    change (0 <? 1) with true. rewrite orb_true_r.
    cbn [rest cap length andb]. do 2 f_equal. lia.
Qed.

Lemma search_block (must : bool) (pv : option ascii) (s : str)
    (b e : nat) (g : option str) :
  search BLOCK_SPLIT_REGEX must pv s = Some (b, e, g) ->
  exists pre post, s = pre ++ LF :: "#" :: post /\ b = length pre /\ e = S b.
Proof.
  revert must pv b e g. induction s as [|c t IH]; intros must pv b e g H.
  - cbn [search] in H. by rewrite match_here_block in H.
  - rewrite search_cons, match_here_block in H.
    destruct t as [|c2 t'].
    + cbn [search] in H. by rewrite match_here_block in H.
    + destruct (chr_eqb LF c && chr_eqb "#" c2) eqn:E.
      * injection H as <- <- <-. apply andb_prop in E as [E1 E2].
        apply Ascii.eqb_eq in E1, E2. subst c c2. by exists [], t'.
      * destruct (search BLOCK_SPLIT_REGEX false (Some c) (c2 :: t'))
          as [[[b' e'] g']|] eqn:E'; [|done].
        injection H as <- <- <-.
        destruct (IH _ _ _ _ _ E') as (pre & post & Es & -> & ->).
        exists (c :: pre), post. by rewrite Es.
Qed.

(** The pieces of a split at the line feeds before a '#': joined by
    line feeds they are the text again, and every piece after the
    first starts with '#'. *)
Lemma scan_block_pieces (fuel : nat) (must : bool) (pv : option ascii)
    (s : str) :
  length s < fuel ->
  exists p0 ps,
    List.map m_gap (scan fuel BLOCK_SPLIT_REGEX must pv s).1
      ++ [(scan fuel BLOCK_SPLIT_REGEX must pv s).2] = p0 :: ps
    /\ join [LF] (p0 :: ps) = s
    /\ Forall (fun b => exists t, b = "#" :: t) ps
    /\ (forall t, s = "#" :: t -> exists t', p0 = "#" :: t').
Proof.
  revert must pv s. induction fuel as [|f IH]; intros must pv s Hlen; [lia|].
  cbn [scan].
  destruct (search BLOCK_SPLIT_REGEX must pv s) as [[[b e] g]|] eqn:E.
  - destruct (search_block _ _ _ _ _ _ E) as (pre & post & -> & -> & ->).
    assert (Hdrop : drop (S (length pre)) (pre ++ LF :: "#" :: post)
                    = "#" :: post).
    { change (pre ++ LF :: "#" :: post) with (pre ++ [LF] ++ "#" :: post).
      rewrite app_assoc.
      replace (S (length pre)) with (length (pre ++ [LF]))
        by (rewrite length_app; simpl; lia).
      by rewrite drop_app_length. }
    rewrite Hdrop.
    destruct (IH (S (length pre) =? length pre)
                 (prev_after pv (pre ++ LF :: "#" :: post) (S (length pre)))
                 ("#" :: post))
      as (p0 & ps & Ep & Ej & Hps & Hp0).
    { rewrite length_app in Hlen. simpl in Hlen. simpl. lia. }
    destruct (scan f BLOCK_SPLIT_REGEX _ _ ("#" :: post)) as [ms tl].
    cbn [fst snd] in *. cbn [List.map m_gap app]. rewrite Ep.
    exists (take (length pre) (pre ++ LF :: "#" :: post)), (p0 :: ps).
    rewrite take_app_length. split; [done|]. split; [|split].
    + rewrite join_cons2, Ej. done.
    + constructor; [by apply (Hp0 post)|done].
    + intros t Et. destruct pre as [|c pre']; [done|].
      injection Et as -> _. by eexists.
  - exists s, []. cbn [fst snd List.map app]. repeat split; [constructor|].
    intros t ->. by eexists.
Qed.

Lemma hash_block_parses (t : str) :
  truthy (strip ("#" :: t)) = true
  /\ exists section, _parse_rag_block ("#" :: t) = inr section.
Proof.
  split; [by rewrite strip_cons_keep|].
  unfold _parse_rag_block.
  destruct (block_lines_head "#" t eq_refl) as (l & ls & ->).
  change (negb (startswith (py "#") ("#" :: l))) with false. cbn match.
  destruct (keyval_loop_ok ls {| keyvals := ∅; current_key := None;
                                 current_val_lines := [] |}) as [st' ->].
  by eexists.
Qed.

(** X8. Only the text before the first line that starts with '#' can be
    lost from a template file.  The file's text splits into a first
    block and further blocks, which joined by line feeds are the text
    again; every further block starts with '#' and always parses; so
    the loader returns one template for each further block, after the
    template of the first block if that one parses. *)
Theorem only_the_first_block_can_be_dropped (text : str) :
  exists b0 bs,
    Re.split BLOCK_SPLIT_REGEX (strip text) = b0 :: bs
    /\ join (py "\n") (b0 :: bs) = strip text
    /\ Forall (fun b => exists t, b = "#" :: t) bs
    /\ Forall (fun b => is_Some (parsed_ok b)) bs
    /\ length (load_blocks (b0 :: bs))
       = match parsed_ok b0 with Some _ => 1 | None => 0 end + length bs.
Proof.
  destruct (scan_block_pieces (2 * length (strip text) + 2) false None
              (strip text)) as (b0 & bs & Ep & Ej & Hbs & _); [lia|].
  exists b0, bs. unfold Re.split, scan_all.
  destruct (scan _ BLOCK_SPLIT_REGEX false None (strip text)) as [ms tl].
  cbn [fst snd] in Ep. rewrite Ep. split; [done|]. split; [exact Ej|].
  split; [exact Hbs|].
  assert (Hok : Forall (fun b => is_Some (parsed_ok b)) bs).
  { eapply Forall_impl; [exact Hbs|]. intros b [t ->]. unfold parsed_ok.
    destruct (hash_block_parses t) as [_ [sec ->]]. by eexists. }
  split; [exact Hok|].
  rewrite load_blocks_omap. cbn [omap list_omap].
  assert (Hlen : length (omap parsed_ok bs) = length bs).
  { clear -Hok. induction Hok as [|b bs [sec Hb] _ IH]; [done|].
    cbn [omap list_omap]. rewrite Hb. simpl. by rewrite IH. }
  destruct (parsed_ok b0); simpl; by rewrite Hlen.
Qed.

(** * Beyond the claims: the keys and values of a template block *)

Lemma run_plus_chr_seq (p : ascii -> bool) (x : re) (pv : option ascii)
    (s : str) (cp : option str) :
  (forall pv' c t, p c = true -> run x (MState pv' (c :: t) cp) = []) ->
  run (Seq (Plus (Chr p)) x) (MState pv s cp)
  = match s with
    | c :: t => if p c then run x (skip_state p (Some c) t cp) else []
    | [] => []
    end.
Proof.
  intros Hx. unfold Plus. rewrite run_seq_assoc, run_chr_seq.
  destruct s as [|c t]; [done|]. destruct (p c); [|done].
  rewrite run_seq, run_star_chr. by apply star_then_reject.
Qed.

Lemma take_drop_while_cons (p : ascii -> bool) (c : ascii) (t : str) :
  p c = true ->
  take_while p (c :: t) = c :: take_while p t
  /\ drop_while p (c :: t) = drop_while p t.
Proof. intros Hc. simpl. by rewrite Hc. Qed.

(** A line opens a key exactly when it starts with a word and a
    colon. *)
Lemma re_match_key_line (ln : str) :
  match re_match KEY_LINE_REGEX ln with Some _ => true | None => false end
  = key_shape ln.
Proof.
  unfold re_match, match_here, KEY_LINE_REGEX, key_shape.
  rewrite run_bos_seq, run_plus_chr_seq; cycle 1.
  { intros pv' c t Hc. rewrite run_chr_seq.
    destruct (chr_eqb ":" c) eqn:E; [|done].
    apply Ascii.eqb_eq in E. by subst c. }
  destruct ln as [|c t]; [done|].
  destruct (isalpha_us c) eqn:Hc; cycle 1.
  { cbn [List.filter take_while]. by rewrite Hc. }
  destruct (take_drop_while_cons isalpha_us c t Hc) as [-> ->].
  cbn [truthy andb].
  destruct (skip_state_rest isalpha_us (Some c) t None) as [Hrest _].
  destruct (skip_state isalpha_us (Some c) t None) as [pv1 s1 cp1].
  cbn [rest] in Hrest. subst s1. rewrite run_chr_seq.
  destruct (drop_while isalpha_us t) as [|c1 t1]; [done|].
  destruct (chr_eqb ":" c1) eqn:E.
  - apply Ascii.eqb_eq in E. subst c1.
    pose proof (run_star_ne ws (MState (Some ":") t1 cp1)) as Hne.
    cbn [negb orb]. rewrite filter_keep_all by (apply Forall_forall; done).
    by destruct (run (Star ws) _).
  - cbn [List.filter].
    destruct c1 as [[] [] [] [] [] [] [] []]; try done.
Qed.

Lemma split1_first (sep : ascii) (k v : str) :
  ~ In sep k -> split1 sep (k ++ sep :: v) = [k; v].
Proof.
  induction k as [|c k IH]; intros Hk.
  - simpl. unfold chr_eqb. by rewrite Ascii.eqb_refl.
  - simpl. destruct (chr_eqb c sep) eqn:E.
    + apply Ascii.eqb_eq in E. subst c. exfalso. apply Hk. by left.
    + rewrite IH; [done|]. intros H. apply Hk. by right.
Qed.

Lemma alpha_facts (c : ascii) :
  isalpha_us c = true -> c <> ":" /\ isspace c = false.
Proof. destruct c as [[] [] [] [] [] [] [] []]; by vm_compute. Qed.

(** On a key line the key is the word before the colon and the first
    value line is the rest of the line. *)
Lemma key_line_split (ln : str) :
  key_shape ln = true ->
  split1 ":" ln = [take_while isalpha_us ln; drop 1 (drop_while isalpha_us ln)]
  /\ strip (take_while isalpha_us ln) = take_while isalpha_us ln
  /\ is_word (take_while isalpha_us ln) = true.
Proof.
  unfold key_shape. intros H. apply andb_prop in H as [Hne Hcolon].
  pose proof (take_while_all isalpha_us ln) as Hall.
  destruct (drop_while isalpha_us ln) as [|c r] eqn:Ed; [done|].
  destruct (Ascii.eqb_spec c ":") as [->|Hc]; cycle 1.
  { destruct c as [[] [] [] [] [] [] [] []]; done. }
  split; [|split].
  - rewrite <- (take_drop_while isalpha_us ln) at 1. rewrite Ed.
    apply split1_first. intros Hin.
    rewrite Forall_forall in Hall.
    apply list_elem_of_In, Hall, alpha_facts in Hin. by destruct Hin.
  - apply strip_no_space. eapply Forall_impl; [exact Hall|].
    intros c Hc. by apply alpha_facts in Hc as [_ ?].
  - unfold is_word. rewrite Hne. cbn [andb].
    apply forallb_forall. intros c Hc.
    rewrite Forall_forall in Hall. by apply Hall, list_elem_of_In.
Qed.

Lemma keyval_loop_cons (ln : str) (rest : list str) (st : kv_state) :
  keyval_loop (ln :: rest) st
  = if key_shape ln then
      keyval_loop rest
        {| keyvals := keyvals (flush_key st);
           current_key := Some (take_while isalpha_us ln);
           current_val_lines :=
             [strip (drop 1 (drop_while isalpha_us ln))] |}
    else
      keyval_loop rest
        {| keyvals := keyvals st;
           current_key := current_key st;
           current_val_lines := current_val_lines st ++ [strip ln] |}.
Proof.
  cbn [keyval_loop]. pose proof (re_match_key_line ln) as H.
  destruct (key_shape ln) eqn:Hk.
  - destruct (re_match KEY_LINE_REGEX ln); [|done].
    destruct (key_line_split ln Hk) as (-> & -> & _). done.
  - by destruct (re_match KEY_LINE_REGEX ln).
Qed.

Lemma flush_key_clean (st : kv_state) : kv_clean st -> kv_clean (flush_key st).
Proof.
  intros [Hkv Hcur]. unfold flush_key.
  destruct (current_key st) as [k|] eqn:Ek; cycle 1.
  { split; [done|]. intros k. by rewrite Ek. }
  split; [|done]. cbn [keyvals]. intros k' v Hl.
  destruct (decide (k' = k)) as [->|Hne].
  - rewrite lookup_insert_eq in Hl. injection Hl as <-.
    split; [by apply Hcur|apply strip_idem].
  - rewrite lookup_insert_ne in Hl by done. by apply Hkv.
Qed.

Lemma keyval_loop_clean (lines : list str) (st st' : kv_state) :
  kv_clean st -> keyval_loop lines st = inr st' -> kv_clean st'.
Proof.
  revert st. induction lines as [|ln rest IH]; intros st Hst H.
  - injection H as <-. done.
  - rewrite keyval_loop_cons in H. destruct (key_shape ln) eqn:Hk.
    + refine (IH _ _ H).
      destruct (flush_key_clean st Hst) as [Hkv _]. split; [exact Hkv|].
      cbn [current_key]. intros k [= <-]. by apply key_line_split.
    + refine (IH _ _ H). destruct Hst as [Hkv Hcur]. by split.
Qed.

Lemma kv_init_clean :
  kv_clean {| keyvals := ∅; current_key := None; current_val_lines := [] |}
  /\ kv_lf_free
       {| keyvals := ∅; current_key := None; current_val_lines := [] |}.
Proof.
  split; (split; [intros k v H; cbn [keyvals] in H;
                  by rewrite lookup_empty in H|done]).
Qed.

(** X9. Every attribute of a parsed template is trimmed and holds no line
    feed, and so is every value the block's key lines gave; every key
    is a word of letters and underscores. *)
Theorem parsed_template_is_clean (block : str) (section : RagSection) :
  _parse_rag_block block = inr section ->
  Forall (fun v => strip v = v /\ lf_free v)
         [name section; type section; description section; prompt section]
  /\ forall k v, block_keyvals block !! k = Some v ->
                 is_word k = true /\ strip v = v /\ lf_free v.
Proof.
  unfold _parse_rag_block, block_keyvals.
  pose proof (block_lines_lf_free block) as Hlf.
  destruct (block_lines block) as [|first others]; [done|].
  destruct (negb (startswith (py "#") first)); [done|].
  apply Forall_cons in Hlf as [Hfirst Hothers]. cbn [tail].
  destruct kv_init_clean as [Hc0 Hl0].
  destruct (keyval_loop others _) as [e|st] eqn:E; [done|].
  pose proof (flush_key_clean _ (keyval_loop_clean _ _ _ Hc0 E)) as [Hc _].
  pose proof (flush_key_lf_free _ (keyval_loop_lf_free _ _ _ Hothers Hl0 E))
    as [Hl _].
  intros [= <-]. cbn [name type description prompt].
  assert (Hdef : forall d key,
             strip d = d -> lf_free d ->
             strip (default d (keyvals (flush_key st) !! key))
             = default d (keyvals (flush_key st) !! key)
             /\ lf_free (default d (keyvals (flush_key st) !! key))).
  { intros d key Hd1 Hd2.
    destruct (keyvals (flush_key st) !! key) as [v|] eqn:Ev; [|done].
    split; [by apply (Hc key v)|by apply (Hl key v)]. }
  assert (Htext : lf_free (py "text")).
  { intros Hin. repeat destruct Hin as [Hin|Hin]; done. }
  assert (Hnil : lf_free []) by (by intros []).
  split.
  - apply Forall_cons. split; [split; [apply strip_idem|]|].
    { apply lf_free_strip. intros Hin. apply Hfirst.
      destruct first; [done|]. by right. }
    apply Forall_cons. split; [by apply Hdef|].
    apply Forall_cons. split; [by apply Hdef|].
    apply Forall_cons. split; [by apply Hdef|constructor].
  - intros k v H. destruct (Hc k v H). split; [done|]. split; [done|].
    by apply (Hl k v).
Qed.

Lemma parsed_template_is_clean_witness :
  _parse_rag_block (py "# Scope \nprompt:  Describe\n  the scope. \nTYPE_x: 1")
  = inr {| name := py "Scope"; type := py "text"; description := [];
           prompt := py "Describe the scope."; fields := None |}
  /\ strip (py "Describe the scope.") = py "Describe the scope.".
Proof.
  assert (H : _parse_rag_block
                (py "# Scope \nprompt:  Describe\n  the scope. \nTYPE_x: 1")
              = inr {| name := py "Scope"; type := py "text";
                       description := [];
                       prompt := py "Describe the scope.";
                       fields := None |}) by (vm_compute; reflexivity).
  split; [exact H|].
  destruct (parsed_template_is_clean _ _ H) as [Hall _].
  rewrite Forall_forall in Hall.
  apply (Hall (py "Describe the scope.")). cbn [prompt].
  do 3 right. left.
Defined.

Lemma keyval_loop_app (a b : list str) (st : kv_state) :
  keyval_loop (a ++ b) st
  = match keyval_loop a st with
    | inr st' => keyval_loop b st'
    | inl e => inl e
    end.
Proof.
  revert st. induction a as [|l a IH]; intros st; [done|].
  rewrite <- app_comm_cons, !keyval_loop_cons.
  destruct (key_shape l); apply IH.
Qed.

Lemma keyval_loop_conts (conts : list str) (st : kv_state) :
  Forall (fun l => key_shape l = false) conts ->
  keyval_loop conts st
  = inr {| keyvals := keyvals st; current_key := current_key st;
           current_val_lines := current_val_lines st ++ List.map strip conts |}.
Proof.
  intros H. revert st. induction H as [|l conts Hl _ IH]; intros st.
  - cbn [keyval_loop List.map]. rewrite app_nil_r. by destruct st.
  - rewrite keyval_loop_cons, Hl, IH. cbn [keyvals current_key
      current_val_lines List.map]. by rewrite <- app_assoc.
Qed.

Lemma flush_lookup_other (k : str) (st : kv_state) :
  current_key st <> Some k -> keyvals (flush_key st) !! k = keyvals st !! k.
Proof.
  intros H. unfold flush_key. destruct (current_key st) as [k'|]; [|done].
  cbn [keyvals]. apply lookup_insert_ne. congruence.
Qed.

Lemma keyval_loop_keeps (k : str) (lines : list str) (st st' : kv_state) :
  Forall (fun l => key_shape l = true -> take_while isalpha_us l <> k) lines ->
  current_key st <> Some k ->
  keyval_loop lines st = inr st' ->
  keyvals (flush_key st') !! k = keyvals st !! k.
Proof.
  intros H. revert st. induction H as [|l lines Hl _ IH]; intros st Hcur E.
  - injection E as <-. by apply flush_lookup_other.
  - rewrite keyval_loop_cons in E. destruct (key_shape l) eqn:Hk.
    + specialize (Hl eq_refl).
      apply IH in E; [|cbn [current_key]; congruence].
      rewrite E. cbn [keyvals]. by apply flush_lookup_other.
    + apply IH in E; [|done]. by rewrite E.
Qed.

(** X10. The value of a key is the text after the colon of its line and the
    lines that follow up to the next key line, each trimmed, joined by
    single spaces and trimmed again.  Lines before the first key line
    belong to no key. *)
Theorem value_folds_continuation_lines (block first kl : str)
    (pre conts others : list str) :
  block_lines block = first :: pre ++ kl :: conts ++ others ->
  key_shape kl = true ->
  Forall (fun l => key_shape l = false) conts ->
  match others with [] => True | l :: _ => key_shape l = true end ->
  Forall (fun l => key_shape l = true ->
                   take_while isalpha_us l <> take_while isalpha_us kl)
         others ->
  block_keyvals block !! take_while isalpha_us kl
  = Some (strip (join (py " ")
                   (strip (drop 1 (drop_while isalpha_us kl))
                    :: List.map strip conts))).
Proof.
  intros Hlines Hkl Hconts Hnext Hothers. unfold block_keyvals.
  rewrite Hlines. cbn [tail]. rewrite keyval_loop_app.
  destruct (keyval_loop_ok pre {| keyvals := ∅; current_key := None;
                                  current_val_lines := [] |}) as [st1 ->].
  rewrite keyval_loop_cons, Hkl, keyval_loop_app, keyval_loop_conts by done.
  cbn [keyvals current_key current_val_lines app].
  destruct others as [|l others'].
  - cbn [keyval_loop]. unfold flush_key at 1. cbn [current_key keyvals
      current_val_lines]. by rewrite lookup_insert_eq.
  - apply Forall_cons in Hothers as [Hl Hothers'].
    rewrite keyval_loop_cons, Hnext.
    specialize (Hl Hnext).
    match goal with |- context [keyval_loop others' ?s] =>
      destruct (keyval_loop_ok others' s) as [st' E]; rewrite E;
      apply (keyval_loop_keeps _ _ _ _ Hothers') in E;
        [|cbn [current_key]; congruence]
    end.
    rewrite E. cbn [keyvals]. unfold flush_key at 1. cbn [current_key keyvals
      current_val_lines]. by rewrite lookup_insert_eq.
Qed.

Lemma value_folds_continuation_lines_witness :
  block_keyvals (py "#T\nnote\nprompt: Write the\n  scope section.\ntype: text")
    !! py "prompt"
  = Some (py "Write the scope section.").
Proof.
  apply (value_folds_continuation_lines
           (py "#T\nnote\nprompt: Write the\n  scope section.\ntype: text")
           (py "#T") (py "prompt: Write the")
           [py "note"] [py "scope section."] [py "type: text"]).
  - vm_compute. reflexivity.
  - reflexivity.
  - by repeat constructor.
  - reflexivity.
  - repeat constructor. intros _. vm_compute. discriminate.
Defined.

(** * Beyond the claims: writing a template out and reading it back *)

Lemma lines_of_join (run : list str) :
  run <> [] -> Forall no_break run ->
  Forall (fun l => strip l <> []) run ->
  table_lines (strip (join [LF] run)) = List.map strip run.
Proof.
  intros Hne Hnb Hnbl. unfold table_lines.
  destruct run as [|xn init _] using rev_ind; [done|]. clear Hne.
  apply Forall_app in Hnb as [Hnb_i Hnb_x].
  apply Forall_app in Hnbl as [Hnbl_i Hnbl_x].
  apply Forall_inv in Hnb_x. apply Forall_inv in Hnbl_x.
  assert (Hsx : strip (rstrip_by isspace xn) <> [])
    by (unfold strip; by rewrite strip_by_rstrip).
  destruct init as [|x1 mid].
  - simpl. rewrite splitlines_one.
    + rewrite filter_not_blank; [simpl; by rewrite strip_idem|].
      repeat constructor. by rewrite strip_idem.
    + unfold strip, strip_by. by apply no_break_rstrip, no_break_lstrip.
    + done.
  - apply Forall_cons in Hnb_i as [Hnb_1 Hnb_m].
    apply Forall_cons in Hnbl_i as [Hnbl_1 Hnbl_m].
    rewrite strip_join_run by done.
    rewrite splitlines_join.
    + rewrite filter_not_blank.
      * rewrite !map_app. simpl. unfold strip.
        by rewrite strip_by_lstrip, strip_by_rstrip.
      * apply Forall_app. split; [|by repeat constructor].
        constructor; [|done]. unfold strip. by rewrite strip_by_lstrip.
    + apply Forall_app. split.
      * constructor; [by apply no_break_lstrip|done].
      * repeat constructor. by apply no_break_rstrip.
    + by apply rstrip_ne.
Qed.

Lemma rstrip_trimmed (v : str) : strip v = v -> rstrip_by isspace v = v.
Proof.
  intros H. rewrite <- H at 1. unfold strip, strip_by.
  rewrite rstrip_by_idem. exact H.
Qed.

Lemma strip_word_app (k x : str) :
  k <> [] -> Forall (fun c => isspace c = false) k ->
  strip (k ++ x) = k ++ rstrip_by isspace x.
Proof.
  intros Hne Hk. destruct k as [|c k]; [done|].
  apply Forall_cons in Hk as [Hc Hk].
  rewrite <- !app_comm_cons, strip_cons_keep by done. f_equal.
  clear Hne c Hc. induction Hk as [|c k Hc _ IH]; [done|].
  by rewrite <- app_comm_cons, rstrip_by_cons_keep, IH.
Qed.

Lemma while_app_stop (p : ascii -> bool) (k : str) (c : ascii) (r : str) :
  Forall (fun x => p x = true) k -> p c = false ->
  take_while p (k ++ c :: r) = k /\ drop_while p (k ++ c :: r) = c :: r.
Proof.
  intros Hk Hc. induction Hk as [|x k Hx _ [IH1 IH2]].
  - simpl. by rewrite Hc.
  - simpl. rewrite Hx. by rewrite IH1, IH2.
Qed.

Lemma is_word_chars (k : str) :
  is_word k = true ->
  k <> [] /\ Forall (fun c => isalpha_us c = true) k
  /\ Forall (fun c => isspace c = false) k.
Proof.
  unfold is_word. intros H. apply andb_prop in H as [Hne Hall].
  split; [by destruct k|].
  assert (Ha : Forall (fun c => isalpha_us c = true) k).
  { apply Forall_forall. intros c Hc.
    by apply (proj1 (List.forallb_forall _ _) Hall), list_elem_of_In. }
  split; [done|]. eapply Forall_impl; [exact Ha|].
  intros c Hc. by apply alpha_facts in Hc as [_ ?].
Qed.

(** The line of a key and a trimmed value, as the parser reads it. *)
Lemma key_value_line (k v : str) :
  is_word k = true -> strip v = v ->
  let ln := strip (k ++ py ": " ++ v) in
  strip ln <> [] /\ key_shape ln = true
  /\ take_while isalpha_us ln = k
  /\ strip (drop 1 (drop_while isalpha_us ln)) = v.
Proof.
  intros Hk Hv ln. destruct (is_word_chars k Hk) as (Hne & Ha & Hs).
  assert (E : ln = k ++ ":" :: rstrip_by isspace (" " :: v)).
  { unfold ln. rewrite strip_word_app by done.
    change (py ": " ++ v) with (":" :: " " :: v).
    by rewrite rstrip_by_cons_keep. }
  destruct (while_app_stop isalpha_us k ":" (rstrip_by isspace (" " :: v))
              Ha eq_refl) as [Et Ed].
  split; [|split; [|split]].
  - unfold ln. rewrite strip_idem, strip_word_app by done.
    by destruct k.
  - unfold key_shape. rewrite E, Et, Ed. by destruct k.
  - by rewrite E.
  - rewrite E, Ed. cbn [drop]. rewrite drop_0.
    unfold strip. rewrite strip_by_rstrip.
    change (strip ([" "] ++ v) = v).
    by rewrite (strip_app_space [" "] v) by (by repeat constructor).
Qed.

Lemma no_break_app (a b : str) : no_break a -> no_break b -> no_break (a ++ b).
Proof. intros Ha Hb. apply Forall_app. by split. Qed.

Lemma no_break_join (sep : str) (parts : list str) :
  no_break sep -> Forall no_break parts -> no_break (join sep parts).
Proof.
  intros Hsep. induction 1 as [|x parts Hx Hparts IH]; [constructor|].
  destruct parts as [|y parts]; [done|]. rewrite join_cons2.
  by repeat apply no_break_app.
Qed.

Lemma split_no_comma (sep : ascii) (f : str) :
  ~ In sep f -> Py.split sep f = [f].
Proof.
  induction f as [|c f IH]; intros H; [done|]. simpl.
  destruct (chr_eqb c sep) eqn:E.
  - apply Ascii.eqb_eq in E. subst c. exfalso. apply H. by left.
  - rewrite IH; [done|]. intros Hin. apply H. by right.
Qed.

Lemma split_app_sep (sep : ascii) (f x : str) :
  ~ In sep f -> Py.split sep (f ++ sep :: x) = f :: Py.split sep x.
Proof.
  induction f as [|c f IH]; intros H.
  - simpl. unfold chr_eqb. by rewrite Ascii.eqb_refl.
  - simpl. destruct (chr_eqb c sep) eqn:E.
    + apply Ascii.eqb_eq in E. subst c. exfalso. apply H. by left.
    + rewrite IH; [done|]. intros Hin. apply H. by right.
Qed.

Lemma comma_entries_space (x : str) :
  comma_entries (" " :: x) = comma_entries x.
Proof.
  unfold comma_entries. cbn [Py.split].
  change (chr_eqb " " ",") with false. cbn match.
  pose proof (split_not_nil "," x) as Hne.
  destruct (Py.split "," x) as [|w ws]; [done|]. cbn [List.map].
  change (" " :: w) with ([" "] ++ w).
  by rewrite strip_app_space by (by repeat constructor).
Qed.

(** A comma list of trimmed non-empty entries reads back as its
    entries. *)
Lemma comma_entries_join (fs : list str) :
  Forall plain_field fs -> comma_entries (join (py ", ") fs) = fs.
Proof.
  induction 1 as [|f fs (Hne & [Hs _] & Hc) _ IH]; [done|].
  destruct fs as [|g fs].
  - cbn [join]. unfold comma_entries. rewrite split_no_comma by done.
    cbn [List.map]. rewrite Hs. cbn [List.filter].
    by rewrite truthy_not_nil.
  - rewrite join_cons2. change (py ", " ++ ?x) with ("," :: " " :: x).
    unfold comma_entries. rewrite split_app_sep by done.
    cbn [List.map]. rewrite Hs. cbn [List.filter].
    rewrite truthy_not_nil by done. f_equal.
    change (comma_entries (" " :: join (py ", ") (g :: fs)) = g :: fs).
    by rewrite comma_entries_space.
Qed.

Lemma bracketed_list (fs : list str) :
  Forall plain_field fs ->
  let raw := py "[" ++ join (py ", ") fs ++ py "]" in
  strip raw = raw /\ parse_fields raw = fs.
Proof.
  intros Hfs raw.
  assert (Hnb : no_break raw).
  { unfold raw. apply no_break_app; [by repeat constructor|].
    apply no_break_app; [|by repeat constructor].
    apply no_break_join; [by repeat constructor|].
    eapply Forall_impl; [exact Hfs|]. by intros f (_ & [_ ?] & _). }
  split.
  - unfold raw. change (py "[" ++ ?x) with ("[" :: x).
    rewrite strip_cons_keep by done. f_equal.
    by rewrite rstrip_by_app_keep.
  - rewrite parse_fields_entries; cycle 1.
    { intros Hin. unfold no_break in Hnb. rewrite Forall_forall in Hnb.
      by specialize (Hnb LF (proj2 (list_elem_of_In _ _) Hin)). }
    unfold raw, unbracket. change (py "[" ++ ?x) with ("[" :: x).
    change (py "]") with ["]"]. cbv beta iota.
    rewrite last_snoc, length_app.
    cbn [length]. replace (length (join (py ", ") fs) + 1 - 1)
      with (length (join (py ", ") fs)) by lia.
    rewrite take_app_length. by apply comma_entries_join.
Qed.

Lemma keyval_loop_pairs (kvs : list (str * str)) (st : kv_state) :
  Forall (fun kv : str * str => is_word kv.1 = true /\ strip kv.2 = kv.2)
         kvs ->
  exists st',
    keyval_loop
      (List.map (fun kv : str * str => strip (kv.1 ++ py ": " ++ kv.2)) kvs)
      st = inr st'
    /\ keyvals (flush_key st')
       = foldl (fun d kv => <[kv.1 := kv.2]> d) (keyvals (flush_key st)) kvs.
Proof.
  intros H. revert st. induction H as [|[k v] kvs [Hk Hv] _ IH]; intros st.
  - by exists st.
  - cbn [List.map fst snd] in *.
    destruct (key_value_line k v Hk Hv) as (_ & Hshape & Ekey & Eval).
    rewrite keyval_loop_cons, Hshape, Ekey, Eval.
    match goal with |- context [keyval_loop _ ?s] =>
      destruct (IH s) as (st' & E & Ekv) end.
    exists st'. split; [exact E|]. rewrite Ekv. cbn [foldl fst snd].
    f_equal. unfold flush_key at 1.
    cbn [current_key keyvals current_val_lines join]. by rewrite Hv.
Qed.

Lemma template_kvs_ok (s : RagSection) :
  plain_template s ->
  Forall (fun kv : str * str =>
            (is_word kv.1 = true /\ strip kv.2 = kv.2) /\ no_break kv.2)
         (template_kvs s).
Proof.
  intros (_ & [Ht1 Ht2] & [Hd1 Hd2] & [Hp1 Hp2] & Hf). unfold template_kvs.
  apply Forall_app. split; [by repeat constructor|].
  destruct (fields s) as [fs|]; [|constructor].
  apply Forall_cons. split; [|constructor]. cbn [fst snd].
  split; [split; [done|]|].
  - exact (proj1 (bracketed_list fs Hf)).
  - apply no_break_app; [by repeat constructor|].
    apply no_break_app; [|by repeat constructor].
    apply no_break_join; [by repeat constructor|].
    eapply Forall_impl; [exact Hf|]. by intros f (_ & [_ ?] & _).
Qed.

Lemma template_lines_kvs (s : RagSection) :
  template_lines s
  = ("#" :: name s)
    :: List.map (fun kv : str * str => kv.1 ++ py ": " ++ kv.2)
                (template_kvs s).
Proof.
  unfold template_lines, template_kvs. rewrite List.map_app.
  by destruct (fields s).
Qed.

Lemma template_parses_back (s : RagSection) :
  plain_template s -> _parse_rag_block (template_text s) = inr s.
Proof.
  intros Hs. pose proof (template_kvs_ok s Hs) as Hkvs.
  destruct Hs as ([Hn1 Hn2] & _ & _ & _ & Hf).
  assert (Hlines : block_lines (template_text s)
                   = ("#" :: name s)
                     :: List.map (fun kv : str * str =>
                                    strip (kv.1 ++ py ": " ++ kv.2))
                                 (template_kvs s)).
  { change (block_lines (template_text s))
      with (table_lines (strip (join [LF] (template_lines s)))).
    rewrite lines_of_join, template_lines_kvs.
    - cbn [List.map]. rewrite List.map_map.
      rewrite strip_cons_keep by done. by rewrite rstrip_trimmed.
    - by rewrite template_lines_kvs.
    - rewrite template_lines_kvs. constructor.
      + apply (no_break_app ["#"]); [by repeat constructor|done].
      + apply Forall_map. eapply Forall_impl; [exact Hkvs|].
        intros [k v] [[Hk _] Hv]. cbn [fst snd] in *.
        apply no_break_app; [|apply no_break_app; [by repeat constructor|done]].
        destruct (is_word_chars k Hk) as (_ & Ha & _).
        eapply Forall_impl; [exact Ha|].
        intros c Hc. by destruct c as [[] [] [] [] [] [] [] []].
    - rewrite template_lines_kvs. constructor.
      + by rewrite strip_cons_keep.
      + apply Forall_map. eapply Forall_impl; [exact Hkvs|].
        intros [k v] [[Hk Hv] _]. cbn [fst snd] in *.
        destruct (key_value_line k v Hk Hv) as (Hne & _).
        intros E. apply Hne. by rewrite E. }
  unfold _parse_rag_block. rewrite Hlines.
  change (negb (startswith (py "#") ("#" :: name s))) with false.
  cbn match. cbn [drop]. rewrite drop_0.
  destruct (keyval_loop_pairs (template_kvs s)
              {| keyvals := ∅; current_key := None;
                 current_val_lines := [] |}) as (st' & -> & ->).
  { eapply Forall_impl; [exact Hkvs|]. by intros kv [? _]. }
  f_equal. destruct s as [n t d p f]. cbn [name type description prompt
    fields] in *. unfold template_kvs. cbn [type description prompt fields].
  change (keyvals (flush_key {| keyvals := ∅; current_key := None;
                                current_val_lines := [] |}))
    with (∅ : gmap str str).
  rewrite Hn1.
  destruct f as [fs|]; cbn [app foldl fst snd].
  - rewrite (lookup_insert_ne _ (py "fields") (py "type")) by done.
    rewrite (lookup_insert_ne _ (py "fields") (py "description")) by done.
    rewrite (lookup_insert_ne _ (py "fields") (py "prompt")) by done.
    rewrite (lookup_insert_ne _ (py "prompt") (py "type")) by done.
    rewrite (lookup_insert_ne _ (py "prompt") (py "description")) by done.
    rewrite (lookup_insert_ne _ (py "description") (py "type")) by done.
    rewrite !lookup_insert_eq. cbn [default from_option id fmap option_fmap
      option_map]. by rewrite (proj2 (bracketed_list fs Hf)).
  - rewrite (lookup_insert_ne _ (py "prompt") (py "type")) by done.
    rewrite (lookup_insert_ne _ (py "prompt") (py "description")) by done.
    rewrite (lookup_insert_ne _ (py "prompt") (py "fields")) by done.
    rewrite (lookup_insert_ne _ (py "description") (py "type")) by done.
    rewrite (lookup_insert_ne _ (py "description") (py "fields")) by done.
    rewrite (lookup_insert_ne _ (py "type") (py "fields")) by done.
    by rewrite !lookup_insert_eq, lookup_empty.
Qed.

(** X11. Writing a template out and parsing the text gives the template
    back, when its attributes fit on a line as they are (trimmed, no
    line break) and its fields are non-empty, trimmed and hold no
    comma. *)
Theorem template_roundtrip (s : RagSection) :
  plain_template s -> _parse_rag_block (template_text s) = inr s.
Proof. apply template_parses_back. Qed.

Lemma template_roundtrip_witness :
  _parse_rag_block
    (py "#Data Model\ntype: table\ndescription: Tables: used\nprompt: \nfields: [Name, Type]")
  = inr {| name := py "Data Model"; type := py "table";
           description := py "Tables: used"; prompt := [];
           fields := Some [py "Name"; py "Type"] |}.
Proof.
  apply (template_roundtrip
           {| name := py "Data Model"; type := py "table";
              description := py "Tables: used"; prompt := [];
              fields := Some [py "Name"; py "Type"] |}).
  assert (Hplain : forall v : str,
             strip v = v -> forallb (fun c => negb (islinebreak c)) v = true ->
             plain_attr v).
  { intros v Hv Hb. split; [done|]. apply Forall_forall. intros c Hc.
    apply list_elem_of_In in Hc.
    apply (proj1 (List.forallb_forall _ _) Hb) in Hc.
    by destruct (islinebreak c). }
  repeat split; cbn [name type description prompt fields];
    try (apply Hplain; reflexivity).
  repeat constructor; try done; try (apply Hplain; reflexivity).
  all: intros Hin; repeat destruct Hin as [Hin|Hin]; done.
Defined.

Lemma search_block_none (s : str) (must : bool) (pv : option ascii) :
  has_hash_line s = false -> search BLOCK_SPLIT_REGEX must pv s = None.
Proof.
  revert must pv. induction s as [|c t IH]; intros must pv H.
  - cbn [search]. by rewrite match_here_block.
  - cbn [has_hash_line] in H. apply orb_false_elim in H as [H1 H2].
    rewrite search_cons, match_here_block, IH by done.
    destruct t as [|c2 t]; [done|]. by rewrite H1.
Qed.

Lemma search_block_first (b post : str) (must : bool) (pv : option ascii) :
  has_hash_line b = false ->
  search BLOCK_SPLIT_REGEX must pv (b ++ LF :: "#" :: post)
  = Some (length b, S (length b), None).
Proof.
  revert must pv. induction b as [|c b IH]; intros must pv H.
  - cbn [app]. by rewrite search_cons, match_here_block.
  - cbn [has_hash_line] in H. apply orb_false_elim in H as [H1 H2].
    rewrite <- app_comm_cons, search_cons, match_here_block, IH by done.
    destruct b as [|c2 b]; cbn [app length].
    + by rewrite andb_false_r.
    + by rewrite H1.
Qed.

Lemma drop_past (b x : str) (c : ascii) :
  drop (S (length b)) (b ++ c :: x) = x.
Proof.
  change (b ++ c :: x) with (b ++ [c] ++ x). rewrite app_assoc.
  replace (S (length b)) with (length (b ++ [c]))
    by (rewrite length_app; simpl; lia).
  by rewrite drop_app_length.
Qed.

Lemma join_hash_head (t : str) (bs : list str) :
  exists post, join [LF] (("#" :: t) :: bs) = "#" :: post.
Proof. destruct bs; by eexists. Qed.

(** Blocks that start with '#' and hold no other line starting with
    '#' are what the split finds in their join. *)
Lemma split_blocks (bs : list str) :
  bs <> [] ->
  Forall (fun b => has_hash_line b = false) bs ->
  Forall (fun b => exists t, b = "#" :: t) (tail bs) ->
  Re.split BLOCK_SPLIT_REGEX (join [LF] bs) = bs.
Proof.
  intros Hne Hin Htl.
  assert (H : forall fuel must pv,
             length (join [LF] bs) < fuel ->
             List.map m_gap (scan fuel BLOCK_SPLIT_REGEX must pv
                               (join [LF] bs)).1
             ++ [(scan fuel BLOCK_SPLIT_REGEX must pv (join [LF] bs)).2]
             = bs).
  { destruct bs as [|b bs]; [done|]. clear Hne.
    revert b Hin Htl. induction bs as [|b2 bs IH];
      intros b Hin Htl fuel must pv Hlen.
    - destruct fuel; [lia|]. apply Forall_cons in Hin as [Hb Hin].
      cbn [join scan]. by rewrite search_block_none.
    - destruct fuel; [lia|]. apply Forall_cons in Hin as [Hb Hin].
      cbn [tail] in Htl.
      pose proof Htl as Htl'. apply Forall_cons in Htl' as [[t ->] Htl'].
      rewrite join_cons2 in *.
      destruct (join_hash_head t bs) as [post Ep].
      rewrite Ep in Hlen |- *. change ([LF] ++ ?x) with (LF :: x) in *.
      cbn [scan]. rewrite search_block_first by done.
      rewrite drop_past, take_app_length, <- Ep.
      specialize (IH ("#" :: t) Hin Htl' fuel (S (length b) =? length b)
                     (prev_after pv (b ++ LF :: join [LF] (("#" :: t) :: bs))
                                 (S (length b)))).
      destruct (scan fuel _ _ _ (join [LF] (("#" :: t) :: bs)))
        as [ms tl].
      cbn [fst snd List.map m_gap app] in *. f_equal. apply IH.
      rewrite Ep. rewrite length_app in Hlen. simpl in Hlen. simpl. lia. }
  unfold Re.split, scan_all.
  specialize (H (2 * length (join [LF] bs) + 2) false None ltac:(lia)).
  by destruct (scan _ _ _ _ _).
Qed.

Lemma hash_line_app_lf (l x : str) :
  ~ In LF l ->
  has_hash_line (l ++ LF :: x)
  = match x with c :: _ => chr_eqb "#" c | [] => false end || has_hash_line x.
Proof.
  induction l as [|c l IH]; intros Hl; [reflexivity|].
  rewrite <- app_comm_cons. cbn [has_hash_line]. unfold chr_eqb at 1.
  destruct (Ascii.eqb_spec LF c) as [<-|Hc]; [exfalso; apply Hl; by left|].
  rewrite IH; [done|]. intros Hin. apply Hl. by right.
Qed.

Lemma hash_line_none (l : str) : ~ In LF l -> has_hash_line l = false.
Proof.
  induction l as [|c l IH]; intros Hl; [done|]. cbn [has_hash_line].
  unfold chr_eqb at 1.
  destruct (Ascii.eqb_spec LF c) as [<-|Hc]; [exfalso; apply Hl; by left|].
  apply IH. intros Hin. apply Hl. by right.
Qed.

Lemma hash_line_prefix (a b : str) :
  has_hash_line (a ++ b) = false -> has_hash_line a = false.
Proof.
  induction a as [|c a IH]; [done|]. rewrite <- app_comm_cons.
  cbn [has_hash_line]. intros H. apply orb_false_elim in H as [H1 H2].
  rewrite (IH H2), orb_false_r. destruct a as [|c2 a]; [|exact H1].
  by rewrite andb_false_r.
Qed.

Lemma no_break_no_lf (l : str) : no_break l -> ~ In LF l.
Proof.
  intros H Hin. unfold no_break in H. rewrite Forall_forall in H.
  by specialize (H LF (proj2 (list_elem_of_In _ _) Hin)).
Qed.

Lemma template_lines_plain (s : RagSection) :
  plain_template s ->
  Forall no_break (template_lines s)
  /\ Forall (fun l => match l with c :: _ => chr_eqb "#" c = false
                                 | [] => True end)
            (tail (template_lines s)).
Proof.
  intros Hs. pose proof (template_kvs_ok s Hs) as Hkvs.
  destruct Hs as ([_ Hn] & _). rewrite template_lines_kvs. cbn [tail]. split.
  - constructor; [apply (no_break_app ["#"]); [by repeat constructor|done]|].
    apply Forall_map. eapply Forall_impl; [exact Hkvs|].
    intros [k v] [[Hk _] Hv]. cbn [fst snd] in *.
    apply no_break_app; [|apply no_break_app; [by repeat constructor|done]].
    destruct (is_word_chars k Hk) as (_ & Ha & _).
    eapply Forall_impl; [exact Ha|].
    intros c Hc. by destruct c as [[] [] [] [] [] [] [] []].
  - apply Forall_map. eapply Forall_impl; [exact Hkvs|].
    intros [k v] [[Hk _] _]. cbn [fst snd] in *.
    destruct (is_word_chars k Hk) as (Hne & Ha & _).
    destruct k as [|c k]; [done|]. apply Forall_cons in Ha as [Hc _].
    cbn [app]. by destruct c as [[] [] [] [] [] [] [] []].
Qed.

Lemma join_lines_no_hash (lines : list str) :
  Forall no_break lines ->
  Forall (fun l => match l with c :: _ => chr_eqb "#" c = false
                              | [] => True end) (tail lines) ->
  has_hash_line (join [LF] lines) = false.
Proof.
  intros Hnb. induction Hnb as [|l lines Hl Hnb IH]; intros Htl; [done|].
  cbn [tail] in Htl. destruct lines as [|l2 lines].
  - by apply hash_line_none, no_break_no_lf.
  - rewrite join_cons2. change ([LF] ++ ?x) with (LF :: x).
    rewrite hash_line_app_lf by by apply no_break_no_lf.
    pose proof Htl as Htl'. apply Forall_cons in Htl' as [Hl2 Htl'].
    rewrite IH; cycle 1.
    { cbn [tail]. exact Htl'. }
    rewrite orb_false_r. destruct l2 as [|c l2].
    + by destruct lines.
    + by destruct lines.
Qed.

Lemma template_text_shape (s : RagSection) :
  plain_template s ->
  (exists t, template_text s = "#" :: t)
  /\ has_hash_line (template_text s) = false.
Proof.
  intros Hs. destruct (template_lines_plain s Hs) as [Hnb Htl]. split.
  - unfold template_text. rewrite template_lines_kvs. apply join_hash_head.
  - by apply join_lines_no_hash.
Qed.

Lemma strip_join_blocks (init : list str) (xn : str) :
  Forall (fun b => exists t, b = "#" :: t) (init ++ [xn]) ->
  strip (join [LF] (init ++ [xn])) = join [LF] (init ++ [rstrip_by isspace xn]).
Proof.
  intros H. apply Forall_app in H as [Hinit Hxn].
  apply Forall_inv in Hxn as [tn ->].
  destruct init as [|x1 mid].
  - cbn [app join]. by rewrite strip_cons_keep, rstrip_by_cons_keep.
  - apply Forall_cons in Hinit as [[t1 ->] _].
    rewrite strip_join_run; [done| |]; by rewrite strip_cons_keep.
Qed.

Lemma parse_rag_block_strip_eq (b b' : str) :
  strip b' = strip b -> _parse_rag_block b' = _parse_rag_block b.
Proof.
  intros H. unfold _parse_rag_block, block_lines. by rewrite H.
Qed.

(** X12. A template file written from a list of plain templates, one after
    the other, loads as that list: no template is lost, added, merged
    or reordered. *)
Theorem template_file_roundtrip (fs : str -> option str)
    (DEFAULT_RAG_PATH path : str) (sections : list RagSection) :
  Forall plain_template sections ->
  path <> [] ->
  fs path = Some (join (py "\n") (List.map template_text sections)) ->
  load_rag_sections fs DEFAULT_RAG_PATH (Some path) = inr sections.
Proof.
  intros Hs Hpath Hfs. unfold load_rag_sections.
  rewrite truthy_not_nil, Hfs by done. f_equal.
  destruct sections as [|sn init _] using rev_ind; [done|].
  apply Forall_app in Hs as [Hinit Hsn]. apply Forall_inv in Hsn.
  assert (Hshape : Forall (fun b => (exists t, b = "#" :: t)
                                    /\ has_hash_line b = false)
                          (List.map template_text init)).
  { apply Forall_map. eapply Forall_impl; [exact Hinit|].
    intros s. apply template_text_shape. }
  destruct (template_text_shape sn Hsn) as [[tn En] Hhn].
  rewrite List.map_app. cbn [List.map].
  rewrite strip_join_blocks; cycle 1.
  { apply Forall_app. split; [|repeat constructor; by eexists].
    eapply Forall_impl; [exact Hshape|]. by intros b [? _]. }
  assert (Hlast : (exists t, rstrip_by isspace (template_text sn) = "#" :: t)
                  /\ has_hash_line (rstrip_by isspace (template_text sn))
                     = false).
  { split.
    - rewrite En, rstrip_by_cons_keep by done. by eexists.
    - destruct (rstrip_by_prefix isspace (template_text sn)) as [b Hb].
      rewrite Hb in Hhn. by apply hash_line_prefix in Hhn. }
  rewrite split_blocks; cycle 1.
  { by destruct (List.map template_text init). }
  { apply Forall_app. split; [|repeat constructor; apply Hlast].
    eapply Forall_impl; [exact Hshape|]. by intros b [_ ?]. }
  { assert (Hall : Forall (fun b => exists t, b = "#" :: t)
                     (List.map template_text init
                      ++ [rstrip_by isspace (template_text sn)])).
    { apply Forall_app. split; [|repeat constructor; apply Hlast].
      eapply Forall_impl; [exact Hshape|]. by intros b [? _]. }
    destruct (List.map template_text init ++ _); [constructor|].
    by apply Forall_cons in Hall as [_ ?]. }
  rewrite load_blocks_omap, omap_app. f_equal.
  - clear -Hinit. induction Hinit as [|s init Hs _ IH]; [done|].
    cbn [List.map omap list_omap]. unfold parsed_ok at 1.
    by rewrite template_parses_back, IH.
  - cbn [omap list_omap]. unfold parsed_ok.
    rewrite (parse_rag_block_strip_eq (template_text sn)).
    + by rewrite template_parses_back.
    + unfold strip. apply strip_by_rstrip.
Qed.

Lemma template_file_roundtrip_witness :
  load_rag_sections
    (fun p => if decide (p = py "rag.txt")
              then Some (py "#Scope\ntype: text\ndescription: \nprompt: Describe the scope.\n#Data\ntype: table\ndescription: \nprompt: \nfields: [Name, Type]")
              else None)
    (py "default.txt") (Some (py "rag.txt"))
  = inr [ {| name := py "Scope"; type := py "text"; description := [];
             prompt := py "Describe the scope."; fields := None |};
          {| name := py "Data"; type := py "table"; description := [];
             prompt := []; fields := Some [py "Name"; py "Type"] |} ].
Proof.
  apply template_file_roundtrip; [|done|by vm_compute].
  assert (Hplain : forall v : str,
             strip v = v -> forallb (fun c => negb (islinebreak c)) v = true ->
             plain_attr v).
  { intros v Hv Hb. split; [done|]. apply Forall_forall. intros c Hc.
    apply list_elem_of_In in Hc.
    apply (proj1 (List.forallb_forall _ _) Hb) in Hc.
    by destruct (islinebreak c). }
  repeat constructor; cbn [name type description prompt fields];
    try done; try (apply Hplain; reflexivity).
  all: intros Hin; repeat destruct Hin as [Hin|Hin]; done.
Defined.

(** * Beyond the claims: subsection headings *)

Lemma run_heading_end (pv : option ascii) (s : str) (cp : option str) :
  match run (Seq (Alt (Chr (chr_eqb ".")) Eps) ws) (MState pv s cp) with
  | [] => false
  | _ :: _ => true
  end
  = match s with
    | c :: r =>
        isspace c
        || (chr_eqb "." c
            && match r with c2 :: _ => isspace c2 | [] => false end)
    | [] => false
    end.
Proof.
  rewrite run_seq. cbn [run rest]. destruct s as [|c r]; [done|].
  destruct (chr_eqb "." c) eqn:Ec.
  - apply Ascii.eqb_eq in Ec. subst c. cbn [app flat_map advance rest run ws].
    destruct r as [|c2 r]; [done|]. by destruct (isspace c2).
  - cbn [app flat_map run ws rest]. destruct (isspace c); [done|].
    by rewrite orb_false_r.
Qed.

Lemma heading_end_rejects_digit (pv : option ascii) (c : ascii) (t : str)
    (cp : option str) :
  isdigit c = true ->
  run (Seq (Alt (Chr (chr_eqb ".")) Eps) ws) (MState pv (c :: t) cp) = [].
Proof.
  intros Hc. rewrite run_seq. cbn [run rest].
  destruct (chr_eqb "." c) eqn:Ec.
  { apply Ascii.eqb_eq in Ec. by subst c. }
  cbn [app flat_map run ws rest].
  by rewrite (proj1 (not_true_iff_false _)
                (fun H => eq_true_false_abs _ Hc
                            (space_not_digit c H))).
Qed.

(** X13. A text chunk is set in bold exactly when, trimmed, it starts with
    a digit run, a dot and a digit run followed by a blank or by a dot
    and a blank.  The number alone, with nothing after it, is no
    heading. *)
Theorem subsection_heading_shape (text : str) :
  is_subsection_heading text = heading_shape (strip text).
Proof.
  unfold is_subsection_heading, re_match, match_here, heading_shape.
  generalize (strip text). intros s.
  rewrite filter_keep_all by (apply Forall_forall; done).
  unfold SUBSECTION_REGEX. rewrite run_bos_seq.
  unfold digit. rewrite run_plus_chr_seq; cycle 1.
  { intros pv' c t Hc. rewrite run_chr_seq.
    destruct (chr_eqb "." c) eqn:Ec; [|done].
    apply Ascii.eqb_eq in Ec. by subst c. }
  destruct s as [|c t]; [done|]. cbn [starts_with_digit drop_while].
  destruct (isdigit c) eqn:Hc; [|done]. cbn [andb].
  destruct (skip_state_rest isdigit (Some c) t None) as [Hrest Hcap].
  destruct (skip_state isdigit (Some c) t None) as [pv1 s1 cp1].
  cbn [rest cap] in Hrest, Hcap. subst s1 cp1. rewrite run_chr_seq.
  destruct (drop_while isdigit t) as [|c1 s2]; [done|].
  destruct (chr_eqb "." c1) eqn:Ec1; cycle 1.
  { destruct c1 as [[] [] [] [] [] [] [] []]; done. }
  apply Ascii.eqb_eq in Ec1. subst c1.
  rewrite run_plus_chr_seq by (intros; by apply heading_end_rejects_digit).
  destruct s2 as [|c2 t2]; [done|]. cbn [starts_with_digit drop_while].
  destruct (isdigit c2) eqn:Hc2; [|done]. cbn [andb].
  destruct (skip_state_rest isdigit (Some c2) t2 None) as [Hrest Hcap].
  destruct (skip_state isdigit (Some c2) t2 None) as [pv3 s3 cp3].
  cbn [rest cap] in Hrest, Hcap. subst s3 cp3.
  rewrite <- run_heading_end with (pv := pv3) (cp := None).
  by destruct (run _ _).
Qed.

(** * Beyond the claims: the document *)








Lemma find_in_pairs (pairs : list (str * str)) (title : str) :
  find_section_content (_pairs_to_builder_structures pairs).1 (Some title)
  = inr (first_text pairs title).
Proof.
  unfold _pairs_to_builder_structures, first_text. cbn [fst].
  induction pairs as [|[t x] pairs IH]; [done|].
  cbn [List.map find_section_content List.find fst snd].
  rewrite lookup_insert_eq. cbn [default from_option id].
  fold (title_key t) (title_key title).
  destruct (decide (title_key t = title_key title)) as [E|E].
  - rewrite (bool_decide_eq_true_2 _ E).
    rewrite lookup_insert_ne by done. by rewrite lookup_singleton_eq.
  - rewrite (bool_decide_eq_false_2 _ E). exact IH.
Qed.

(** X15. Looking a title up in the content built from the generated pairs
    never raises; it gives the text of the first pair whose title is
    the same once lower-cased and trimmed, or nothing when there is
    none.  So when the titles are pairwise different in that sense,
    each title finds the text generated for it; otherwise a later pair
    with the title of an earlier one is given the earlier text. *)
Theorem section_text_is_first_match (pairs : list (str * str)) :
  (forall title,
      find_section_content (_pairs_to_builder_structures pairs).1
        (Some title)
      = inr (first_text pairs title))
  /\ (NoDup (List.map (fun p : str * str => title_key p.1) pairs) ->
      forall t x, In (t, x) pairs -> first_text pairs t = Some x)
  /\ (forall t x y rest,
         first_text ((t, x) :: rest ++ [(t, y)]) t = Some x).
Proof.
  split; [apply find_in_pairs|split].
  - intros Hnd t x Hin. unfold first_text.
    induction pairs as [|[t' x'] pairs IH]; [done|].
    cbn [List.map fst] in Hnd. apply NoDup_cons in Hnd as [Hnotin Hnd].
    cbn [List.find fst].
    destruct Hin as [[= -> ->]|Hin].
    + by rewrite bool_decide_eq_true_2.
    + rewrite bool_decide_eq_false_2; [by apply IH|].
      intros E. apply Hnotin. rewrite E.
      apply list_elem_of_In, in_map_iff. by exists (t, x).
  - intros t x y rest. unfold first_text. cbn [List.find fst].
    by rewrite bool_decide_eq_true_2.
Qed.

Lemma section_text_is_first_match_witness :
  first_text [(py "Scope", py "a"); (py "Design", py "b")] (py "Design")
  = Some (py "b").
Proof.
  destruct (section_text_is_first_match
              [(py "Scope", py "a"); (py "Design", py "b")])
    as (_ & H & _).
  apply H.
  - apply (bool_decide_unpack _). by vm_compute.
  - right. by left.
Defined.



Lemma str_of_nat_inj (n m : nat) : str_of_nat n = str_of_nat m -> n = m.
Proof.
  unfold str_of_nat. intros H.
  apply (f_equal string_of_list_ascii) in H.
  rewrite !string_of_list_ascii_of_string in H.
  apply (f_equal NilEmpty.uint_of_string) in H.
  rewrite !NilEmpty.usu in H. injection H as H.
  apply (f_equal Nat.of_uint) in H.
  by rewrite !DecimalNat.Unsigned.of_to in H.
Qed.

Lemma bookmark_name_inj (i j : nat) : bookmark_name i = bookmark_name j -> i = j.
Proof.
  unfold bookmark_name. intros H. apply app_inv_head in H.
  apply str_of_nat_inj in H. lia.
Qed.

Lemma index_list_app (a b : list element) :
  index_list (a ++ b) = index_list a ++ index_list b.
Proof. apply omap_app. Qed.

Lemma bookmarked_app (a b : list element) :
  bookmarked_headings (a ++ b) = bookmarked_headings a ++ bookmarked_headings b.
Proof. apply omap_app. Qed.

Lemma add_blocks_plain (blocks : list block) (els : list element) :
  add_blocks blocks = inr els ->
  index_list els = [] /\ bookmarked_headings els = [].
Proof.
  revert els. induction blocks as [|b blocks IH]; intros els H.
  - by injection H as <-.
  - cbn [add_blocks] in H.
    destruct (add_blocks blocks) as [e|more].
    + by destruct b as [v|v|c r]; [..|destruct (add_table c r)].
    + destruct (IH more eq_refl) as [H1 H2].
      destruct b as [v|v|c r]; [..|destruct (add_table c r); [done|]];
        injection H as <-; unfold index_list, bookmarked_headings in *;
        cbn [omap list_omap]; by rewrite ?H1, ?H2.
Qed.

(** The numbered titles from index [i] on, each with its bookmark. *)
Lemma section_contents_lists (content sections : list (gmap str str))
    (i : nat) (body : list element) :
  section_contents content i sections = inr body ->
  index_list body = []
  /\ index_list (index_entries i sections)
     = List.map (fun tb : str * str => (tb.1, pageref tb.2))
                (bookmarked_headings body)
  /\ bookmarked_headings (index_entries i sections) = []
  /\ bookmarked_headings body
     = imap (fun k (s : gmap str str) =>
               (numbered (i + k) (s !! py "title"), bookmark_name (i + k)))
            sections.
Proof.
  revert i body. induction sections as [|s sections IH]; intros i body H.
  - by injection H as <-.
  - cbn [section_contents] in H.
    destruct (find_section_content content (s !! py "title"))
      as [e|sec_content]; [done|].
    destruct (add_blocks (section_blocks sec_content)) as [e|els] eqn:Eb;
      [done|].
    destruct (section_contents content (S i) sections) as [e|more] eqn:Em;
      [done|].
    injection H as <-.
    destruct (add_blocks_plain _ _ Eb) as [Hi Hb].
    destruct (IH (S i) more Em) as (H1 & H2 & H3 & H4).
    change (Heading ?t ?l ?b :: els ++ more)
      with ([Heading t l b] ++ els ++ more).
    rewrite !index_list_app, !bookmarked_app, Hi, Hb, H1, H4.
    cbn [index_entries].
    change (IndexEntry ?t ?r :: ?l) with ([IndexEntry t r] ++ l).
    rewrite index_list_app, bookmarked_app, H2, H3, H4.
    cbn [imap]. rewrite Nat.add_0_r.
    assert (Eimap : imap (fun k (s0 : gmap str str) =>
                            (numbered (S i + k) (s0 !! py "title"),
                             bookmark_name (S i + k))) sections
                    = imap ((fun k (s0 : gmap str str) =>
                               (numbered (i + k) (s0 !! py "title"),
                                bookmark_name (i + k))) ∘ S) sections).
    { apply imap_ext. intros k x _. unfold compose.
      by replace (i + S k) with (S i + k) by lia. }
    rewrite Eimap. by repeat split.
Qed.

(** X17. In every document that is built, the index and the headings
    agree: there is one index entry and one bookmarked heading per
    section, the k-th index entry carries the text of the k-th
    bookmarked heading and refers to its bookmark, and no two headings
    share a bookmark. *)
Theorem index_matches_headings (content sections : list (gmap str str))
    (doc : list element) :
  build_document content sections = inr doc ->
  index_list doc
  = List.map (fun tb : str * str => (tb.1, pageref tb.2))
             (bookmarked_headings doc)
  /\ length (bookmarked_headings doc) = length sections
  /\ NoDup (List.map snd (bookmarked_headings doc)).
Proof.
  unfold build_document. intros H.
  destruct (section_contents content 0 sections) as [e|body] eqn:E; [done|].
  injection H as <-.
  destruct (section_contents_lists _ _ _ _ E) as (H1 & H2 & H3 & H4).
  change (?a :: ?b :: ?c :: index_entries 0 sections ++ ?r)
    with ([a; b; c] ++ index_entries 0 sections ++ r).
  rewrite !index_list_app, !bookmarked_app, H1, H2, H3.
  cbn [index_list bookmarked_headings omap list_omap app].
  rewrite !app_nil_r. split; [done|]. rewrite H4.
  split; [by rewrite length_imap|].
  clear. generalize 0.
  induction sections as [|s sections IH]; intros i; [constructor|].
  cbn [imap List.map snd]. apply NoDup_cons. split.
  - intros Hin. apply list_elem_of_In, in_map_iff in Hin as ([t b] & Eb & Hin).
    apply list_elem_of_In, elem_of_lookup_imap in Hin as (k & s' & E & _).
    cbn [snd] in Eb. injection E as _ ->. cbn in Eb.
    apply bookmark_name_inj in Eb. lia.
  - assert (E : imap ((fun k (s0 : gmap str str) =>
                         (numbered (i + k) (s0 !! py "title"),
                          bookmark_name (i + k))) ∘ S) sections
                = imap (fun k (s0 : gmap str str) =>
                          (numbered (S i + k) (s0 !! py "title"),
                           bookmark_name (S i + k))) sections).
    { apply imap_ext. intros k x _. unfold compose.
      by replace (i + S k) with (S i + k) by lia. }
    rewrite E. apply IH.
Qed.

Lemma index_matches_headings_witness :
  length (bookmarked_headings
            [Heading (py "Uniform Design Document") 0 None;
             Heading (py "Index") 1 None; TocParagraph TOC_INSTR;
             IndexEntry (py "1. Scope") (py "PAGEREF sec_1 \h");
             Heading (py "1. Scope") 1 (Some (py "sec_1", 1));
             NormalPara (py "Text");
             Paragraph GENERATED_BY])
  = 1.
Proof.
  apply (index_matches_headings
           [{[ py "section_name" := py "Scope"; py "content" := py "Text" ]}]
           [{[ py "title" := py "Scope" ]}]).
  vm_compute. reflexivity.
Defined.

(** * Beyond the claims: the service *)

Section Service.
Context {Llm : Type}.
Variable invoke : Llm -> list message -> (exn + response) * Llm.
Variable list_repr : list str -> str.
Variable llm0 : Llm.
Variable fs : str -> option str.
Variable json_load : str -> exn + gmap str (list str).
Variables DEFAULT_RAG_PATH DEFAULT_MAPPING_PATH : str.
Variable save : list element -> exn + list Byte.byte.
Variable job_path : str -> str.
Variable path_str : str -> str.
Variable path_name : str -> str.
Variable key_repr : str -> str.
Variable write_raises : str -> option (exn * option (list Byte.byte)).

Local Abbreviation docx_bytes :=
  (_generate_docx_bytes invoke list_repr llm0 fs json_load
     DEFAULT_RAG_PATH DEFAULT_MAPPING_PATH save).
Local Abbreviation run_job :=
  (_run_job invoke list_repr llm0 fs json_load
     DEFAULT_RAG_PATH DEFAULT_MAPPING_PATH save job_path key_repr
     write_raises).
Local Abbreviation poll := (get_job path_str path_name).


(** X19. Running a registered job never raises and always leaves the job
    done after one attempt, whatever happens inside: either the
    document was generated and written, the job points to the file,
    which holds the generated bytes, and carries no error; or
    something raised and the job points to no file and carries the
    message of the exception.  No other job is touched. *)
Theorem run_job_always_finishes (job_id : str) (req : GenerateRequest)
    (w : world) :
  is_Some (jobs w !! job_id) ->
  exists w' j',
    run_job job_id req w = inr w'
    /\ jobs w' !! job_id = Some j'
    /\ status j' = py "done" /\ attempts j' = 1
    /\ ((result_path j' = Some (job_path job_id) /\ error j' = None
         /\ exists bytes,
              docx_bytes (fsd_text req)
                (or_default (req_rag_path req) DEFAULT_RAG_PATH)
                (or_default (req_mapping_path req) DEFAULT_MAPPING_PATH)
                (or_default (document_title req)
                            (py "Functional Specification Document"))
              = inr bytes
              /\ disk w' !! job_path job_id = Some bytes)
        \/ (result_path j' = None /\ is_Some (error j')))
    /\ forall other, other <> job_id ->
                     jobs w' !! other = jobs w !! other.
Proof.
  intros [j Hj]. unfold _run_job. rewrite Hj.
  destruct (_generate_docx_bytes _ _ _ _ _ _ _ _ _ _ _ _) as [e|bytes].
  - eexists _, _. split; [done|]. cbn [set_job jobs disk].
    split; [apply lookup_insert_eq|]. cbn [status attempts result_path error].
    repeat split; [right; by repeat split|].
    intros other Hne. by rewrite !lookup_insert_ne.
  - destruct (write_raises (job_path job_id)) as [[e left_over]|].
    + eexists _, _. split; [done|]. cbn [set_job jobs disk].
      split; [apply lookup_insert_eq|].
      cbn [status attempts result_path error].
      repeat split; [right; by repeat split|].
      intros other Hne. rewrite lookup_insert_ne by done.
      destruct left_over; cbn [jobs set_job]; by rewrite lookup_insert_ne.
    + eexists _, _. split; [done|]. cbn [set_job jobs disk].
      split; [apply lookup_insert_eq|].
      cbn [status attempts result_path error].
      repeat split; [left; repeat split; eexists; split; [done|];
                     apply lookup_insert_eq|].
      intros other Hne. by rewrite !lookup_insert_ne.
Qed.


(** X21. A job that was submitted and has run is never reported as unknown
    or as still running: the poll answers with the file, or with the
    message of what went wrong. *)
Theorem submitted_job_is_answered (job_id : str) (req : GenerateRequest)
    (w : world) :
  job_path job_id <> [] ->
  poll job_id (generate job_id w).2
  = AcceptedReply (py "pending") 0
  /\ exists w',
       run_job job_id req (generate job_id w).2 = inr w'
       /\ (poll job_id w'
           = FileReply (path_str (job_path job_id))
                       (path_name (job_path job_id))
           \/ exists msg, poll job_id w' = DoneReply (Some msg)).
Proof.
  intros Hp. split.
  { unfold get_job, generate, set_job. cbn [snd jobs].
    by rewrite lookup_insert_eq. }
  unfold _run_job, generate. cbn [snd set_job jobs].
  rewrite lookup_insert_eq.
  destruct (_generate_docx_bytes _ _ _ _ _ _ _ _ _ _ _ _) as [e|bytes].
  - eexists. split; [done|]. right. eexists.
    unfold get_job, set_job. cbn [jobs disk].
    rewrite lookup_insert_eq. cbn [status result_path error].
    by destruct (decide (py "done" = py "done")).
  - destruct (write_raises (job_path job_id)) as [[e left_over]|].
    + eexists. split; [done|]. right. eexists.
      unfold get_job, set_job. cbn [jobs disk].
      rewrite lookup_insert_eq. cbn [status result_path error].
      by destruct (decide (py "done" = py "done")).
    + eexists. split; [done|]. left.
      unfold get_job, set_job. cbn [jobs disk].
      rewrite lookup_insert_eq. cbn [status result_path error].
      destruct (decide (py "done" = py "done")); [|done].
      rewrite truthy_not_nil by done. rewrite lookup_insert_eq.
      by rewrite bool_decide_eq_true_2.
Qed.

End Service.

Lemma run_job_always_finishes_witness :
  exists w' j',
    _run_job steady_service (fun _ => []) 0 demo_files (fun _ => inr ∅)
      (py "rag.txt") (py "map.json") (fun _ => inr []) demo_job_path
      (fun k => k) (fun _ => None) (py "00ff") demo_request demo_world
    = inr w'
    /\ jobs w' !! py "00ff" = Some j'
    /\ status j' = py "done" /\ attempts j' = 1.
Proof.
  destruct (run_job_always_finishes steady_service (fun _ => []) 0
              demo_files (fun _ => inr ∅) (py "rag.txt") (py "map.json")
              (fun _ => inr []) demo_job_path (fun k => k) (fun _ => None)
              (py "00ff") demo_request demo_world)
    as (w' & j' & H1 & H2 & H3 & H4 & _).
  - vm_compute. by eexists.
  - by exists w', j'.
Defined.


Lemma submitted_job_is_answered_witness :
  get_job (fun p => p) (fun _ => py "UDD.docx") (py "00ff")
    (generate (py "00ff") {| jobs := ∅; disk := ∅ |}).2
  = AcceptedReply (py "pending") 0.
Proof.
  apply (submitted_job_is_answered steady_service (fun _ => []) 0
           demo_files (fun _ => inr ∅) (py "rag.txt") (py "map.json")
           (fun _ => inr []) demo_job_path (fun p => p)
           (fun _ => py "UDD.docx") (fun k => k) (fun _ => None)
           (py "00ff") demo_request {| jobs := ∅; disk := ∅ |}).
  discriminate.
Defined.

(** * Beyond the claims: a text of several sections *)

(** ** Text after a marker candidate that cannot complete it *)

Lemma after_prefix_inert (f : ascii -> ascii -> bool) (ps s r : str) :
  Forall (fun p => forall c, isspace c = true \/ c = "S" -> f p c = false) ps ->
  match r with [] => True | c :: _ => isspace c = true \/ c = "S" end ->
  after_prefix f ps (s ++ r)
  = match after_prefix f ps s with
    | Some s1 => Some (s1 ++ r)
    | None => None
    end.
Proof.
  intros Hps Hr. revert s. induction Hps as [|p ps Hp _ IH]; intros s; [done|].
  destruct s as [|c s].
  - cbn [app after_prefix]. destruct r as [|c r]; [done|]. by rewrite Hp.
  - cbn [app after_prefix]. destruct (f p c); [apply IH|done].
Qed.

Lemma drop_while_app_inert (s w m : str) :
  Forall (fun c => isspace c = true) w ->
  match m with [] => True | c :: _ => isspace c = false end ->
  drop_while isspace (s ++ w ++ m)
  = match drop_while isspace s with
    | [] => m
    | c :: t => (c :: t) ++ w ++ m
    end.
Proof.
  intros Hw Hm. induction s as [|c s IH].
  - cbn [app drop_while]. induction Hw as [|x w Hx _ IHw].
    + destruct m as [|c m]; [done|]. cbn [app drop_while]. by rewrite Hm.
    + cbn [app drop_while]. by rewrite Hx.
  - cbn [app drop_while]. destruct (isspace c); [exact IH|done].
Qed.

(** Blanks and then the start of another marker, or nothing, after a
    text do not complete a marker that starts in the text. *)
Lemma marker_by_inert (f : ascii -> ascii -> bool) (s w m : str) :
  Forall (fun p => forall c, isspace c = true \/ c = "S" -> f p c = false)
         (py "ECTION") ->
  s <> [] -> Forall (fun c => isspace c = true) w ->
  (m = [] \/ exists t, m = "S" :: t) ->
  marker_by f (s ++ w ++ m) = marker_by f s.
Proof.
  intros Hps Hs Hw Hm. unfold marker_by.
  destruct s as [|c s]; [done|]. clear Hs.
  change (py "SECTION") with ("S" :: py "ECTION").
  cbn [app after_prefix]. destruct (f "S" c); [|done].
  assert (Hm' : match m with [] => True | c :: _ => isspace c = false end).
  { destruct Hm as [->|[t ->]]; done. }
  rewrite after_prefix_inert; [|done|]; cycle 1.
  { destruct w as [|x w].
    - destruct Hm as [->|[t ->]]; [done|]. by right.
    - apply Forall_cons in Hw as [Hx _]. by left. }
  destruct (after_prefix f (py "ECTION") s) as [s1|]; [|done].
  rewrite drop_while_app_inert by done.
  destruct (drop_while isspace s1) as [|c1 s2].
  - destruct Hm as [->|[t ->]]; done.
  - cbn [app]. f_equal. rewrite drop_while_app_inert by done.
    destruct (drop_while isspace s2) as [|c2 s3]; [|done].
    destruct Hm as [->|[t ->]]; done.
Qed.

Lemma ection_inert_cs :
  Forall (fun p => forall c, isspace c = true \/ c = "S" ->
                             same_chr p c = false) (py "ECTION").
Proof.
  repeat constructor; intros c [Hc| ->]; try done;
    by destruct c as [[] [] [] [] [] [] [] []].
Qed.

Lemma ection_inert_ci :
  Forall (fun p => forall c, isspace c = true \/ c = "S" ->
                             same_chr_ci p c = false) (py "ECTION").
Proof.
  repeat constructor; intros c [Hc| ->]; try done;
    by destruct c as [[] [] [] [] [] [] [] []].
Qed.

(** ** The first substitution on a text of pieces *)

Lemma rstrip_last (y a : str) (c : ascii) :
  rstrip_by isspace y = a ++ [c] -> isspace c = false.
Proof.
  unfold rstrip_by. intros H. apply (f_equal (@rev ascii)) in H.
  rewrite rev_involutive, rev_app_distr in H. cbn in H.
  by apply drop_while_head in H.
Qed.

Lemma drop_while_snoc_keep (p : ascii -> bool) (s : str) (c : ascii) :
  p c = false -> drop_while p (s ++ [c]) <> [].
Proof.
  intros Hc. induction s as [|x s IH]; cbn [app drop_while].
  - by rewrite Hc.
  - by destruct (p x).
Qed.

(** A non-empty end of a text without trailing blanks is not all
    blanks. *)
Lemma rstrip_suffix_keep (y a s : str) :
  rstrip_by isspace y = a ++ s -> s <> [] -> drop_while isspace s <> [].
Proof.
  intros E Hs. destruct s as [|c s0 _] using rev_ind; [done|].
  rewrite app_assoc in E. apply rstrip_last in E.
  by apply drop_while_snoc_keep.
Qed.

Lemma drop_while_split (p : ascii -> bool) (s : str) :
  exists a, s = a ++ drop_while p s /\ Forall (fun c => p c = true) a.
Proof.
  exists (take_while p s). split; [by rewrite take_drop_while|].
  apply take_while_all.
Qed.

(** The first match of the forcing pattern in a text that has no
    marker of its own, followed by blanks and a marker: the blanks. *)
Lemma search_force_first (x w m : str) (pv : option ascii) :
  Forall (fun c => isspace c = true) w ->
  (exists t, m = "S" :: t) ->
  marker_by same_chr m = true ->
  (forall a s, x = a ++ s -> s <> [] ->
               drop_while isspace s <> [] /\
               marker_by same_chr (drop_while isspace s) = false) ->
  search FORCE_NEWLINE_REGEX false pv (x ++ w ++ m)
  = Some (length x, length x + length w, None).
Proof.
  intros Hw [t Hm] Hmk Hx. revert pv.
  assert (Hdw : drop_while isspace (w ++ m) = m).
  { rewrite <- (app_nil_l (w ++ m)), drop_while_app_inert; subst m; done. }
  induction x as [|c x IH]; intros pv.
  - cbn [app length]. assert (Hlen : length (w ++ m) - length m = length w)
      by (rewrite length_app; lia).
    destruct (w ++ m) as [|c0 s0] eqn:E.
    + subst m. by destruct w.
    + rewrite search_cons, match_here_force, Hdw, Hmk. cbn [andb].
      by rewrite Hlen.
  - destruct (Hx [] (c :: x) eq_refl ltac:(done)) as [Hne Hfalse].
    rewrite <- app_comm_cons, search_cons, match_here_force.
    rewrite app_comm_cons, drop_while_app_inert; [|done|by subst m].
    destruct (drop_while isspace (c :: x)) as [|c1 s1] eqn:Ed; [done|].
    rewrite marker_by_inert; [|apply ection_inert_cs|done|done|right; by exists t].
    rewrite Hfalse, IH; [done|].
    intros a s E Hs. apply (Hx (c :: a) s); [by rewrite E|done].
Qed.

Lemma rstrip_split (y : str) :
  exists w, y = rstrip_by isspace y ++ w /\ Forall (fun c => isspace c = true) w.
Proof.
  unfold rstrip_by. destruct (drop_while_split isspace (rev y)) as (a & E & Ha).
  exists (rev a). split; [|by apply Forall_rev].
  rewrite <- rev_app_distr, <- E. by rewrite rev_involutive.
Qed.

Lemma rstrip_app_nonspace (a : str) (c : ascii) (y : str) :
  isspace c = false ->
  rstrip_by isspace (a ++ c :: y) = a ++ c :: rstrip_by isspace y.
Proof.
  intros Hc. induction a as [|x a IH].
  - by apply rstrip_by_cons_keep.
  - rewrite <- !app_comm_cons.
    change (x :: a ++ c :: y) with ([x] ++ a ++ c :: y).
    rewrite rstrip_by_app_keep; rewrite IH; [done|]. by destruct a.
Qed.

Lemma id_last (id : str) :
  is_section_identifier id = true ->
  exists id0 d, id = id0 ++ [d] /\ isspace d = false /\ d <> LF.
Proof.
  intros H. pose proof (dotted_chars false id H) as Hall.
  destruct id as [|d id0 _] using rev_ind; [done|].
  apply Forall_app in Hall as [_ Hd]. apply Forall_inv in Hd.
  destruct (id_char_facts d Hd) as (_ & Hlf & Hs & _). by exists id0, d.
Qed.

Lemma section_ok_parts (s : str * str) :
  section_ok s = true ->
  is_section_identifier s.1 = true /\ has_marker s.2 = false
  /\ raw_start_ok s.2 = true.
Proof.
  unfold section_ok. intros H. apply andb_prop in H as [H H3].
  apply andb_prop in H as [H1 H2]. apply negb_true_iff in H2. done.
Qed.

Lemma piece_facts (s : str * str) :
  section_ok s = true ->
  (forall r, marker_by same_chr (piece s ++ r) = true)
  /\ marker_free (py "ECTION: " ++ s.1 ++ s.2)
  /\ rstrip_by isspace (piece s)
     = py "SECTION: " ++ s.1 ++ rstrip_by isspace s.2.
Proof.
  intros Hok. destruct (section_ok_parts s Hok) as (Hid & Hmk & _).
  split; [|split].
  - intros r. unfold piece. rewrite <- !app_assoc.
    change (py "SECTION: " ++ ?x) with ("S" :: py "ECTION: " ++ x).
    by apply one_section_marker.
  - destruct section_prefix_facts as (_ & _ & Hp_s).
    apply marker_free_app; [done|]. apply marker_free_app.
    + eapply Forall_impl; [exact (dotted_chars false _ Hid)|]. intros c Hc.
      by destruct (id_char_facts c Hc) as (_ & _ & _ & ?).
    + by apply has_marker_free.
  - destruct (id_last _ Hid) as (id0 & d & E & Hd & _). unfold piece.
    rewrite E, <- !app_assoc. cbn [app].
    rewrite (app_assoc (py "SECTION: ") id0).
    by rewrite rstrip_app_nonspace, <- app_assoc.
Qed.

Lemma fsd_of_head (secs : list (str * str)) :
  secs <> [] -> exists t : str, fsd_of secs = "S" :: t.
Proof. destruct secs as [|s secs]; [done|]. intros _. by eexists. Qed.

Lemma prev_after_0 (pv : option ascii) (s : str) : prev_after pv s 0 = pv.
Proof. done. Qed.

Lemma scan_forced (secs : list (str * str)) :
  Forall (fun s => section_ok s = true) secs ->
  forall (must : bool) pv fuel,
    2 * length (fsd_of secs) + (if must then 0 else 1) < fuel ->
    concat (List.map (fun m => m_gap m ++ [LF])
              (scan fuel FORCE_NEWLINE_REGEX must pv (fsd_of secs)).1)
    ++ (scan fuel FORCE_NEWLINE_REGEX must pv (fsd_of secs)).2
    = forced must secs.
Proof.
  induction 1 as [|s rest Hs Hrest IH]; intros must pv fuel Hfuel.
  { destruct fuel; [lia|]. cbn [fsd_of flat_map scan search].
    by rewrite match_here_force. }
  destruct (piece_facts s Hs) as (Hmk & Hfree & Hrs).
  assert (Htrue : forall pv fuel,
             2 * length (fsd_of (s :: rest)) < fuel ->
             concat (List.map (fun m => m_gap m ++ [LF])
                       (scan fuel FORCE_NEWLINE_REGEX true pv
                          (fsd_of (s :: rest))).1)
             ++ (scan fuel FORCE_NEWLINE_REGEX true pv (fsd_of (s :: rest))).2
             = forced true (s :: rest)).
  { clear pv fuel Hfuel must. intros pv fuel Hfuel.
    destruct fuel; [lia|]. cbn [fsd_of flat_map] in *.
    destruct (rstrip_split (piece s)) as (w & Ew & Hw).
    assert (Ex : exists x', rstrip_by isspace (piece s) = "S" :: x').
    { rewrite Hrs. by eexists. }
    destruct Ex as [x' Ex].
    assert (Et : piece s = "S" :: x' ++ w) by (by rewrite Ew at 1; rewrite Ex).
    assert (Htail : py "ECTION: " ++ s.1 ++ s.2 = x' ++ w).
    { unfold piece in Et. by injection Et. }
    assert (Hsearch : forall R,
               search FORCE_NEWLINE_REGEX true pv (piece s ++ R)
               = match search FORCE_NEWLINE_REGEX false (Some "S")
                         (x' ++ w ++ R) with
                 | Some (b, e, g) => Some (S b, S e, g)
                 | None => None
                 end).
    { intros R. pose proof (Hmk R) as HmR. rewrite Et in HmR |- *.
      rewrite <- !app_comm_cons in HmR |- *.
      rewrite search_cons, match_here_force.
      change (drop_while isspace ("S" :: ?y)) with ("S" :: y).
      rewrite HmR, Nat.sub_diag. cbn [andb Nat.eqb].
      by rewrite <- app_assoc. }
    cbn [scan]. rewrite Hsearch.
    destruct rest as [|s2 rest'].
    - cbn [flat_map forced]. rewrite !app_nil_r.
      assert (Hfree' : marker_free (x' ++ w)) by (by rewrite <- Htail).
      rewrite (search_never _ _ _ (never_force (Some "S") _ Hfree')).
      by cbn [fst snd List.map concat app].
    - destruct (fsd_of_head (s2 :: rest') ltac:(done)) as [t2 Eh].
      change (flat_map piece (s2 :: rest')) with (fsd_of (s2 :: rest')) in *.
      rewrite (search_force_first x' w (fsd_of (s2 :: rest'))); cycle 1.
      { done. }
      { by exists t2. }
      { apply Forall_inv in Hrest.
        destruct (piece_facts s2 Hrest) as (Hmk2 & _). apply Hmk2. }
      { intros a s0 Ea Hs0.
        assert (Hkeep : drop_while isspace s0 <> []).
        { apply (rstrip_suffix_keep (piece s) ("S" :: a)); [|done].
          by rewrite Ex, Ea. }
        split; [done|].
        destruct (drop_while_split isspace s0) as (a2 & Es0 & _).
        rewrite <- (marker_by_inert same_chr (drop_while isspace s0) w []);
          [|apply ection_inert_cs|done|done|by left].
        apply marker_cs_free. rewrite app_nil_r.
        apply (Hfree (a ++ a2)). rewrite Htail, Ea. rewrite Es0 at 1.
        by rewrite <- !app_assoc. }
      assert (Hlen : length (piece s) = S (length x' + length w)).
      { rewrite Et. cbn [length]. by rewrite length_app. }
      assert (Hdrop : drop (S (length x' + length w))
                        (piece s ++ fsd_of (s2 :: rest'))
                      = fsd_of (s2 :: rest')).
      { rewrite <- Hlen. apply drop_app_length. }
      assert (Htake : take (S (length x')) (piece s ++ fsd_of (s2 :: rest'))
                      = "S" :: x').
      { rewrite Et. change ("S" :: x' ++ w) with (("S" :: x') ++ w).
        rewrite <- app_assoc.
        by rewrite (take_app_length' ("S" :: x')). }
      rewrite Hdrop, Htake.
      match goal with |- context [scan fuel _ ?m ?p _] =>
        specialize (IH m p fuel) end.
      destruct (scan fuel _ _ _ (fsd_of (s2 :: rest'))) as [ms tl].
      cbn [fst snd List.map concat m_gap] in *.
      rewrite <- !app_assoc, IH; cycle 1.
      { rewrite length_app, Hlen in Hfuel.
        destruct (_ =? _); lia. }
      cbn [forced app]. rewrite Ex, Hlen. cbn [length app].
      by rewrite (Nat.eqb_sym (S (length x' + length w))). }
  destruct must; [apply Htrue; lia|].
  destruct fuel; [lia|].
  assert (Hsearch : search FORCE_NEWLINE_REGEX false pv (fsd_of (s :: rest))
                    = Some (0, 0, None)).
  { pose proof (Hmk (fsd_of rest)) as HmR.
    change (fsd_of (s :: rest)) with (piece s ++ fsd_of rest).
    destruct (piece s ++ fsd_of rest) as [|c t] eqn:E; [done|].
    assert (Hc : c = "S") by (unfold piece in E; by injection E).
    subst c. rewrite search_cons, match_here_force.
    change (drop_while isspace ("S" :: t)) with ("S" :: t).
    by rewrite HmR, Nat.sub_diag. }
  cbn [scan]. rewrite Hsearch, prev_after_0, drop_0, take_0.
  cbn [Nat.eqb].
  specialize (Htrue pv fuel ltac:(lia)).
  destruct (scan fuel _ _ _ (fsd_of (s :: rest))) as [ms tl].
  cbn [fst snd List.map concat m_gap app] in *.
  rewrite Htrue. by cbn [forced app].
Qed.

(** ** The second substitution on the result *)

Lemma squeeze_app (fl : bool) (a b : str) :
  squeeze fl (a ++ b)
  = squeeze fl a
    ++ squeeze (match last a with Some c => chr_eqb c LF | None => fl end) b.
Proof.
  revert fl. induction a as [|c a IH]; intros fl; [done|].
  cbn [app squeeze]. rewrite last_cons.
  destruct (chr_eqb c LF) eqn:Hc.
  - destruct fl; rewrite IH; (destruct (last a); [done|by rewrite Hc]).
  - rewrite IH. destruct (last a); [done|by rewrite Hc].
Qed.

Lemma squeeze_app_solid (fl : bool) (a b : str) (c : ascii) :
  isspace c = false ->
  squeeze fl ((a ++ [c]) ++ b) = squeeze fl (a ++ [c]) ++ squeeze false b.
Proof.
  intros Hc. rewrite squeeze_app, last_snoc.
  by destruct c as [[] [] [] [] [] [] [] []].
Qed.

Lemma squeeze_snoc_solid (fl : bool) (a : str) (c : ascii) :
  isspace c = false -> squeeze fl (a ++ [c]) = squeeze fl a ++ [c].
Proof.
  intros Hc. rewrite squeeze_app. cbn [squeeze].
  by destruct c as [[] [] [] [] [] [] [] []].
Qed.

Lemma squeeze_spaces (fl : bool) (w : str) :
  Forall (fun c => isspace c = true) w ->
  Forall (fun c => isspace c = true) (squeeze fl w).
Proof.
  intros H. revert fl. induction H as [|c w Hc _ IH]; intros fl; [constructor|].
  cbn [squeeze]. destruct (chr_eqb c LF).
  - destruct fl; [apply IH|]. constructor; [done|apply IH].
  - by constructor.
Qed.

Lemma rstrip_cases (y : str) :
  (rstrip_by isspace y = [] /\ Forall (fun c => isspace c = true) y)
  \/ exists a c, rstrip_by isspace y = a ++ [c] /\ isspace c = false.
Proof.
  destruct (rstrip_by isspace y) as [|c a _] eqn:E using rev_ind.
  - left. split; [done|]. by apply rstrip_by_nil_iff.
  - right. exists a, c. split; [done|]. by apply (rstrip_last y a).
Qed.

Lemma rstrip_app_space (a w : str) :
  Forall (fun c => isspace c = true) w ->
  rstrip_by isspace (a ++ w) = rstrip_by isspace a.
Proof.
  intros Hw. unfold rstrip_by. rewrite rev_app_distr. f_equal.
  apply Forall_rev in Hw. induction Hw as [|c w' Hc _ IH]; [done|].
  cbn [app drop_while]. by rewrite Hc.
Qed.

Lemma strip_app_space_r (a w : str) :
  Forall (fun c => isspace c = true) w -> strip (a ++ w) = strip a.
Proof.
  intros Hw. unfold strip.
  rewrite <- (strip_by_rstrip isspace (a ++ w)), rstrip_app_space by done.
  apply strip_by_rstrip.
Qed.

(** Trimming sees neither the blanks at the end of the raw text nor
    how they were squeezed. *)
Lemma strip_squeeze_rstrip (raw : str) :
  strip (squeeze false (rstrip_by isspace raw)) = strip (squeeze false raw).
Proof.
  destruct (rstrip_split raw) as (w & E & Hw).
  rewrite E at 2.
  destruct (rstrip_cases raw) as [[-> _]|(a & c & -> & Hc)].
  - cbn [app squeeze]. symmetry. apply strip_by_nil_iff.
    by apply squeeze_spaces.
  - rewrite squeeze_app_solid by done. symmetry.
    by apply strip_app_space_r, squeeze_spaces.
Qed.

Lemma squeezed_forced (secs : list (str * str)) :
  Forall (fun s => section_ok s = true) secs ->
  squeeze false (forced false secs) = squeezed secs
  /\ forall must, squeeze true (forced must secs) = drop 1 (squeezed secs).
Proof.
  induction 1 as [|s rest Hs _ [IH1 IH2]]; [done|].
  destruct (piece_facts s Hs) as (_ & _ & Hrs).
  destruct (section_ok_parts s Hs) as (Hid & _ & _).
  assert (Hhead : ~ In LF (py "SECTION: " ++ s.1)).
  { intros Hin. apply in_app_or in Hin as [Hin|Hin].
    - by destruct section_prefix_facts as (_ & Hlf & _).
    - pose proof (dotted_chars false _ Hid) as Hall.
      rewrite Forall_forall in Hall. apply list_elem_of_In in Hin.
      by destruct (id_char_facts _ (Hall _ Hin)) as (_ & ? & _). }
  assert (Htrue : squeeze true
                    match rest with
                    | [] => piece s
                    | _ :: _ =>
                        rstrip_by isspace (piece s)
                        ++ LF :: forced (length (rstrip_by isspace (piece s))
                                         =? length (piece s)) rest
                    end
                  = drop 1 (squeezed (s :: rest))).
  { cbn [squeezed drop]. rewrite drop_0. destruct rest as [|s2 rest'].
    - rewrite app_nil_r. unfold piece. rewrite app_assoc.
      by rewrite squeeze_no_lf, <- app_assoc by (done || by destruct s.1).
    - rewrite Hrs.
      destruct (id_last _ Hid) as (id0 & d & E & Hd & _).
      assert (Hsolid : exists a c,
                 py "SECTION: " ++ s.1 ++ rstrip_by isspace s.2 = a ++ [c]
                 /\ isspace c = false).
      { destruct (rstrip_cases s.2) as [[-> _]|(a & c & -> & Hc)].
        - exists (py "SECTION: " ++ id0), d. split; [|done].
          by rewrite app_nil_r, E, <- app_assoc.
        - exists (py "SECTION: " ++ s.1 ++ a), c. split; [|done].
          by rewrite <- !app_assoc. }
      destruct Hsolid as (a & c & Ea & Hc).
      rewrite Ea, squeeze_app_solid, <- Ea by done.
      rewrite (app_assoc (py "SECTION: ")), squeeze_no_lf
        by (done || by destruct s.1).
      rewrite <- !app_assoc. do 2 f_equal.
      change (squeeze false (LF :: ?y)) with (LF :: squeeze true y).
      rewrite IH2. cbn [squeezed drop]. by rewrite drop_0. }
  split.
  - cbn [forced app]. change (squeeze false (LF :: ?y)) with (LF :: squeeze true y).
    rewrite Htrue. cbn [squeezed drop]. by rewrite drop_0.
  - intros must. cbn [forced]. destruct must; cbn [app]; [exact Htrue|].
    change (squeeze true (LF :: ?y)) with (squeeze true y). exact Htrue.
Qed.

(** ** The header pattern on the normalized text *)

Lemma run_bol_at (x : re) (c : ascii) (s : str) (cp : option str) :
  run (Seq Bol x) (MState (Some c) s cp)
  = if chr_eqb c LF then run x (MState (Some c) s cp) else [].
Proof.
  rewrite run_seq. cbn [run prev]. destruct (chr_eqb c LF); [|done].
  cbn [flat_map]. by rewrite app_nil_r.
Qed.

Lemma match_here_header_bol (must : bool) (c : ascii) (s : str) :
  c <> LF -> match_here SECTION_HEADER_REGEX must (Some c) s = None.
Proof.
  intros Hc. unfold match_here, SECTION_HEADER_REGEX. rewrite run_bol_at.
  destruct (Ascii.eqb_spec c LF) as [->|_]; [done|].
  unfold chr_eqb. destruct (Ascii.eqb_spec c LF); done.
Qed.

Lemma header_match_line (must : bool) (id r : str) :
  is_section_identifier id = true -> ends_number r ->
  match_here SECTION_HEADER_REGEX must (Some LF) (py "SECTION: " ++ id ++ r)
  = Some (9 + length id, Some id).
Proof.
  intros Hid Hr. unfold match_here.
  change SECTION_HEADER_REGEX
    with (Seq Bol (Seq (Star ws)
            (marker_core (LitI (py "SECTION")) (Grp dotted_number)))).
  assert (Hsp : forall c, isspace c = true -> same_chr_ci "S" c = false)
    by (intros c Hc; by apply space_not_S).
  rewrite run_bol_at. change (chr_eqb LF LF) with true. cbv iota.
  rewrite LitI_by.
  rewrite run_star_ws_seq
    by (intros; by apply marker_core_rejects_space;
        [exact Hsp|exact grp_dotted_led|]).
  replace (skip_state isspace (Some LF) (py "SECTION: " ++ id ++ r) None)
    with (MState (Some LF) (py "SECTION: " ++ id ++ r) None) by reflexivity.
  unfold marker_core. rewrite run_lit_seq.
  replace (lit_state same_chr_ci (py "SECTION") (Some LF)
             (py "SECTION: " ++ id ++ r) None)
    with (Some (MState (Some "N") (py ": " ++ id ++ r) None))
    by reflexivity.
  rewrite run_star_ws_seq by (intros; by apply colon_rejects_space).
  replace (skip_state isspace (Some "N") (py ": " ++ id ++ r) None)
    with (MState (Some "N") (":" :: " " :: id ++ r) None) by reflexivity.
  rewrite run_chr_seq.
  replace (colon_or_dash ":") with true by reflexivity.
  rewrite run_star_ws_seq
    by (intros; by apply (tail_rejects_space _ grp_dotted_led)).
  assert (Hskip : skip_state isspace (Some ":") (" " :: id ++ r) None
                  = MState (Some " ") (id ++ r) None).
  { unfold is_section_identifier in Hid. destruct id as [|d id]; [done|].
    simpl in Hid. destruct (isdigit d) eqn:Hd; [|done].
    rewrite <- app_comm_cons. cbn [skip_state].
    replace (isspace " ") with true by reflexivity.
    by rewrite (digit_not_space d Hd). }
  rewrite Hskip, run_grp.
  destruct (run_dotted_head id r (Some " ") None Hid Hr)
    as (pv' & others & ->).
  cbn [List.map List.filter]. unfold consumed, capture. cbn [rest cap].
  assert (Hpos : (0 <? length (py "SECTION: " ++ id ++ r) - length r) = true).
  { apply Nat.ltb_lt. rewrite !length_app. simpl length. lia. }
  rewrite Hpos, orb_true_r. cbn [rest cap]. f_equal. f_equal.
  - rewrite !length_app. simpl length. lia.
  - f_equal. rewrite length_app.
    replace (length id + length r - length r) with (length id) by lia.
    apply take_app_length.
Qed.

Lemma ends_solid_suffix (a s : str) :
  ends_solid (a ++ s) -> s <> [] -> ends_solid s /\ drop_while isspace s <> [].
Proof.
  intros H Hs. destruct s as [|c s0 _] using rev_ind; [done|].
  unfold ends_solid in *. rewrite app_assoc, last_snoc in H.
  rewrite last_snoc. split; [done|]. by apply drop_while_snoc_keep.
Qed.

Lemma marker_free_inert (s w : str) :
  marker_free (s ++ w) -> Forall (fun c => isspace c = true) w ->
  marker_free s.
Proof.
  intros H Hw a s' E. destruct s' as [|c s']; [done|].
  rewrite <- (marker_by_inert same_chr_ci (c :: s') w []);
    [|apply ection_inert_ci|done|done|by left].
  rewrite app_nil_r. apply (H a). rewrite E. by rewrite <- app_assoc.
Qed.

(** The first header match after the end of an identifier: past the
    body, at the marker on the next line. *)
Lemma search_header_first (e id r : str) (pv : option ascii) :
  marker_free e -> ends_solid e ->
  (e = [] -> pv <> Some LF) ->
  is_section_identifier id = true -> ends_number r ->
  exists b,
    search SECTION_HEADER_REGEX false pv
      (e ++ LF :: py "SECTION: " ++ id ++ r)
    = Some (b, length e + 10 + length id, Some id)
    /\ (b = length e + 1 \/ (b = 0 /\ pv = None /\ e = [])).
Proof.
  intros Hfree Hsolid Hpv Hid Hr. revert pv Hpv.
  induction e as [|c e IH]; intros pv Hpv.
  - cbn [app length]. destruct pv as [d|].
    + exists 1. split; [|by left].
      rewrite search_cons, match_here_header_bol by (intros ->; by apply Hpv).
      assert (Es : exists t, py "SECTION: " ++ id ++ r = "S" :: t)
        by (by eexists).
      destruct Es as [t Es].
      pose proof (header_match_line false id r Hid Hr) as Hm.
      rewrite Es in Hm |- *. rewrite search_cons, Hm.
      repeat f_equal; lia.
    + exists 0. split; [|by right].
      by rewrite search_cons, header_match_first.
  - destruct (ends_solid_suffix [] (c :: e) Hsolid ltac:(done)) as [_ Hkeep].
    assert (Hnone : match_here SECTION_HEADER_REGEX false pv
                      ((c :: e) ++ LF :: py "SECTION: " ++ id ++ r) = None).
    { apply match_here_header_none.
      change (LF :: py "SECTION: " ++ id ++ r)
        with ([LF] ++ "S" :: py "ECTION: " ++ id ++ r).
      rewrite drop_while_app_inert by (done || by repeat constructor).
      destruct (drop_while isspace (c :: e)) as [|c1 s1] eqn:Ed; [done|].
      rewrite marker_by_inert;
        [|apply ection_inert_ci|done|by repeat constructor
         |right; by eexists].
      destruct (drop_while_split isspace (c :: e)) as (a & Ea & _).
      apply (Hfree a). by rewrite <- Ed. }
    destruct (IH (marker_free_suffix [c] e Hfree)) with (pv := Some c)
      as (b & Hs & Hb).
    { unfold ends_solid in *. rewrite last_cons in Hsolid.
      by destruct (last e). }
    { intros -> [= ->]. by unfold ends_solid in Hsolid. }
    exists (S b). split.
    + rewrite <- app_comm_cons, search_cons.
      rewrite app_comm_cons, Hnone, Hs. by cbn [length].
    + left. cbn [length]. destruct Hb as [->|(_ & [=] & _)]. lia.
Qed.

Lemma squeezed_head (secs : list (str * str)) :
  secs <> [] -> exists t, squeezed secs = LF :: t.
Proof. destruct secs; [done|]. intros _. by eexists. Qed.

Lemma squeeze_false_head (x : str) :
  match x with
  | [] => squeeze false x = []
  | c :: _ => exists t, squeeze false x = c :: t
  end.
Proof.
  destruct x as [|c x]; [done|]. rewrite squeeze_false_cons.
  destruct (chr_eqb c LF) eqn:E; [|by eexists].
  apply Ascii.eqb_eq in E. subst c. by eexists.
Qed.

Lemma raw_start_rstrip (raw : str) :
  raw_start_ok raw = true -> raw_start_ok (rstrip_by isspace raw) = true.
Proof.
  intros H. destruct (rstrip_split raw) as (w & E & _).
  destruct (rstrip_by isspace raw) as [|c x]; [done|].
  rewrite E in H. exact H.
Qed.

(** What follows an identifier in the normalized text ends it. *)
Lemma ends_number_body (x t : str) :
  raw_start_ok x = true -> (t = [] \/ exists t', t = LF :: t') ->
  ends_number (squeeze false x ++ t).
Proof.
  intros Hx Ht. pose proof (squeeze_false_head x) as Hh.
  destruct x as [|c x].
  - rewrite Hh. cbn [app]. destruct Ht as [->|[t' ->]]; by split.
  - destruct Hh as [t0 ->]. cbn [raw_start_ok] in Hx.
    apply andb_prop in Hx as [H1 H2].
    apply negb_true_iff in H1, H2. split; [exact H1|].
    intros t1 [= -> _]. by rewrite (proj2 (Ascii.eqb_eq _ _) eq_refl) in H2.
Qed.

Lemma squeeze_ends_solid (fl : bool) (x : str) :
  ends_solid x -> ends_solid (squeeze fl x).
Proof.
  unfold ends_solid. destruct x as [|c x0 _] using rev_ind.
  - by destruct fl.
  - rewrite last_snoc. intros Hc. by rewrite squeeze_snoc_solid, last_snoc.
Qed.

Lemma rstrip_ends_solid (y : str) : ends_solid (rstrip_by isspace y).
Proof.
  unfold ends_solid.
  destruct (rstrip_cases y) as [[-> _]|(a & c & -> & Hc)]; [done|].
  by rewrite last_snoc.
Qed.

Lemma body_facts (s : str * str) :
  section_ok s = true ->
  marker_free (squeeze false s.2)
  /\ marker_free (squeeze false (rstrip_by isspace s.2))
  /\ ends_solid (squeeze false (rstrip_by isspace s.2)).
Proof.
  intros Hs. destruct (section_ok_parts s Hs) as (_ & Hmk & _).
  apply has_marker_free in Hmk. split; [by apply marker_free_squeeze|].
  split; [|apply squeeze_ends_solid, rstrip_ends_solid].
  apply marker_free_squeeze. destruct (rstrip_split s.2) as (w & E & Hw).
  apply (marker_free_inert _ w); [by rewrite <- E|done].
Qed.

Lemma slice_middle (p e t : str) (n : nat) :
  n = length e ->
  slice (p ++ e ++ t) (length p) (length p + n) = e.
Proof.
  intros ->. unfold slice. rewrite drop_app_length.
  replace (length p + length e - length p) with (length e) by lia.
  apply take_app_length.
Qed.

(** The matches the scan finds after the end of an identifier, and
    the entries the loop makes of them. *)
Lemma entries_after (rest : list (str * str)) :
  Forall (fun s => section_ok s = true) rest ->
  forall (P e : str) (pv : option ascii) (fuel : nat),
    marker_free e ->
    (rest <> [] -> ends_solid e /\ (e = [] -> pv <> Some LF)) ->
    2 * length (e ++ squeezed rest) + 1 < fuel ->
    section_entries (P ++ e ++ squeezed rest)
      (spans (length P)
         (scan fuel SECTION_HEADER_REGEX false pv (e ++ squeezed rest)).1)
    = List.map (fun s : str * str => (s.1, strip (squeeze false s.2))) rest
    /\ match rest with
       | [] =>
           spans (length P)
             (scan fuel SECTION_HEADER_REGEX false pv (e ++ squeezed rest)).1
           = []
       | _ :: _ =>
           exists m more,
             spans (length P)
               (scan fuel SECTION_HEADER_REGEX false pv
                  (e ++ squeezed rest)).1
             = m :: more
             /\ (pv <> None -> m_start m = length P + length e + 1)
       end.
Proof.
  induction 1 as [|s rest Hs Hrest IH]; intros P e pv fuel Hfree He Hfuel.
  { destruct fuel; [lia|]. cbn [squeezed scan]. rewrite app_nil_r.
    by rewrite (search_never _ _ _ (never_header pv e Hfree)). }
  destruct He as [Hsolid Hpv]; [done|].
  destruct (section_ok_parts s Hs) as (Hid & _ & Hstart).
  destruct (body_facts s Hs) as (Hf1 & Hf2 & Hs2).
  destruct (id_last _ Hid) as (id0 & d & Eid & _ & Hd).
  set (E' := squeeze false match rest with
                           | [] => s.2
                           | _ :: _ => rstrip_by isspace s.2
                           end).
  assert (HE' : marker_free E'
                /\ (rest <> [] -> ends_solid E')
                /\ strip E' = strip (squeeze false s.2)).
  { unfold E'. destruct rest; [by repeat split|].
    repeat split; [done|done|apply strip_squeeze_rstrip]. }
  destruct HE' as (HfE & HsE & HstripE).
  assert (Hr : ends_number (E' ++ squeezed rest)).
  { unfold E'. apply ends_number_body.
    - destruct rest; [done|by apply raw_start_rstrip].
    - destruct rest as [|s2 rest']; [by left|right; by eexists]. }
  assert (EU : e ++ squeezed (s :: rest)
               = e ++ LF :: py "SECTION: " ++ s.1 ++ E' ++ squeezed rest)
    by done.
  destruct (search_header_first e s.1 (E' ++ squeezed rest) pv
              Hfree Hsolid Hpv Hid Hr) as (b & Hsearch & Hb).
  destruct fuel; [lia|]. rewrite EU in Hfuel |- *.
  cbn [scan]. rewrite Hsearch.
  set (P' := P ++ e ++ LF :: py "SECTION: " ++ s.1).
  assert (HlenP' : length P' = length P + (length e + 10 + length s.1)).
  { unfold P'. rewrite !length_app. cbn [length]. rewrite length_app.
    simpl length. lia. }
  assert (Hdrop : drop (length e + 10 + length s.1)
                    (e ++ LF :: py "SECTION: " ++ s.1 ++ E' ++ squeezed rest)
                  = E' ++ squeezed rest).
  { replace (e ++ LF :: py "SECTION: " ++ s.1 ++ E' ++ squeezed rest)
      with ((e ++ LF :: py "SECTION: " ++ s.1) ++ E' ++ squeezed rest)
      by (by rewrite <- app_assoc).
    apply drop_app_length'. rewrite length_app. cbn [length].
    rewrite length_app. simpl length. lia. }
  assert (Hprev : prev_after pv
                    (e ++ LF :: py "SECTION: " ++ s.1 ++ E' ++ squeezed rest)
                    (length e + 10 + length s.1) = Some d).
  { unfold prev_after.
    replace (e ++ LF :: py "SECTION: " ++ s.1 ++ E' ++ squeezed rest)
      with (((e ++ LF :: py "SECTION: " ++ id0) ++ [d])
            ++ E' ++ squeezed rest)
      by (rewrite Eid, <- !app_assoc; cbn [app];
          by rewrite <- !app_assoc).
    rewrite take_app_length'; [by rewrite last_snoc|].
    rewrite Eid, !length_app. cbn [length]. rewrite !length_app.
    simpl length. lia. }
  rewrite Hdrop, Hprev.
  assert (Hbe : (length e + 10 + length s.1 =? b) = false).
  { apply Nat.eqb_neq. destruct Hb as [->|(-> & _)]; lia. }
  rewrite Hbe.
  specialize (IH P' E' (Some d) fuel HfE).
  destruct IH as [IH1 IH2].
  { intros Hne. split; [by apply HsE|]. by intros _ [= ->]. }
  { rewrite !length_app in Hfuel |- *. cbn [length] in Hfuel.
    rewrite !length_app in Hfuel. lia. }
  assert (EB : P' ++ E' ++ squeezed rest
               = P ++ e ++ LF :: py "SECTION: " ++ s.1 ++ E' ++ squeezed rest).
  { unfold P'. rewrite <- !app_assoc. cbn [app]. by rewrite <- !app_assoc. }
  rewrite EB in IH1.
  destruct (scan fuel SECTION_HEADER_REGEX false (Some d)
              (E' ++ squeezed rest)) as [ms tl].
  cbn [fst snd] in *. cbn [spans m_gap m_text m_group].
  assert (Hbl : b <= length e + 1) by (destruct Hb as [->|(-> & _)]; lia).
  assert (Hgap : length (take b (e ++ LF :: py "SECTION: " ++ s.1
                                   ++ E' ++ squeezed rest)) = b).
  { rewrite length_take, length_app. cbn [length]. lia. }
  assert (Htext : length (take (length e + 10 + length s.1 - b)
                            (drop b (e ++ LF :: py "SECTION: " ++ s.1
                                       ++ E' ++ squeezed rest)))
                  = length e + 10 + length s.1 - b).
  { rewrite length_take, length_drop, length_app. cbn [length].
    rewrite !length_app. simpl length. lia. }
  rewrite Hgap, Htext.
  replace (length P + b + (length e + 10 + length s.1 - b))
    with (length P') by lia.
  split.
  - cbn [section_entries m_end group1]. rewrite IH1. cbn [List.map].
    f_equal. change (default [] (Some s.1)) with s.1.
    rewrite (dotted_id_trimmed _ Hid). f_equal. rewrite <- HstripE.
    rewrite <- EB. destruct rest as [|s2 rest'].
    + rewrite IH2. cbn [squeezed]. rewrite !app_nil_r.
      unfold slice. rewrite drop_app_length, length_app.
      replace (length P' + length E' - length P') with (length E') by lia.
      by rewrite take_ge.
    + destruct IH2 as (m & more & -> & Hm). rewrite Hm by done.
      destruct (squeezed_head (s2 :: rest') ltac:(done)) as [t Et].
      rewrite Et.
      replace (P' ++ E' ++ LF :: t) with (P' ++ (E' ++ [LF]) ++ t)
        by (by rewrite <- !app_assoc).
      replace (length P' + length E' + 1)
        with (length P' + (length E' + 1)) by lia.
      rewrite slice_middle by (rewrite length_app; simpl; lia).
      by apply strip_app_space_r; repeat constructor.
  - eexists _, _. split; [done|]. cbn [m_start]. intros Hpv'.
    destruct Hb as [->|(_ & -> & _)]; [lia|done].
Qed.

Lemma remove_chr_app (ch : ascii) (a b : str) :
  remove_chr ch (a ++ b) = remove_chr ch a ++ remove_chr ch b.
Proof. apply List.filter_app. Qed.

Lemma remove_cr_fsd (secs : list (str * str)) :
  Forall (fun s => piece_ok s = true) secs ->
  remove_chr CR (fsd_of secs)
  = fsd_of (List.map (fun s : str * str => (s.1, remove_chr CR s.2)) secs).
Proof.
  induction 1 as [|s secs Hs _ IH]; [done|].
  cbn [List.map]. change (fsd_of (?x :: ?l)) with (piece x ++ fsd_of l).
  rewrite remove_chr_app, IH. f_equal.
  unfold piece. cbn [fst snd]. rewrite !remove_chr_app. f_equal. f_equal.
  apply remove_chr_id. intros Hin.
  destruct (section_ok_parts _ Hs) as (Hid & _). cbn [fst] in Hid.
  pose proof (dotted_chars false _ Hid) as Hall.
  rewrite Forall_forall in Hall. apply list_elem_of_In in Hin.
  by destruct (id_char_facts _ (Hall _ Hin)) as (? & _).
Qed.

(** With text before the first marker, the first substitution cuts
    the blanks at its end and goes on as from a marker. *)
Lemma sub_forced_after (pre : str) (secs : list (str * str)) :
  marker_free pre -> secs <> [] ->
  Forall (fun s => section_ok s = true) secs ->
  exists must,
    sub FORCE_NEWLINE_REGEX [LF] (pre ++ fsd_of secs)
    = rstrip_by isspace pre ++ LF :: forced must secs.
Proof.
  intros Hfree Hne Hok.
  destruct (rstrip_split pre) as (w & Ew & Hw).
  destruct (fsd_of_head secs Hne) as [t Et].
  assert (Hmk : marker_by same_chr (fsd_of secs) = true).
  { destruct secs as [|s secs']; [done|]. apply Forall_inv in Hok.
    destruct (piece_facts s Hok) as (Hm & _). apply Hm. }
  assert (Hsearch : search FORCE_NEWLINE_REGEX false None
                      (pre ++ fsd_of secs)
                    = Some (length (rstrip_by isspace pre),
                            length (rstrip_by isspace pre) + length w, None)).
  { rewrite Ew at 1. rewrite <- app_assoc.
    apply search_force_first; [done|by exists t|done|].
    intros a s0 Ea Hs0.
    assert (Hkeep : drop_while isspace s0 <> [])
      by (by apply (rstrip_suffix_keep pre a)).
    split; [done|].
    destruct (drop_while_split isspace s0) as (a2 & Es0 & _).
    rewrite <- (marker_by_inert same_chr (drop_while isspace s0) w []);
      [|apply ection_inert_cs|done|done|by left].
    apply marker_cs_free. rewrite app_nil_r.
    apply (Hfree (a ++ a2)). rewrite Ew, Ea. rewrite Es0 at 1.
    by rewrite <- !app_assoc. }
  exists (length (rstrip_by isspace pre) + length w
          =? length (rstrip_by isspace pre)).
  unfold sub, scan_all.
  replace (2 * length (pre ++ fsd_of secs) + 2)
    with (S (2 * length (pre ++ fsd_of secs) + 1)) by lia.
  cbn [scan]. rewrite Hsearch.
  assert (Hdrop : drop (length (rstrip_by isspace pre) + length w)
                    (pre ++ fsd_of secs) = fsd_of secs).
  { rewrite Ew at 2. rewrite <- length_app, <- Ew. apply drop_app_length. }
  assert (Htake : take (length (rstrip_by isspace pre)) (pre ++ fsd_of secs)
                  = rstrip_by isspace pre).
  { rewrite Ew at 2. rewrite <- !app_assoc. apply take_app_length. }
  rewrite Hdrop, Htake.
  match goal with |- context [scan ?f _ ?m ?p (fsd_of secs)] =>
    pose proof (scan_forced secs Hok m p f) as Hscan end.
  destruct (scan _ _ _ _ (fsd_of secs)) as [ms tl].
  cbn [fst snd List.map concat m_gap] in *.
  rewrite <- !app_assoc. cbn [app]. rewrite Hscan; [done|].
  assert (Hlen : length pre = length (rstrip_by isspace pre) + length w)
    by (rewrite Ew at 1; apply length_app).
  rewrite length_app.
  destruct (_ =? _) eqn:Eq; [lia|]. apply Nat.eqb_neq in Eq. lia.
Qed.

Lemma normalize_fsd (pre : str) (secs : list (str * str)) :
  has_marker (remove_chr CR pre) = false ->
  Forall (fun s => piece_ok s = true) secs ->
  normalize (pre ++ fsd_of secs)
  = squeeze false (match secs with
                   | [] => remove_chr CR pre
                   | _ :: _ => rstrip_by isspace (remove_chr CR pre)
                   end)
    ++ squeezed (List.map (fun s : str * str => (s.1, remove_chr CR s.2))
                          secs).
Proof.
  intros Hpre H. apply has_marker_free in Hpre.
  unfold normalize. cbv zeta.
  rewrite remove_chr_app, remove_cr_fsd by done.
  set (pre' := remove_chr CR pre) in *.
  set (secs' := List.map (fun s : str * str => (s.1, remove_chr CR s.2))
                         secs).
  assert (H' : Forall (fun s => section_ok s = true) secs').
  { apply Forall_map. exact H. }
  destruct secs as [|s0 secs0].
  - cbn [fsd_of flat_map squeezed] . rewrite !app_nil_r.
    rewrite (sub_never FORCE_NEWLINE_REGEX) by by apply never_force.
    apply sub_empty_lines.
  - destruct (sub_forced_after pre' secs' Hpre ltac:(done) H')
      as [must Esub].
    change (py "\n") with [LF]. rewrite Esub, sub_empty_lines.
    destruct (squeezed_forced secs' H') as [_ Hsq].
    destruct (squeezed_head secs' ltac:(done)) as [t Et].
    assert (Etail : LF :: squeeze true (forced must secs') = squeezed secs').
    { rewrite Hsq, Et. cbn [drop]. by rewrite drop_0. }
    destruct (rstrip_cases pre') as [[-> _]|(a & c & -> & Hc)].
    + cbn [app squeeze]. exact Etail.
    + rewrite squeeze_app_solid by done. f_equal. exact Etail.
Qed.

(** X22. Any text, then plainly spelled markers, each followed by raw text:
    when neither the text before the first marker nor a raw text holds
    a marker, the sectionizer gives exactly one entry per marker, in
    order: the identifier with the raw text tidied, that is without
    carriage returns, with repeated line feeds squeezed and blanks
    trimmed.  The text before the first marker is dropped.  The
    mapping is what inserting these entries one after the other
    gives. *)
Theorem sections_roundtrip (pre : str) (secs : list (str * str)) :
  has_marker (remove_chr CR pre) = false ->
  Forall (fun s => piece_ok s = true) secs ->
  fsd_entries (pre ++ fsd_of secs)
  = List.map (fun s : str * str => (s.1, tidy s.2)) secs
  /\ parse_fsd_sections (pre ++ fsd_of secs)
     = foldl (fun d (e : str * str) => <[e.1 := e.2]> d) ∅
         (List.map (fun s : str * str => (s.1, tidy s.2)) secs).
Proof.
  intros Hpre H.
  assert (E : fsd_entries (pre ++ fsd_of secs)
              = List.map (fun s : str * str => (s.1, tidy s.2)) secs).
  { unfold fsd_entries. rewrite normalize_fsd by done.
    set (secs' := List.map (fun s : str * str => (s.1, remove_chr CR s.2))
                           secs).
    set (e := squeeze false match secs with
                            | [] => remove_chr CR pre
                            | _ :: _ => rstrip_by isspace (remove_chr CR pre)
                            end).
    assert (H' : Forall (fun s => section_ok s = true) secs').
    { apply Forall_map. exact H. }
    assert (He : marker_free e
                 /\ (secs' <> [] -> ends_solid e)).
    { unfold e, secs'. apply has_marker_free in Hpre. destruct secs.
      - split; [by apply marker_free_squeeze|done].
      - split; [|intros _; apply squeeze_ends_solid, rstrip_ends_solid].
        apply marker_free_squeeze.
        destruct (rstrip_split (remove_chr CR pre)) as (w & Ew & Hw).
        apply (marker_free_inert _ w); [by rewrite <- Ew|done]. }
    destruct He as [He1 He2].
    destruct (entries_after secs' H' [] e None
                (2 * length (e ++ squeezed secs') + 2)) as [E1 _].
    - exact He1.
    - intros Hne. split; [by apply He2|done].
    - lia.
    - cbn [app length] in E1. unfold finditer, scan_all. rewrite E1.
      unfold secs'. rewrite List.map_map. done. }
  split; [exact E|].
  unfold parse_fsd_sections. rewrite section_loop_entries.
  unfold fsd_entries in E. by rewrite E.
Qed.

Lemma sections_roundtrip_witness :
  fsd_entries
    (py "Title page

SECTION: 1
  Scope of work  


SECTION: 2.10 Design


and SECTION B.SECTION: 3")
  = [(py "1", py "Scope of work");
     (py "2.10", py "Design
and SECTION B.");
     (py "3", [])].
Proof.
  apply (sections_roundtrip (py "Title page

")
           [(py "1", py "
  Scope of work  


");
            (py "2.10", py " Design


and SECTION B.");
            (py "3", [])]).
  - reflexivity.
  - repeat constructor.
Defined.
